(** * IPAM Prefix Allocator: dashboard client and allocation engine

    The repository ships a browser dashboard ([static/auth.js] and the
    dashboard script) that talks to an allocation engine over HTTP.  This
    development embeds the two scripts in Rocq and states the properties
    of the specification over the embedding.

    - [Js]: the fragment of the JavaScript platform the scripts rely on
      (string trimming, truthiness, numeric coercion, [parseInt],
      the [Headers] class, objects and JSON documents).
    - [Browser]: the world the scripts run in (localStorage, the DOM, the
      script's globals, a trace of interactions) and a small monad of
      computations that may throw.
    - [Auth]: [static/auth.js].
    - [Dashboard]: the dashboard script.
    - [Engine]: the allocation engine.  Its implementation is not part of
      the sources at hand; it is modelled from the specification.

    Each handler is modelled running to completion on its own: the
    interleaving of two handlers at their [await] points is outside the
    model.  The integers that [parseInt] reads are kept exactly (the
    script's doubles round them beyond 2^53); the comparisons of the host
    count follow the rounding of the text's value to a double.  The two
    event listeners of the dashboard script (key presses, page load) are
    modelled as the functions they register; the markup the render
    functions build is kept as the data it is built from. *)

From Stdlib Require Import ZArith Lia String Ascii List Bool.
From stdpp Require Import gmap strings list pretty.

Open Scope Z_scope.

(* ===================================================================== *)
(** * Part I: definitions                                                 *)
(* ===================================================================== *)

(** ** The JavaScript fragment *)

Module Js.

(** JavaScript strings are sequences of UTF-16 code units.  The model
    keeps the code units below 256, one [ascii] each. *)

Definition code (c : ascii) : Z := Z.of_nat (nat_of_ascii c).

(** [WhiteSpace] and [LineTerminator] code units below 256:
    TAB, LF, VT, FF, CR, SP and NBSP. *)
Definition is_white_space (c : ascii) : bool :=
  let n := code c in
  (n =? 9) || (n =? 10) || (n =? 11) || (n =? 12) || (n =? 13)
  || (n =? 32) || (n =? 160).

(** [String.prototype.trimStart] *)
Fixpoint trimStart (s : string) : string :=
  match s with
  | EmptyString => EmptyString
  | String c s' => if is_white_space c then trimStart s' else s
  end.

(** [String.prototype.trimEnd] *)
Fixpoint trimEnd (s : string) : string :=
  match s with
  | EmptyString => EmptyString
  | String c s' =>
      match trimEnd s' with
      | EmptyString =>
          if is_white_space c then EmptyString else String c EmptyString
      | t => String c t
      end
  end.

(** [String.prototype.trim] *)
Definition trim (s : string) : string := trimEnd (trimStart s).

(** A string of white space only. *)
Fixpoint all_white_space (s : string) : bool :=
  match s with
  | EmptyString => true
  | String c s' => is_white_space c && all_white_space s'
  end.

(** ToBoolean on a string: every string but the empty one is truthy. *)
Definition truthy_string (s : string) : bool :=
  match s with
  | EmptyString => false
  | String _ _ => true
  end.

(** ToBoolean on a value that is a string or [null]. *)
Definition truthy (v : option string) : bool :=
  match v with
  | Some s => truthy_string s
  | None => false
  end.

(** Strict equality [===] of two strings. *)
Definition strict_eq (a b : string) : bool := String.eqb a b.

(** The numbers that [parseInt] returns: NaN or an integer, kept exactly. *)
Inductive Number :=
| NaN
| Num (z : Z).

(** The value of a digit in the given radix (at most 16). *)
Definition digit_of (radix : Z) (c : ascii) : option Z :=
  let n := code c in
  let v := if (48 <=? n) && (n <=? 57) then Some (n - 48)
           else if (97 <=? n) && (n <=? 102) then Some (n - 87)
           else if (65 <=? n) && (n <=? 70) then Some (n - 55)
           else None in
  match v with
  | Some d => if d <? radix then Some d else None
  | None => None
  end.

(** The longest prefix of digits and its value: [acc] is [None] until
    a first digit has been read. *)
Fixpoint scan_digits (radix : Z) (acc : option Z) (s : string) : option Z :=
  match s with
  | EmptyString => acc
  | String c s' =>
      match digit_of radix c with
      | Some d => scan_digits radix (Some (radix * default 0 acc + d)) s'
      | None => acc
      end
  end.

(** An optional sign in front of a literal. *)
Definition strip_sign (s : string) : Z * string :=
  match s with
  | String "-" s' => (-1, s')
  | String "+" s' => (1, s')
  | _ => (1, s)
  end.

(** An optional [0x] / [0X] in front of the digits. *)
Definition strip_hex_prefix (s : string) : Z * string :=
  match s with
  | String "0" (String "x" s') => (16, s')
  | String "0" (String "X" s') => (16, s')
  | _ => (10, s)
  end.

(** [parseInt(string)] with no radix argument: leading white space is
    skipped, then a sign, then a hexadecimal prefix, then the longest
    run of digits is read; no digit at all gives NaN. *)
Definition parseInt (s : string) : Number :=
  let '(sign, s1) := strip_sign (trimStart s) in
  let '(radix, s2) := strip_hex_prefix s1 in
  match scan_digits radix None s2 with
  | Some m => Num (sign * m)
  | None => NaN
  end.

(** Whether every character of the string is a decimal digit. *)
Fixpoint all_digits (s : string) : bool :=
  match s with
  | EmptyString => true
  | String c s' =>
      match digit_of 10 c with
      | Some _ => all_digits s'
      | None => false
      end
  end.

Fixpoint mem_char (c : ascii) (s : string) : bool :=
  match s with
  | EmptyString => false
  | String d s' => Ascii.eqb c d || mem_char c s'
  end.

(** What a [StringNumericLiteral] denotes, before it is rounded to a
    double: NaN, an infinity, or the decimal [m * 10^e] as written. *)
Inductive Numeric :=
| NotANumber
| Infinite (negative : bool)
| Decimal (m e : Z).

(** The value of a string all of whose characters are digits of the
    radix, one at least. *)
Fixpoint digits_value (radix : Z) (acc : option Z) (s : string) : option Z :=
  match s with
  | EmptyString => acc
  | String c s' =>
      match digit_of radix c with
      | Some d => digits_value radix (Some (radix * default 0 acc + d)) s'
      | None => None
      end
  end.

(** [NonDecimalIntegerLiteral]: [0x], [0o] or [0b] (in either case) and
    digits of that radix; [None] when the text has no such prefix. *)
Definition non_decimal_literal (t : string) : option Numeric :=
  match t with
  | String "0" (String p ds) =>
      let radix := if mem_char p "xX" then Some 16
                   else if mem_char p "oO" then Some 8
                   else if mem_char p "bB" then Some 2
                   else None in
      match radix with
      | Some r =>
          Some (match digits_value r None ds with
                | Some v => Decimal v 0
                | None => NotANumber
                end)
      | None => None
      end
  | _ => None
  end.

(** The longest prefix of decimal digits, and what follows it. *)
Fixpoint span_digits (s : string) : string * string :=
  match s with
  | EmptyString => (EmptyString, EmptyString)
  | String c s' =>
      match digit_of 10 c with
      | Some _ => let '(ds, r) := span_digits s' in (String c ds, r)
      | None => (EmptyString, s)
      end
  end.

(** [ExponentPart], optional, up to the end of the text: its value. *)
Definition exponent_part (r : string) : option Z :=
  match r with
  | EmptyString => Some 0
  | String c r' =>
      if mem_char c "eE" then
        let '(sign, ds) := strip_sign r' in
        if truthy_string ds && all_digits ds
        then Some (sign * default 0 (scan_digits 10 None ds))
        else None
      else None
  end.

(** [StrUnsignedDecimalLiteral] other than [Infinity]: digits, a dot and
    digits, an exponent, with a digit at least before or after the dot.
    The result [(m, e)] stands for [m * 10^e]. *)
Definition unsigned_decimal (u : string) : option (Z * Z) :=
  let '(ip, r1) := span_digits u in
  let '(fp, r2) := match r1 with
                   | String "." r => span_digits r
                   | _ => (EmptyString, r1)
                   end in
  if negb (truthy_string ip) && negb (truthy_string fp) then None
  else match exponent_part r2 with
       | Some x =>
           Some (default 0 (scan_digits 10 None (ip +:+ fp)),
                 x - Z.of_nat (String.length fp))
       | None => None
       end.

(** StringToNumber, the coercion behind [<] and [>] when one operand is
    a string and the other a number: white space around the literal is
    ignored; the empty literal is 0; then come the literals with a radix
    prefix (unsigned), [Infinity] and the decimal literals (signed);
    anything else is NaN. *)
Definition StringToNumber (s : string) : Numeric :=
  let t := trim s in
  match t with
  | EmptyString => Decimal 0 0
  | _ =>
      match non_decimal_literal t with
      | Some n => n
      | None =>
          let '(sign, u) := strip_sign t in
          if String.eqb u "Infinity" then Infinite (sign <? 0)
          else match unsigned_decimal u with
               | Some (m, e) => Decimal (sign * m) e
               | None => NotANumber
               end
      end
  end.

(** [m * 10^e < a / 2^b] and [m * 10^e > a / 2^b], for [b >= 0]. *)
Definition decimal_below (m e a b : Z) : bool :=
  if 0 <=? e then m * 10 ^ e * 2 ^ b <? a
  else m * 2 ^ b <? a * 10 ^ (- e).

Definition decimal_above (m e a b : Z) : bool :=
  if 0 <=? e then a <? m * 10 ^ e * 2 ^ b
  else a * 10 ^ (- e) <? m * 2 ^ b.

(** [x < k] and [x > k] for the number a string denotes and an integer
    literal [k], [1 <= k < 2^52].  The string's number is the double
    nearest to what it denotes, a tie going to the even significand,
    which [k] has: so that double is below [k] exactly when the value is
    below the midpoint of [k] and the double before it, and above [k]
    exactly when the value is above the midpoint of [k] and the double
    after it.  The gap to the next double is [2^(log2 k - 52)]; the gap
    to the one before is that, or half of it when [k] is a power of two.
    A comparison with NaN is false. *)
Definition lt_literal (x : Numeric) (k : Z) : bool :=
  match x with
  | NotANumber => false
  | Infinite negative => negative
  | Decimal m e =>
      let b := (if k =? 2 ^ Z.log2 k then 54 else 53) - Z.log2 k in
      decimal_below m e (k * 2 ^ b - 1) b
  end.

Definition gt_literal (x : Numeric) (k : Z) : bool :=
  match x with
  | NotANumber => false
  | Infinite negative => negb negative
  | Decimal m e =>
      let b := 53 - Z.log2 k in
      decimal_above m e (k * 2 ^ b + 1) b
  end.

(** The text is a plain decimal integer that reads [h]: digits, with an
    optional sign in front and white space around. *)
Definition integer_text (s : string) (h : Z) : Prop :=
  truthy_string (snd (strip_sign (trim s))) = true
  /\ all_digits (snd (strip_sign (trim s))) = true
  /\ h = fst (strip_sign (trim s))
          * default 0 (scan_digits 10 None (snd (strip_sign (trim s)))).

(** Values that the scripts store in object properties. *)
Inductive Value :=
| VNum (n : Number)
| VStr (s : string).

(** An object literal: its own properties in insertion order. *)
Definition Object := list (string * Value).

Fixpoint has_prop (k : string) (o : Object) : bool :=
  match o with
  | [] => false
  | (k', _) :: o' => String.eqb k k' || has_prop k o'
  end.

(** [o.k = v]: overwrite the property when it exists, else add it
    after the others. *)
Fixpoint set_prop (k : string) (v : Value) (o : Object) : Object :=
  match o with
  | [] => [(k, v)]
  | (k', v') :: o' =>
      if String.eqb k k' then (k, v) :: o' else (k', v') :: set_prop k v o'
  end.

(** JSON documents, as far as the scripts produce them: an object whose
    members are numbers, strings or [null]. *)
Inductive JsonScalar :=
| JNull
| JNumber (z : Z)
| JString (s : string).

Definition Json := list (string * JsonScalar).

Definition json_of_value (v : Value) : JsonScalar :=
  match v with
  | VNum NaN => JNull
  | VNum (Num z) => JNumber z
  | VStr s => JString s
  end.

(** [JSON.stringify] on an object of numbers and strings, up to the
    concrete text: the document it denotes.  NaN is written [null]. *)
Definition JSON_stringify (o : Object) : Json :=
  map (fun kv => (fst kv, json_of_value (snd kv))) o.

(** *** The [Headers] class of the Fetch standard *)

Definition to_lower (c : ascii) : ascii :=
  let n := code c in
  if (65 <=? n) && (n <=? 90) then ascii_of_nat (Z.to_nat (n + 32)) else c.

Fixpoint lowercase (s : string) : string :=
  match s with
  | EmptyString => EmptyString
  | String c s' => String (to_lower c) (lowercase s')
  end.

(** A header name is a non-empty HTTP token. *)
Definition is_tchar (c : ascii) : bool :=
  let n := code c in
  ((48 <=? n) && (n <=? 57)) || ((65 <=? n) && (n <=? 90))
  || ((97 <=? n) && (n <=? 122))
  || mem_char c "!#$%&'*+-.^_`|~".

Fixpoint all_tchar (s : string) : bool :=
  match s with
  | EmptyString => true
  | String c s' => is_tchar c && all_tchar s'
  end.

Definition valid_name (s : string) : bool := truthy_string s && all_tchar s.

(** HTTP white space: TAB, LF, CR, SP. *)
Definition is_http_ws (c : ascii) : bool :=
  let n := code c in (n =? 9) || (n =? 10) || (n =? 13) || (n =? 32).

Fixpoint strip_http_start (s : string) : string :=
  match s with
  | EmptyString => EmptyString
  | String c s' => if is_http_ws c then strip_http_start s' else s
  end.

Fixpoint strip_http_end (s : string) : string :=
  match s with
  | EmptyString => EmptyString
  | String c s' =>
      match strip_http_end s' with
      | EmptyString =>
          if is_http_ws c then EmptyString else String c EmptyString
      | t => String c t
      end
  end.

(** Normalising a header value strips HTTP white space at both ends. *)
Definition normalize_value (s : string) : string :=
  strip_http_end (strip_http_start s).

(** A header value holds no NUL, LF or CR. *)
Fixpoint valid_value (s : string) : bool :=
  match s with
  | EmptyString => true
  | String c s' =>
      let n := code c in
      negb ((n =? 0) || (n =? 10) || (n =? 13)) && valid_value s'
  end.

(** A header list: names in lower case, one entry per name. *)
Definition Headers := list (string * string).

Fixpoint Headers_get (h : Headers) (name : string) : option string :=
  match h with
  | [] => None
  | (n, v) :: h' =>
      if String.eqb (lowercase name) n then Some v else Headers_get h' name
  end.

Definition Headers_has (h : Headers) (name : string) : bool :=
  match Headers_get h name with
  | Some _ => true
  | None => false
  end.

Fixpoint replace_header (n v : string) (h : Headers) : Headers :=
  match h with
  | [] => [(n, v)]
  | (n', v') :: h' =>
      if String.eqb n n' then (n, v) :: h' else (n', v') :: replace_header n v h'
  end.

Fixpoint combine_header (n v : string) (h : Headers) : Headers :=
  match h with
  | [] => [(n, v)]
  | (n', v') :: h' =>
      if String.eqb n n' then (n, v' +:+ ", " +:+ v) :: h'
      else (n', v') :: combine_header n v h'
  end.

(** [headers.set(name, value)]: [None] stands for the TypeError thrown
    on an invalid name or value. *)
Definition Headers_set (h : Headers) (name value : string) : option Headers :=
  let v := normalize_value value in
  if valid_name name && valid_value v
  then Some (replace_header (lowercase name) v h)
  else None.

(** [headers.append(name, value)]: a second value for a name is joined
    to the first with a comma. *)
Definition Headers_append (h : Headers) (name value : string) : option Headers :=
  let v := normalize_value value in
  if valid_name name && valid_value v
  then Some (combine_header (lowercase name) v h)
  else None.

(** [new Headers(init)] for an object of name/value pairs: every pair
    is appended in turn. *)
Fixpoint Headers_fill (h : Headers) (init : list (string * string)) : option Headers :=
  match init with
  | [] => Some h
  | (n, v) :: init' =>
      match Headers_append h n v with
      | Some h' => Headers_fill h' init'
      | None => None
      end
  end.

Definition Headers_new (init : list (string * string)) : option Headers :=
  Headers_fill [] init.

End Js.

(** ** The browser: state, environment and computations *)

Module Browser.
Import Js.

(** The second argument of [fetch] and of [window.api]. *)
Record Init := mkInit {
  init_method : option string;
  init_headers : option (list (string * string));
  init_body : option Json
}.

(** [{}]: what [api(url)] gets as [init] by default. *)
Definition no_init : Init :=
  {| init_method := None; init_headers := None; init_body := None |}.

(** A request as it leaves [fetch]. *)
Record Request := mkRequest {
  req_url : string;
  req_method : option string;
  req_headers : Headers;
  req_body : option Json
}.

(** An allocation as the engine exposes it. *)
Record Allocation := mkAllocation {
  allocation_id : Z;
  vpc : string;
  primary_cidr : string;
  cgnat_cidr : string;
  usable_primary : Z;
  usable_cgnat : Z;
  requested_hosts : option Z;
  requested_prefix : option Z
}.

(** The bodies the engine's HTTP layer answers with.  [NotJson] is a
    body on which [response.json()] rejects, with the parser's message. *)
Inductive Body :=
| NotJson (syntax_error : string)
| ErrorBody (detail : option string)
| AllocationBody (a : Allocation)
| ListBody (items : list Allocation)
| PageBody (items : option (list Allocation)) (total_count : option Z)
| DeletedBody (deleted_count : Z).

Record Response := mkResponse {
  ok : bool;
  status : Z;
  statusText : string;
  body : Body
}.

(** [fetch] either rejects (network failure) or resolves to a response. *)
Inductive FetchResult :=
| NetworkError (message : string)
| Responded (r : Response).

(** What the page shows inside a container, up to the markup. *)
Inductive Html :=
| Blank
| NoAllocationsFound
| AllocationGrid (cards : list Allocation)
| ConnectionError (message : string)
| SummaryCards (vpcCount count : nat) (totalPrimaryIPs totalCgnatIPs : Z).

(** The properties of a DOM element that the scripts touch. *)
Record Element := mkElement {
  value : string;
  textContent : string;
  className : string;
  display : string;
  classList : list string;
  innerHTML : Html
}.

(** Interactions with the user, the network and the console, and the
    status messages shown, in the order they happen (newest first). *)
Inductive Event :=
| EvPrompt (message : string) (default_text : option string) (answer : option string)
| EvConfirm (message : string) (answer : bool)
| EvFetch (req : Request)
| EvStatus (message type : string)
| EvConsoleError (label message : string)
| EvTimeout (delay : Z) (result : Body).

(** The environment: what the user answers, what the network returns and
    what the random sources yield, each as a function of the history. *)
Record Env := mkEnv {
  prompt_answer : list Event -> string -> option string -> option string;
  confirm_answer : list Event -> string -> bool;
  fetch_answer : list Event -> Request -> FetchResult;
  crypto_randomUUID : list Event -> option string;
  time_and_random_id : list Event -> string
}.

(** The state of the page.  Every element id the scripts look up is
    taken to exist in the document. *)
Record World := mkWorld {
  localStorage : gmap string string;
  allocations : list Allocation;
  allocationMode : string;
  dom : string -> Element;
  focused : option string;
  trace : list Event
}.

Definition with_localStorage (f : gmap string string -> gmap string string) (w : World) : World :=
  mkWorld (f (localStorage w)) (allocations w) (allocationMode w) (dom w) (focused w) (trace w).

Definition with_allocations (l : list Allocation) (w : World) : World :=
  mkWorld (localStorage w) l (allocationMode w) (dom w) (focused w) (trace w).

Definition with_allocationMode (m : string) (w : World) : World :=
  mkWorld (localStorage w) (allocations w) m (dom w) (focused w) (trace w).

Definition with_element (id : string) (f : Element -> Element) (w : World) : World :=
  mkWorld (localStorage w) (allocations w) (allocationMode w)
          (fun i => if String.eqb i id then f (dom w i) else dom w i)
          (focused w) (trace w).

Definition with_focus (id : string) (w : World) : World :=
  mkWorld (localStorage w) (allocations w) (allocationMode w) (dom w) (Some id) (trace w).

Definition log (e : Event) (w : World) : World :=
  mkWorld (localStorage w) (allocations w) (allocationMode w) (dom w) (focused w) (e :: trace w).

(** An [Error] object: its message. *)
Inductive Error :=
| mkError (message : string).

Definition message_of (e : Error) : string :=
  match e with mkError m => m end.

(** How a computation ends: normally, by throwing (a rejected promise for
    an [async] function), or on an input the model does not cover.  The
    two scripts as modelled never end the third way. *)
Inductive Completion (A : Type) :=
| Normal (a : A)
| Throw (e : Error)
| Unmodelled.

Arguments Normal {A} a.
Arguments Throw {A} e.
Arguments Unmodelled {A}.

Definition M (A : Type) : Type := World -> Completion A * World.

Definition ret {A} (a : A) : M A := fun w => (Normal a, w).

Definition bind {A B} (m : M A) (k : A -> M B) : M B :=
  fun w =>
    match m w with
    | (Normal a, w') => k a w'
    | (Throw e, w') => (Throw e, w')
    | (Unmodelled, w') => (Unmodelled, w')
    end.

Definition throw {A} (e : Error) : M A := fun w => (Throw e, w).

Definition unmodelled {A} : M A := fun w => (Unmodelled, w).

Definition gets {A} (f : World -> A) : M A := fun w => (Normal (f w), w).

Definition modify (f : World -> World) : M unit := fun w => (Normal tt, f w).

(** [try { body } catch (error) { handler }] *)
Definition try_catch {A} (body : M A) (handler : Error -> M A) : M A :=
  fun w =>
    match body w with
    | (Throw e, w') => handler e w'
    | r => r
    end.

(** [try { body } finally { cleanup }] *)
Definition finally {A} (body : M A) (cleanup : M unit) : M A :=
  fun w =>
    match body w with
    | (Unmodelled, w') => (Unmodelled, w')
    | (c, w') =>
        match cleanup w' with
        | (Normal _, w'') => (c, w'')
        | (Throw e, w'') => (Throw e, w'')
        | (Unmodelled, w'') => (Unmodelled, w'')
        end
    end.

(** Lifting a platform call that throws a TypeError ([None]); the text
    of the message is the browser's. *)
Definition or_type_error {A} (o : option A) (msg : string) : M A :=
  match o with
  | Some a => ret a
  | None => throw (mkError msg)
  end.

Declare Scope js_scope.
Delimit Scope js_scope with js.
Notation "x <- c1 ;; c2" := (bind c1 (fun x => c2))
  (at level 100, c1 at next level, right associativity) : js_scope.
Notation "c1 ;; c2" := (bind c1 (fun _ => c2))
  (at level 100, right associativity) : js_scope.

Open Scope js_scope.

(** The double quote and the line feed, for message texts. *)
Definition dq : string := String (ascii_of_nat 34) EmptyString.
Definition nl : string := String (ascii_of_nat 10) EmptyString.

Section Primitives.
Variable env : Env.

(** [window.prompt(message, default)]: [None] is [null] (cancelled). *)
Definition window_prompt (message : string) (default_text : option string) : M (option string) :=
  fun w =>
    let a := prompt_answer env (trace w) message default_text in
    (Normal a, log (EvPrompt message default_text a) w).

(** [window.confirm(message)] *)
Definition window_confirm (message : string) : M bool :=
  fun w =>
    let a := confirm_answer env (trace w) message in
    (Normal a, log (EvConfirm message a) w).

(** [fetch(input, init)], the headers already built. *)
Definition fetch (req : Request) : M Response :=
  fun w =>
    match fetch_answer env (trace w) req with
    | NetworkError m => (Throw (mkError m), log (EvFetch req) w)
    | Responded r => (Normal r, log (EvFetch req) w)
    end.

End Primitives.

(** [console.error(label, error)] *)
Definition console_error (label : string) (e : Error) : M unit :=
  modify (log (EvConsoleError label (message_of e))).

(** [response.json()] *)
Definition response_json (r : Response) : M Body :=
  match body r with
  | NotJson m => throw (mkError m)
  | b => ret b
  end.

(** [document.getElementById(id).value] *)
Definition get_value (id : string) : M string :=
  gets (fun w => value (dom w id)).

Definition set_value (id v : string) : M unit :=
  modify (with_element id (fun e =>
    mkElement v (textContent e) (className e) (display e) (classList e) (innerHTML e))).

(** [element.style.display = d] *)
Definition set_display (id d : string) : M unit :=
  modify (with_element id (fun e =>
    mkElement (value e) (textContent e) (className e) d (classList e) (innerHTML e))).

Definition set_textContent (id t : string) : M unit :=
  modify (with_element id (fun e =>
    mkElement (value e) t (className e) (display e) (classList e) (innerHTML e))).

Definition set_className (id c : string) : M unit :=
  modify (with_element id (fun e =>
    mkElement (value e) (textContent e) c (display e) (classList e) (innerHTML e))).

Definition set_innerHTML (id : string) (h : Html) : M unit :=
  modify (with_element id (fun e =>
    mkElement (value e) (textContent e) (className e) (display e) (classList e) h)).

Definition set_classList (id : string) (f : list string -> list string) : M unit :=
  modify (with_element id (fun e =>
    mkElement (value e) (textContent e) (className e) (display e) (f (classList e)) (innerHTML e))).

Definition contains (c : string) (l : list string) : bool :=
  existsb (String.eqb c) l.

Definition remove_class (c : string) (l : list string) : list string :=
  List.filter (fun x => negb (String.eqb c x)) l.

Definition add_class (c : string) (l : list string) : list string :=
  if contains c l then l else l ++ [c].

Definition toggle_class (c : string) (l : list string) : list string :=
  if contains c l then remove_class c l else l ++ [c].

Definition classList_contains (id c : string) : M bool :=
  gets (fun w => contains c (classList (dom w id))).

(** [element.focus()] *)
Definition focus (id : string) : M unit := modify (with_focus id).

(** The trace of [w'] is the trace of [w] with new events in front, each
    of which satisfies [P]. *)
Definition grows_by (P : Event -> Prop) (w w' : World) : Prop :=
  exists evs, trace w' = evs ++ trace w /\ Forall P evs.

(** Whatever the world it runs in, the computation only adds events that
    satisfy [P]. *)
Definition emits {A} (P : Event -> Prop) (m : M A) : Prop :=
  forall w, grows_by P w (snd (m w)).

Definition is_prompt (e : Event) : bool :=
  match e with
  | EvPrompt _ _ _ => true
  | _ => false
  end.

Definition is_fetch (e : Event) : bool :=
  match e with
  | EvFetch _ => true
  | _ => false
  end.

(** Whatever the world it runs in, the computation takes it to a world
    related to it by [R]. *)
Definition relates {A} (R : World -> World -> Prop) (m : M A) : Prop :=
  forall w, R w (snd (m w)).

(** The computation always ends normally. *)
Definition completes {A} (m : M A) : Prop :=
  forall w, exists a, fst (m w) = Normal a.

(** The computation stays within the model. *)
Definition settles {A} (m : M A) : Prop :=
  forall w, fst (m w) <> Unmodelled.

(** The computation never throws (an [async] function that never
    rejects). *)
Definition catches {A} (m : M A) : Prop :=
  forall w e, fst (m w) <> Throw e.

(** A call of an [async] function whose promise is dropped: a rejection
    does not reach the caller. *)
Definition floating {A} (m : M A) : M unit :=
  fun w =>
    match m w with
    | (Normal _, w') => (Normal tt, w')
    | (Throw _, w') => (Normal tt, w')
    | (Unmodelled, w') => (Unmodelled, w')
    end.

(** Outside the elements named, the page is as it was, and so is the
    allocation mode. *)
Definition touches_only (ids : list string) (w w' : World) : Prop :=
  (forall id, existsb (String.eqb id) ids = false -> dom w' id = dom w id)
  /\ allocationMode w' = allocationMode w.

End Browser.

(** ** [static/auth.js] *)

Module Auth.
Import Js Browser.

Definition HEADER : string := "X-API-Key".
Definition REQ_ID : string := "X-Request-Id".
Definition STORAGE : string := "ipam_api_key".

Section WithEnv.
Variable env : Env.

(** [crypto?.randomUUID?.() || (Date.now().toString(36) + ...)] *)
Definition newReqId : M string :=
  gets (fun w =>
    match crypto_randomUUID env (trace w) with
    | Some u => if truthy_string u then u else time_and_random_id env (trace w)
    | None => time_and_random_id env (trace w)
    end).

(** [localStorage.getItem(STORAGE) || null] *)
Definition get : M (option string) :=
  gets (fun w =>
    match localStorage w !! STORAGE with
    | Some s => if truthy_string s then Some s else None
    | None => None
    end).

Definition clear : M unit :=
  modify (with_localStorage (delete STORAGE)).

(** [set(k)]: a falsy [k] clears the stored key. *)
Definition set (k : option string) : M (option string) :=
  match k with
  | Some s =>
      if negb (truthy_string s) then clear ;; ret None
      else modify (with_localStorage (insert STORAGE s)) ;; ret (Some s)
  | None => clear ;; ret None
  end.

Definition ensure : M string :=
  k <- get ;;
  match k with
  | Some k => ret k
  | None =>
      k <- window_prompt env "Enter API key" None ;;
      match k with
      | Some k =>
          if negb (truthy_string k) then throw (mkError "API key required")
          else set (Some k) ;; ret k
      | None => throw (mkError "API key required")
      end
  end.

Definition api (input : string) (init : Init) : M Response :=
  key <- ensure ;;
  headers <- or_type_error (Headers_new (default [] (init_headers init)))
                           "Invalid header" ;;
  headers <- (if negb (Headers_has headers "X-API-Key")
              then or_type_error (Headers_set headers "X-API-Key" key) "Invalid header"
              else ret headers) ;;
  headers <- (if negb (Headers_has headers REQ_ID)
              then id <- newReqId ;;
                   or_type_error (Headers_set headers REQ_ID id) "Invalid header"
              else ret headers) ;;
  fetch env (mkRequest input (init_method init) headers (init_body init)).

(** A sequence of calls of [window.api], one after the other, whatever
    each of them returns. *)
Definition api_calls (calls : list (string * Init)) (w : World) : World :=
  fold_left (fun w c => snd (api (fst c) (snd c) w)) calls w.

End WithEnv.

(** What a request that went through [api] carries, given the [init] the
    caller passed and the key [ensure] returned: both headers, the
    caller's own value for a header the caller set, the key as the
    credential otherwise. *)
Definition carries_credentials (init : Init) (key : string) (req : Request) : Prop :=
  exists h0,
    Headers_new (default [] (init_headers init)) = Some h0
    /\ is_Some (Headers_get (req_headers req) "X-API-Key")
    /\ is_Some (Headers_get (req_headers req) "X-Request-Id")
    /\ (forall v, Headers_get h0 "X-API-Key" = Some v ->
                  Headers_get (req_headers req) "X-API-Key" = Some v)
    /\ (forall v, Headers_get h0 "X-Request-Id" = Some v ->
                  Headers_get (req_headers req) "X-Request-Id" = Some v)
    /\ (Headers_get h0 "X-API-Key" = None ->
        Headers_get (req_headers req) "X-API-Key" = Some (normalize_value key)).

(** The key [k] is in localStorage. *)
Definition stored (k : string) (w : World) : Prop :=
  localStorage w !! STORAGE = Some k.

(** The prompt of [ensure]. *)
Definition asks_key (e : Event) : bool :=
  match e with
  | EvPrompt m _ _ => String.eqb m "Enter API key"
  | _ => false
  end.

(** With [k] stored before, localStorage is the same after and nobody was
    asked for a key in between. *)
Definition keeps_key (k : string) (w w' : World) : Prop :=
  stored k w ->
  localStorage w' = localStorage w
  /\ grows_by (fun e => asks_key e = false) w w'.

End Auth.

(** ** The dashboard script *)

Module Dashboard.
Import Js Browser.

(** [encodeURIComponent]: unreserved characters are kept, every other
    code unit is written as the percent-encoded bytes of its UTF-8 form. *)
Definition hex_digit (n : Z) : ascii :=
  ascii_of_nat (Z.to_nat (if n <? 10 then 48 + n else 55 + n)).

Definition percent (byte : Z) : string :=
  String "%" (String (hex_digit (byte / 16)) (String (hex_digit (byte mod 16)) EmptyString)).

Definition is_unreserved (c : ascii) : bool :=
  let n := code c in
  ((48 <=? n) && (n <=? 57)) || ((65 <=? n) && (n <=? 90))
  || ((97 <=? n) && (n <=? 122)) || mem_char c "-_.!~*'()".

Fixpoint encodeURIComponent (s : string) : string :=
  match s with
  | EmptyString => EmptyString
  | String c s' =>
      let n := code c in
      (if is_unreserved c then String c EmptyString
       else if n <? 128 then percent n
       else percent (192 + n / 64) +:+ percent (128 + n mod 64))
      +:+ encodeURIComponent s'
  end.

(** The characters that [encodeURIComponent] writes: the unreserved ones
    and the percent sign of an escape. *)
Definition url_safe (c : ascii) : bool :=
  is_unreserved c || Ascii.eqb c "%".

Fixpoint all_url_safe (s : string) : bool :=
  match s with
  | EmptyString => true
  | String c s' => url_safe c && all_url_safe s'
  end.

(** Reading back the first code unit of an encoded text (the inverse of
    one step of [encodeURIComponent]), with the text that follows it. *)
Definition decode_first (s : string) : option (ascii * string) :=
  match s with
  | EmptyString => None
  | String c rest =>
      if negb (Ascii.eqb c "%") then Some (c, rest)
      else
        match rest with
        | String x (String y rest) =>
            match digit_of 16 x, digit_of 16 y with
            | Some hx, Some hy =>
                let b := 16 * hx + hy in
                if b <? 128 then Some (ascii_of_nat (Z.to_nat b), rest)
                else
                  match rest with
                  | String p (String x' (String y' rest)) =>
                      match digit_of 16 x', digit_of 16 y' with
                      | Some hx', Some hy' =>
                          Some (ascii_of_nat
                                  (Z.to_nat ((b - 192) * 64 + (16 * hx' + hy' - 128))),
                                rest)
                      | _, _ => None
                      end
                  | _ => None
                  end
            | _, _ => None
            end
        | _ => None
        end
  end.

(** [errorData.detail || fallback] *)
Definition detail_or (errorData : Body) (fallback : string) : string :=
  match errorData with
  | ErrorBody (Some d) => if truthy_string d then d else fallback
  | _ => fallback
  end.

(** [Array.isArray(data) ? data : (data.items ?? [])] *)
Definition items_of (data : Body) : list Allocation :=
  match data with
  | ListBody items => items
  | PageBody (Some items) _ => items
  | _ => []
  end.

(** [!hostCount || hostCount < 1 || hostCount > 4000], the text compared
    as a number. *)
Definition host_count_rejected (hostCount : string) : bool :=
  negb (truthy_string hostCount)
  || lt_literal (StringToNumber hostCount) 1
  || gt_literal (StringToNumber hostCount) 4000.

Definition json_headers : option (list (string * string)) :=
  Some [("Content-Type", "application/json")].

Definition setStatus (message type : string) : M unit :=
  set_textContent "status" message ;;
  set_className "status" ("status " +:+ type) ;;
  modify (log (EvStatus message type)).

Definition showLoading (show : bool) : M unit :=
  if show then
    set_display "refresh-text" "none" ;;
    set_display "loading-spinner" "inline-block" ;;
    setStatus "Loading..." "loading"
  else
    set_display "refresh-text" "inline" ;;
    set_display "loading-spinner" "none".

Definition showCreateLoading (show : bool) : M unit :=
  if show then
    set_display "create-text" "none" ;;
    set_display "create-spinner" "inline-block"
  else
    set_display "create-text" "inline" ;;
    set_display "create-spinner" "none".

Definition setAllocationMode (mode : string) : M unit :=
  modify (with_allocationMode mode) ;;
  if strict_eq mode "hosts" then
    set_classList "hosts-mode" (add_class "active") ;;
    set_classList "prefix-mode" (remove_class "active") ;;
    set_display "hosts-input" "flex" ;;
    set_display "prefix-input" "none"
  else
    set_classList "prefix-mode" (add_class "active") ;;
    set_classList "hosts-mode" (remove_class "active") ;;
    set_display "prefix-input" "flex" ;;
    set_display "hosts-input" "none".

Definition toggleAllocationForm : M unit :=
  set_classList "allocation-form" (toggle_class "show") ;;
  shown <- classList_contains "allocation-form" "show" ;;
  if shown then focus "vpc-name"
  else
    set_value "vpc-name" EmptyString ;;
    set_value "host-count" EmptyString ;;
    set_value "prefix-length" EmptyString ;;
    setAllocationMode "hosts".

Definition renderSummary : M unit :=
  l <- gets allocations ;;
  if (length l =? 0)%nat then set_display "summary-stats" "none"
  else
    let vpcCount := size (list_to_set (map vpc l) : gset string) in
    let totalPrimaryIPs := fold_left (fun sum a => sum + usable_primary a) l 0 in
    let totalCgnatIPs := fold_left (fun sum a => sum + usable_cgnat a) l 0 in
    set_innerHTML "summary-stats"
      (SummaryCards vpcCount (length l) totalPrimaryIPs totalCgnatIPs) ;;
    set_display "summary-stats" "grid".

Definition renderAllocations : M unit :=
  l <- gets allocations ;;
  if (length l =? 0)%nat then set_innerHTML "allocations-container" NoAllocationsFound
  else set_innerHTML "allocations-container" (AllocationGrid l).

(** An event that is no request, or a request for the list of
    allocations. *)
Definition lists_only (e : Event) : Prop :=
  match e with
  | EvFetch req => req_url req = "/allocations"
  | _ => True
  end.

Section WithEnv.
Variable env : Env.

Definition loadAllocations : M unit :=
  showLoading true ;;
  finally
    (try_catch
       (response <- Auth.api env "/allocations" no_init ;;
        if negb (ok response) then
          throw (mkError ("HTTP " +:+ pretty (status response) +:+ ": "
                          +:+ statusText response))
        else
          data <- response_json response ;;
          modify (with_allocations (items_of data)) ;;
          renderAllocations ;;
          renderSummary ;;
          l <- gets allocations ;;
          setStatus ("Loaded " +:+ pretty (length l) +:+ " allocation"
                     +:+ (if negb (length l =? 1)%nat then "s" else EmptyString))
                    "success")
       (fun error =>
          console_error "Error loading allocations:" error ;;
          setStatus ("Error: " +:+ message_of error) "error" ;;
          set_innerHTML "allocations-container" (ConnectionError (message_of error))))
    (showLoading false).

Definition createAllocation : M unit :=
  v <- get_value "vpc-name" ;;
  let vpcName := trim v in
  hostCount <- get_value "host-count" ;;
  prefixLength <- get_value "prefix-length" ;;
  if negb (truthy_string vpcName) then
    setStatus "VPC name is required" "error" ;;
    focus "vpc-name"
  else
    mode <- gets allocationMode ;;
    valid <- (if strict_eq mode "hosts" then
                if host_count_rejected hostCount then
                  setStatus "Host count must be between 1 and 4000" "error" ;;
                  focus "host-count" ;;
                  ret false
                else ret true
              else if negb (truthy_string prefixLength) then
                setStatus "Please select a prefix length" "error" ;;
                focus "prefix-length" ;;
                ret false
              else ret true) ;;
    if negb valid then ret tt
    else
      showCreateLoading true ;;
      setStatus "Creating allocation..." "loading" ;;
      finally
        (try_catch
           (mode <- gets allocationMode ;;
            let payload := [("vpc", VStr vpcName)] in
            let payload :=
              if strict_eq mode "hosts"
              then set_prop "hosts" (VNum (parseInt hostCount)) payload
              else set_prop "prefix_length" (VNum (parseInt prefixLength)) payload in
            response <- Auth.api env "/allocate"
                          (mkInit (Some "POST") json_headers
                                  (Some (JSON_stringify payload))) ;;
            if negb (ok response) then
              errorData <- response_json response ;;
              throw (mkError (detail_or errorData
                                ("HTTP " +:+ pretty (status response))))
            else
              result <- response_json response ;;
              setStatus "Allocation created successfully!" "success" ;;
              toggleAllocationForm ;;
              loadAllocations ;;
              modify (log (EvTimeout 1000 result)))
           (fun error =>
              console_error "Error creating allocation:" error ;;
              setStatus ("Error: " +:+ message_of error) "error"))
        (showCreateLoading false).

Definition editAllocationVpc (allocationId : Z) (currentVpc : string) : M unit :=
  newVpcName <- window_prompt env "Move this allocation to which VPC?" (Some currentVpc) ;;
  match newVpcName with
  | None => ret tt
  | Some newVpcName =>
      if negb (truthy_string newVpcName)
         || strict_eq (trim newVpcName) EmptyString
         || strict_eq (trim newVpcName) currentVpc
      then ret tt
      else
        setStatus "Moving allocation to new VPC..." "loading" ;;
        try_catch
          (response <- Auth.api env ("/allocations/" +:+ pretty allocationId)
                         (mkInit (Some "PUT") json_headers
                            (Some (JSON_stringify
                                     [("new_vpc_name", VStr (trim newVpcName))]))) ;;
           if negb (ok response) then
             errorData <- response_json response ;;
             throw (mkError (detail_or errorData "Failed to move allocation"))
           else
             setStatus ("Allocation moved to VPC " +:+ dq +:+ trim newVpcName +:+ dq)
                       "success" ;;
             loadAllocations)
          (fun error =>
             console_error "Error moving allocation:" error ;;
             setStatus ("Error: " +:+ message_of error) "error")
  end.

Definition deleteAllocation (allocationId : Z) (primaryCidr : string) : M unit :=
  confirmed <- window_confirm env
    ("Are you sure you want to delete allocation " +:+ dq +:+ primaryCidr +:+ dq
     +:+ "?" +:+ nl +:+ nl +:+ "This action cannot be undone.") ;;
  if negb confirmed then ret tt
  else
    setStatus "Deleting allocation..." "loading" ;;
    try_catch
      (response <- Auth.api env ("/allocations/" +:+ pretty allocationId)
                     (mkInit (Some "DELETE") None None) ;;
       if negb (ok response) then
         errorData <- response_json response ;;
         throw (mkError (detail_or errorData "Failed to delete allocation"))
       else
         setStatus ("Allocation " +:+ dq +:+ primaryCidr +:+ dq +:+ " deleted") "success" ;;
         loadAllocations)
      (fun error =>
         console_error "Error deleting allocation:" error ;;
         setStatus ("Error: " +:+ message_of error) "error").

Definition deleteVpc (vpcName : string) : M unit :=
  l <- gets allocations ;;
  let vpcAllocations := List.filter (fun a => strict_eq (vpc a) vpcName) l in
  confirmed <- window_confirm env
    ("Are you sure you want to delete VPC " +:+ dq +:+ vpcName +:+ dq +:+ "?"
     +:+ nl +:+ nl +:+ "This will delete " +:+ pretty (length vpcAllocations)
     +:+ " allocation(s) for this VPC. This action cannot be undone.") ;;
  if negb confirmed then ret tt
  else
    setStatus "Deleting VPC..." "loading" ;;
    try_catch
      (response <- Auth.api env ("/vpcs/" +:+ encodeURIComponent vpcName)
                     (mkInit (Some "DELETE") None None) ;;
       if negb (ok response) then
         errorData <- response_json response ;;
         throw (mkError (detail_or errorData "Failed to delete VPC"))
       else
         setStatus ("VPC " +:+ dq +:+ vpcName +:+ dq +:+ " and "
                    +:+ pretty (length vpcAllocations) +:+ " allocation(s) deleted")
                   "success" ;;
         loadAllocations)
      (fun error =>
         console_error "Error deleting VPC:" error ;;
         setStatus ("Error: " +:+ message_of error) "error").

End WithEnv.

(** The blocks of [loadAllocations] and of [createAllocation] around
    their requests, by name: the statements of the [try] block that follow
    the request, and the [catch] block. *)
Section CreateBlocks.
Variable env : Env.

Definition loadAllocations_answered (response : Response) : M unit :=
  if negb (ok response) then
    throw (mkError ("HTTP " +:+ pretty (status response) +:+ ": "
                    +:+ statusText response))
  else
    data <- response_json response ;;
    modify (with_allocations (items_of data)) ;;
    renderAllocations ;;
    renderSummary ;;
    l <- gets allocations ;;
    setStatus ("Loaded " +:+ pretty (length l) +:+ " allocation"
               +:+ (if negb (length l =? 1)%nat then "s" else EmptyString))
              "success".

Definition loadAllocations_failed (error : Error) : M unit :=
  console_error "Error loading allocations:" error ;;
  setStatus ("Error: " +:+ message_of error) "error" ;;
  set_innerHTML "allocations-container" (ConnectionError (message_of error)).

(** The [try ... catch] of [loadAllocations]. *)
Definition loadAllocations_try : M unit :=
  try_catch
    (response <- Auth.api env "/allocations" no_init ;;
     loadAllocations_answered response)
    loadAllocations_failed.

Definition createAllocation_answered (response : Response) : M unit :=
  if negb (ok response) then
    errorData <- response_json response ;;
    throw (mkError (detail_or errorData
                      ("HTTP " +:+ pretty (status response))))
  else
    result <- response_json response ;;
    setStatus "Allocation created successfully!" "success" ;;
    toggleAllocationForm ;;
    loadAllocations env ;;
    modify (log (EvTimeout 1000 result)).

Definition createAllocation_failed (error : Error) : M unit :=
  console_error "Error creating allocation:" error ;;
  setStatus ("Error: " +:+ message_of error) "error".

(** The request of [createAllocation] for a payload, from the status
    line on. *)
Definition createAllocation_submit (payload : Json) : M unit :=
  showCreateLoading true ;;
  setStatus "Creating allocation..." "loading" ;;
  finally
    (try_catch
       (response <- Auth.api env "/allocate"
                      (mkInit (Some "POST") json_headers (Some payload)) ;;
        createAllocation_answered response)
       createAllocation_failed)
    (showCreateLoading false).

(** The [keydown] listener of the document: Enter submits the form when
    it is open, Escape closes it when it is open.  The result is whether
    the default action of the key was prevented. *)
Definition onKeydown (key : string) : M bool :=
  shown <- classList_contains "allocation-form" "show" ;;
  prevented <- (if strict_eq key "Enter" && shown
                then floating (createAllocation env) ;; ret true
                else ret false) ;;
  (if strict_eq key "Escape" then
     shown <- classList_contains "allocation-form" "show" ;;
     if shown then toggleAllocationForm else ret tt
   else ret tt) ;;
  ret prevented.

(** The [DOMContentLoaded] listener. *)
Definition onDOMContentLoaded : M unit := loadAllocations env.

End CreateBlocks.

(** The checks of [createAllocation] on the form, before anything is
    sent: the message and the field of the first check that fails, if
    one does. *)
Definition createAllocation_refusal (w : World) : option (string * string) :=
  let vpcName := trim (value (dom w "vpc-name")) in
  let hostCount := value (dom w "host-count") in
  let prefixLength := value (dom w "prefix-length") in
  if negb (truthy_string vpcName) then Some ("VPC name is required", "vpc-name")
  else if strict_eq (allocationMode w) "hosts" then
    if host_count_rejected hostCount
    then Some ("Host count must be between 1 and 4000", "host-count")
    else None
  else if negb (truthy_string prefixLength)
       then Some ("Please select a prefix length", "prefix-length")
       else None.

(** The body of the request of [createAllocation]: the object its [try]
    block builds from the form, serialised. *)
Definition createAllocation_payload (w : World) : Json :=
  let vpcName := trim (value (dom w "vpc-name")) in
  let hostCount := value (dom w "host-count") in
  let prefixLength := value (dom w "prefix-length") in
  let payload := [("vpc", VStr vpcName)] in
  JSON_stringify
    (if strict_eq (allocationMode w) "hosts"
     then set_prop "hosts" (VNum (parseInt hostCount)) payload
     else set_prop "prefix_length" (VNum (parseInt prefixLength)) payload).

(** How a request of the handlers that move and delete fails: [api]
    throws, or the answer is not a success, and then the error carries
    [errorData.detail || fallback], or the parser's message when the body
    is not JSON. *)
Definition mutation_error (fallback : string) (outcome : Completion Response)
           (e : Error) : Prop :=
  outcome = Throw e
  \/ exists r,
       outcome = Normal r
       /\ ok r = false
       /\ e = match body r with
              | NotJson m => mkError m
              | b => mkError (detail_or b fallback)
              end.

(** The [catch] block of these handlers, run from [w]: the error is
    logged and shown. *)
Definition shows_error (label : string) (e : Error) (w : World) : World :=
  snd (setStatus ("Error: " +:+ message_of e) "error"
         (snd (console_error label e w))).

(** The elements that a submission writes to when it fails. *)
Definition create_elements : list string :=
  ["status"; "create-text"; "create-spinner"].

(** The elements that loading the list writes to. *)
Definition load_elements : list string :=
  ["status"; "refresh-text"; "loading-spinner"; "allocations-container";
   "summary-stats"].

End Dashboard.

(** ** Sample pages and environments *)

Module Samples.
Import Js Browser.

Definition blank : Element :=
  mkElement EmptyString EmptyString EmptyString EmptyString [] Blank.

Definition field (text : string) : Element :=
  mkElement text EmptyString EmptyString EmptyString [] Blank.

(** A page whose creation form holds the given texts. *)
Definition page (vpc_name host_count prefix_length : string) : string -> Element :=
  fun id =>
    if String.eqb id "vpc-name" then field vpc_name
    else if String.eqb id "host-count" then field host_count
    else if String.eqb id "prefix-length" then field prefix_length
    else blank.

(** A freshly loaded page in host-count mode, nothing stored, the form
    filled in. *)
Definition world (vpc_name host_count : string) : World :=
  mkWorld ∅ [] "hosts" (page vpc_name host_count EmptyString) None [].

(** The same page with an API key in localStorage. *)
Definition world_with_key (key vpc_name host_count : string) : World :=
  mkWorld {[ "ipam_api_key" := key ]} [] "hosts"
          (page vpc_name host_count EmptyString) None [].

(** A user who answers every prompt with [answer] and confirms every
    question, and a server that answers every request with [r]. *)
Definition env (answer : option string) (r : Response) : Env :=
  mkEnv (fun _ _ _ => answer) (fun _ _ => true) (fun _ _ => Responded r)
        (fun _ => Some "0b9f2a1c-uuid") (fun _ => "lx2k9f3a7c1d").

Definition deleted (n : Z) : Response :=
  mkResponse true 200 "OK" (DeletedBody n).

(** A user who cancels every prompt and declines every question. *)
Definition cautious (r : Response) : Env :=
  mkEnv (fun _ _ _ => None) (fun _ _ => false) (fun _ _ => Responded r)
        (fun _ => None) (fun _ => "lx2k9f3a7c1d").

(** The page in prefix mode, with a prefix length chosen. *)
Definition world_prefix (key vpc_name prefix_length : string) : World :=
  mkWorld {[ "ipam_api_key" := key ]} [] "prefix"
          (page vpc_name EmptyString prefix_length) None [].

(** One allocation, as the engine lists it. *)
Definition allocation (id : Z) (vpc_name : string) : Allocation :=
  mkAllocation id vpc_name "10.0.0.0/25" "100.64.0.0/20" 123 4091 (Some 100) None.

Definition listing (items : list Allocation) : Response :=
  mkResponse true 200 "OK" (ListBody items).

Definition refused (code : Z) (detail : option string) : Response :=
  mkResponse false code "Conflict" (ErrorBody detail).

(** The page with the creation form open. *)
Definition world_open (key vpc_name host_count : string) : World :=
  mkWorld {[ "ipam_api_key" := key ]} [] "hosts"
          (fun id =>
             if String.eqb id "allocation-form"
             then mkElement EmptyString EmptyString EmptyString EmptyString
                            ["show"] Blank
             else page vpc_name host_count EmptyString id)
          None [].

End Samples.

(** ** The allocation engine *)

Module Engine.

(** The engine (SizingResolver, AddressSpaceAllocator, PairingCoordinator,
    AllocationLedger) is referenced by the dashboard and the README, but
    its code is not among the sources.  Every definition of this module
    that describes its behaviour is modelled from the specification
    (sections 3 and 4) and says so. *)

(** Modelled from the spec: the error taxonomy of the engine (section 7);
    the engine's implementation is absent from the sources. *)
Inductive EngineError :=
| HostCountOutOfRange
| PrefixOutOfRange
| PoolExhausted
| VpcNotFound
| AllocationNotFound
| InvalidRelease.

(** Modelled from the spec: an operation of the engine returns a value or
    fails with one of the errors of section 7. *)
Inductive Result (A : Type) :=
| Ok (a : A)
| Err (e : EngineError).

Arguments Ok {A} a.
Arguments Err {A} e.

(** *** SizingResolver *)

(** Modelled from the spec: usable IPs of a block of prefix length [p],
    [2^(32-p) - 5] (section 3, policy reserve). *)
Definition usable_ips (p : Z) : Z := 2 ^ (32 - p) - 5.

(** Modelled from the spec: a row of the sizing table of section 4.1
    (the same table is in the repository's README). *)
Record SizingRow := mkRow {
  hosts_from : Z;
  hosts_to : Z;
  row_prefix : Z;
  row_usable : Z;
  row_cgnat : Z
}.

(** Modelled from the spec: the sizing table of section 4.1. *)
Definition sizing_table : list SizingRow :=
  [ mkRow 1 59 26 59 21;
    mkRow 60 123 25 123 20;
    mkRow 124 251 24 251 19;
    mkRow 252 507 23 507 18;
    mkRow 508 1019 22 1019 17;
    mkRow 1020 2043 21 2043 16;
    mkRow 2044 4091 20 4091 15 ].

(** The host count falls in the hosts range of the row. *)
Definition in_row (h : Z) (r : SizingRow) : bool :=
  (hosts_from r <=? h) && (h <=? hosts_to r).

(** Modelled from the spec: host-count mode of SizingResolver, by table
    lookup; [HostCountOutOfRange] when no row holds the host count. *)
Definition resolve_hosts (h : Z) : Result Z :=
  match List.find (in_row h) sizing_table with
  | Some r => Ok (row_prefix r)
  | None => Err HostCountOutOfRange
  end.

(** The sentence of section 4.1 read word for word, kept apart from the
    table for comparison: the smallest prefix length in [[20, 26]] whose
    usable-IP count is at least the requested host count. *)
Definition smallest_prefix_with_capacity (h : Z) : option Z :=
  List.find (fun p => h <=? usable_ips p) [20; 21; 22; 23; 24; 25; 26].

(** [p] is the least prefix length of [[20, 26]] that holds [h] hosts. *)
Definition smallest_fit (h p : Z) : Prop :=
  20 <= p <= 26 /\ h <= usable_ips p
  /\ forall q, 20 <= q <= 26 -> h <= usable_ips q -> p <= q.

(** [p] is the greatest prefix length of [[20, 26]] that holds [h]
    hosts: the smallest block that does. *)
Definition largest_fit (h p : Z) : Prop :=
  20 <= p <= 26 /\ h <= usable_ips p
  /\ forall q, 20 <= q <= 26 -> h <= usable_ips q -> q <= p.

(** Clamping [x] into [[lo, hi]]. *)
Definition clamp (lo hi x : Z) : Z := Z.max lo (Z.min hi x).

(** Modelled from the spec: the paired CGNAT prefix, [primary - 5]
    clamped into [[15, 21]] (section 4.1). *)
Definition cgnat_prefix (p : Z) : Z := clamp 15 21 (p - 5).

(** Modelled from the spec: explicit-prefix mode of SizingResolver. *)
Definition resolve_prefix (p : Z) : Result Z :=
  if (20 <=? p) && (p <=? 26) then Ok p else Err PrefixOutOfRange.

(** Modelled from the spec: a sizing request, by host count or by
    explicit prefix length (section 4.1). *)
Inductive SizingRequest :=
| ByHosts (hosts : Z)
| ByPrefix (prefix_length : Z).

(** Modelled from the spec: SizingResolver, from a request to the
    primary and the CGNAT prefix lengths. *)
Definition SizingResolver (req : SizingRequest) : Result (Z * Z) :=
  match (match req with
         | ByHosts h => resolve_hosts h
         | ByPrefix p => resolve_prefix p
         end) with
  | Ok p => Ok (p, cgnat_prefix p)
  | Err e => Err e
  end.

(** *** AddressSpaceAllocator *)

(** Modelled from the spec: an AddressBlock, base address and prefix
    length (section 3). *)
Record Block := mkBlock {
  base : Z;
  prefix : Z
}.

#[global] Instance Block_eq_dec : EqDecision Block.
Proof. solve_decision. Defined.

#[global] Instance Block_countable : Countable Block.
Proof.
  refine (inj_countable' (fun b => (base b, prefix b))
                         (fun p => mkBlock (fst p) (snd p)) _).
  intros []; reflexivity.
Defined.

(** Modelled from the spec: the size of a block of prefix length [p],
    [2^(32-p)] addresses (glossary). *)
Definition block_size (p : Z) : Z := 2 ^ (32 - p).

(** The first address after the block. *)
Definition block_end (b : Block) : Z := base b + block_size (prefix b).

(** Modelled from the spec: two blocks overlap when their address ranges
    intersect (section 3). *)
Definition overlap (a b : Block) : bool :=
  (base a <? block_end b) && (base b <? block_end a).

(** The range of [a] lies within the range of [b]. *)
Definition within (a b : Block) : Prop :=
  base b <= base a /\ block_end a <= block_end b.

(** Modelled from the spec: a Pool, its base, its prefix length and the
    range of block prefix lengths it hands out (section 3). *)
Record Pool := mkPool {
  pool_base : Z;
  pool_prefix : Z;
  min_block_prefix : Z;
  max_block_prefix : Z
}.

(** Modelled from the spec: the Primary pool, 10.0.0.0/16, blocks /20 to
    /26 (section 3). *)
Definition primary_pool : Pool := mkPool (10 * 2 ^ 24) 16 20 26.

(** Modelled from the spec: the CGNAT pool, 100.64.0.0/10, blocks /15 to
    /21 (section 3). *)
Definition cgnat_pool : Pool := mkPool (100 * 2 ^ 24 + 64 * 2 ^ 16) 10 15 21.

(** Modelled from the spec: the state of one AddressSpaceAllocator, the
    FreeSet and the blocks handed out (section 4.2). *)
Record Allocator := mkAllocator {
  pool : Pool;
  free : gset Block;
  allocated : gset Block
}.

(** The pool as one block. *)
Definition whole (p : Pool) : Block := mkBlock (pool_base p) (pool_prefix p).

(** Modelled from the spec: an allocator at startup, with nothing handed
    out: the FreeSet is the pool itself (its maximal-block decomposition,
    section 3). *)
Definition fresh_allocator (p : Pool) : Allocator :=
  mkAllocator p {[ whole p ]} ∅.

(** Modelled from the spec: best fit, address-ascending tie-break
    (section 4.2): [c] beats [a] when it is smaller, or as large and
    lower. *)
Definition better (c a : Block) : bool :=
  (prefix a <? prefix c) || ((prefix a =? prefix c) && (base c <? base a)).

(** The better of the choice so far and [c], when [c] is large enough. *)
Definition pick (p : Z) (c : Block) (acc : option Block) : option Block :=
  if prefix c <=? p then
    match acc with
    | None => Some c
    | Some a => if better c a then Some c else Some a
    end
  else acc.

(** Modelled from the spec: the smallest free block at least as large as
    a block of prefix length [p], lowest base first (section 4.2). *)
Definition best_fit (fs : gset Block) (p : Z) : option Block :=
  foldr (pick p) None (elements fs).

(** Modelled from the spec: the two blocks of prefix length [q + 1] that
    a block of prefix length [q] splits into (section 4.2). *)
Definition lower_half (b : Block) : Block :=
  mkBlock (base b) (prefix b + 1).

Definition upper_half (b : Block) : Block :=
  mkBlock (base b + block_size (prefix b + 1)) (prefix b + 1).

(** Modelled from the spec: the buddy split, [n] times: the lower half
    is split further, the upper halves are the unused siblings. *)
Fixpoint split_down (n : nat) (b : Block) : Block * list Block :=
  match n with
  | O => (b, [])
  | S n' =>
      let '(r, siblings) := split_down n' (lower_half b) in
      (r, upper_half b :: siblings)
  end.

(** Modelled from the spec: Reserve (section 4.2). *)
Definition Reserve (a : Allocator) (p : Z) : Result (Block * Allocator) :=
  if p <? pool_prefix (pool a) then Err PoolExhausted
  else
    match best_fit (free a) p with
    | None => Err PoolExhausted
    | Some b =>
        let '(r, siblings) := split_down (Z.to_nat (p - prefix b)) b in
        Ok (r, mkAllocator (pool a)
                 ((free a ∖ {[ b ]}) ∪ list_to_set siblings)
                 (allocated a ∪ {[ r ]}))
    end.

(** Modelled from the spec: the buddy of a block, by XOR of its base
    with its size (section 4.2). *)
Definition buddy (b : Block) : Block :=
  mkBlock (Z.lxor (base b) (block_size (prefix b))) (prefix b).

(** Modelled from the spec: the parent block that a block and its buddy
    merge into (section 4.2). *)
Definition parent (b : Block) : Block :=
  mkBlock (Z.min (base b) (base (buddy b))) (prefix b - 1).

(** Modelled from the spec: coalescing upward from [b], at most [levels]
    times (the levels left below the pool boundary). *)
Fixpoint coalesce (levels : nat) (fs : gset Block) (b : Block) : gset Block :=
  match levels with
  | O => fs
  | S n =>
      if bool_decide (buddy b ∈ fs)
      then coalesce n ((fs ∖ {[ b; buddy b ]}) ∪ {[ parent b ]}) (parent b)
      else fs
  end.

(** Modelled from the spec: Release (section 4.2); releasing a block
    that is not allocated is [InvalidRelease] and changes nothing. *)
Definition Release (a : Allocator) (b : Block) : Result Allocator :=
  if bool_decide (b ∈ allocated a) then
    Ok (mkAllocator (pool a)
          (coalesce (Z.to_nat (prefix b - pool_prefix (pool a)))
                    ({[ b ]} ∪ free a) b)
          (allocated a ∖ {[ b ]}))
  else Err InvalidRelease.

(** *** PairingCoordinator *)


(** Modelled from the spec: the two allocators the coordinator works
    on. *)
Record Pools := mkPools {
  primary_alloc : Allocator;
  cgnat_alloc : Allocator
}.

(** Both pools at startup. *)
Definition fresh_pools : Pools :=
  mkPools (fresh_allocator primary_pool) (fresh_allocator cgnat_pool).

(** Fresh primary pool, CGNAT pool with nothing left to hand out. *)
Definition cgnat_exhausted : Pools :=
  mkPools (fresh_allocator primary_pool)
          (mkAllocator cgnat_pool ∅ {[ whole cgnat_pool ]}).

(** Modelled from the spec: Allocate (section 4.3): primary first, then
    CGNAT; a CGNAT failure releases the primary block again. *)
Definition Allocate (ps : Pools) (req : SizingRequest) : Result (Block * Block) * Pools :=
  match SizingResolver req with
  | Err e => (Err e, ps)
  | Ok (pp, cp) =>
      match Reserve (primary_alloc ps) pp with
      | Err e => (Err e, ps)
      | Ok (pb, prim) =>
          match Reserve (cgnat_alloc ps) cp with
          | Ok (cb, cg) => (Ok (pb, cb), mkPools prim cg)
          | Err e =>
              match Release prim pb with
              | Ok prim' => (Err e, mkPools prim' (cgnat_alloc ps))
              | Err _ => (Err e, mkPools prim (cgnat_alloc ps))
              end
          end
      end
  end.

(** Modelled from the spec: Deallocate (section 4.3): release the
    primary block, then the CGNAT block. *)
Definition Deallocate (ps : Pools) (pb cb : Block) : Result unit * Pools :=
  match Release (primary_alloc ps) pb, Release (cgnat_alloc ps) cb with
  | Ok prim, Ok cg => (Ok tt, mkPools prim cg)
  | Ok prim, Err e => (Err e, mkPools prim (cgnat_alloc ps))
  | Err e, Ok cg => (Err e, mkPools (primary_alloc ps) cg)
  | Err e, Err _ => (Err e, ps)
  end.

(** *** AllocationLedger *)

(** Modelled from the spec: an Allocation row (section 3). *)
Record Allocation := mkAllocation {
  allocation_id : Z;
  vpc : string;
  primary_block : Block;
  cgnat_block : Block;
  request : SizingRequest;
  usable_primary : Z;
  usable_cgnat : Z;
  created_at : Z
}.

(** Modelled from the spec: the ledger, the pools, the allocation rows,
    the VPC registry and the next allocation id (sections 2 and 4.4). *)
Record Ledger := mkLedger {
  pools : Pools;
  rows : list Allocation;
  vpcs : list string;
  next_id : Z
}.

(** The ledger at startup. *)
Definition fresh_ledger : Ledger := mkLedger fresh_pools [] [] 1.

(** Modelled from the spec: the VPC registry, names created on first
    use (section 3). *)
Definition known_vpc (name : string) (l : list string) : bool :=
  existsb (String.eqb name) l.

Definition add_vpc (name : string) (l : list string) : list string :=
  if known_vpc name l then l else l ++ [name].

(** Modelled from the spec: Create (section 4.4). *)
Definition Create (l : Ledger) (vpc_name : string) (req : SizingRequest) (now : Z)
  : Result Allocation * Ledger :=
  match Allocate (pools l) req with
  | (Err e, ps) => (Err e, mkLedger ps (rows l) (vpcs l) (next_id l))
  | (Ok (pb, cb), ps) =>
      let row := mkAllocation (next_id l) vpc_name pb cb req
                   (usable_ips (prefix pb)) (usable_ips (prefix cb)) now in
      (Ok row, mkLedger ps (rows l ++ [row]) (add_vpc vpc_name (vpcs l)) (next_id l + 1))
  end.

(** Modelled from the spec: List (section 4.4). *)
Definition List (l : Ledger) : list Allocation := rows l.

Definition has_id (id : Z) (r : Allocation) : bool := allocation_id r =? id.

(** The row with its VPC reference changed, when it is the row meant. *)
Definition reparent (id : Z) (new_vpc : string) (r : Allocation) : Allocation :=
  if has_id id r
  then mkAllocation (allocation_id r) new_vpc (primary_block r) (cgnat_block r)
         (request r) (usable_primary r) (usable_cgnat r) (created_at r)
  else r.

(** Modelled from the spec: Move (section 4.4): only the VPC reference
    of the row changes. *)
Definition Move (l : Ledger) (id : Z) (new_vpc : string) : Result unit * Ledger :=
  if existsb (has_id id) (rows l) then
    (Ok tt, mkLedger (pools l) (map (reparent id new_vpc) (rows l))
              (add_vpc new_vpc (vpcs l)) (next_id l))
  else (Err AllocationNotFound, l).

(** The first row with the given id, and the rows without it. *)
Fixpoint take_row (id : Z) (rs : list Allocation) : option (Allocation * list Allocation) :=
  match rs with
  | [] => None
  | r :: rs' =>
      if has_id id r then Some (r, rs')
      else match take_row id rs' with
           | Some (x, rest) => Some (x, r :: rest)
           | None => None
           end
  end.

(** Modelled from the spec: Delete (section 4.4): the row goes and its
    blocks are deallocated. *)
Definition Delete (l : Ledger) (id : Z) : Result unit * Ledger :=
  match take_row id (rows l) with
  | None => (Err AllocationNotFound, l)
  | Some (r, rest) =>
      let '(res, ps) := Deallocate (pools l) (primary_block r) (cgnat_block r) in
      (res, mkLedger ps rest (vpcs l) (next_id l))
  end.

(** Modelled from the spec: DeleteVpc (section 4.4): every allocation of
    the VPC is deleted in turn, then the VPC; the result is the number
    of allocations deleted. *)
Definition DeleteVpc (l : Ledger) (name : string) : Result Z * Ledger :=
  if known_vpc name (vpcs l) then
    let owned := List.filter (fun r => String.eqb (vpc r) name) (rows l) in
    let l' := fold_left (fun acc r => snd (Delete acc (allocation_id r))) owned l in
    (Ok (Z.of_nat (length owned)),
     mkLedger (pools l') (rows l')
       (List.filter (fun v => negb (String.eqb name v)) (vpcs l')) (next_id l'))
  else (Err VpcNotFound, l).

(** Modelled from the spec: the public operations that change the
    ledger (section 6). *)
Inductive Op :=
| OpCreate (vpc_name : string) (req : SizingRequest) (now : Z)
| OpMove (id : Z) (new_vpc : string)
| OpDelete (id : Z)
| OpDeleteVpc (name : string).

(** The ledger after one operation, whatever it returned. *)
Definition step (l : Ledger) (op : Op) : Ledger :=
  match op with
  | OpCreate v req now => snd (Create l v req now)
  | OpMove id v => snd (Move l id v)
  | OpDelete id => snd (Delete l id)
  | OpDeleteVpc v => snd (DeleteVpc l v)
  end.

(** The ledger after a sequence of operations on fresh pools. *)
Definition run (ops : list Op) : Ledger := fold_left step ops fresh_ledger.

(** No two rows at different positions hold overlapping blocks. *)
Definition pairwise_disjoint (blocks : list Block) : Prop :=
  forall i j a b,
    i <> j -> blocks !! i = Some a -> blocks !! j = Some b -> overlap a b = false.

(** What keeps the blocks of the live allocations apart: the blocks held
    and the free blocks are no smaller than one address, the blocks held
    are pairwise disjoint, so are the free blocks, and no free block
    overlaps a block held. *)
Definition safe (a : Allocator) (held : list Block) : Prop :=
  (forall x, x ∈ held -> prefix x <= 32)
  /\ (forall f, f ∈ free a -> prefix f <= 32)
  /\ pairwise_disjoint held
  /\ (forall f g, f ∈ free a -> g ∈ free a -> f <> g -> overlap f g = false)
  /\ (forall x f, x ∈ held -> f ∈ free a -> overlap f x = false).

(** Both pools keep the blocks of the rows apart. *)
Definition ledger_safe (l : Ledger) : Prop :=
  safe (primary_alloc (pools l)) (map primary_block (rows l))
  /\ safe (cgnat_alloc (pools l)) (map cgnat_block (rows l)).

(** *** The FreeSet invariant of section 3, as a check *)

(** Modelled from the spec: a block is naturally aligned, its base a
    multiple of its size (section 3). *)
Definition aligned (b : Block) : bool :=
  base b mod block_size (prefix b) =? 0.

(** The block is no larger than the pool, no smaller than one address,
    and lies in the pool's range. *)
Definition inside (p : Pool) (b : Block) : bool :=
  (pool_prefix p <=? prefix b) && (prefix b <=? 32)
  && (pool_base p <=? base b)
  && (block_end b <=? pool_base p + block_size (pool_prefix p)).

(** The same block, or two blocks that do not overlap. *)
Definition apart (b c : Block) : bool :=
  bool_decide (b = c) || negb (overlap b c).

(** Modelled from the spec: the FreeSet as section 3 wants it, a
    disjoint, maximal-block decomposition.  Every free block is an aligned
    block of the pool; free blocks are disjoint from one another and from
    the allocated blocks; no free block below the pool boundary has its
    buddy free as well. *)
Definition well_formed (a : Allocator) : bool :=
  forallb (fun b => aligned b && inside (pool a) b) (elements (free a))
  && forallb (fun b => forallb (apart b) (elements (free a))
                       && forallb (fun c => negb (overlap b c))
                                  (elements (allocated a)))
             (elements (free a))
  && forallb (fun b => (prefix b =? pool_prefix (pool a))
                       || negb (bool_decide (buddy b ∈ free a)))
             (elements (free a)).

(** The same shape, kept by every operation: blocks free or handed out
    are aligned blocks of the pool, pairwise disjoint; none is both free
    and handed out; no free block below the pool boundary has its buddy
    free as well. *)
Definition tidy (a : Allocator) : Prop :=
  (forall b, b ∈ free a ∪ allocated a ->
             aligned b = true /\ inside (pool a) b = true)
  /\ (forall b c, b ∈ free a ∪ allocated a -> c ∈ free a ∪ allocated a ->
                 b <> c -> overlap b c = false)
  /\ (forall b, b ∈ free a -> b ∉ allocated a)
  /\ (forall b, b ∈ free a -> pool_prefix (pool a) < prefix b -> buddy b ∉ free a).

End Engine.

(* ===================================================================== *)
(** * Part II: properties                                                 *)
(* ===================================================================== *)

(** ** SizingResolver *)

Section Sizing.
Import Engine.

Lemma usable_ips_values :
  usable_ips 20 = 4091 /\ usable_ips 21 = 2043 /\ usable_ips 22 = 1019
  /\ usable_ips 23 = 507 /\ usable_ips 24 = 251 /\ usable_ips 25 = 123
  /\ usable_ips 26 = 59.
Proof. repeat split; reflexivity. Qed.

(** Within [[20, 26]] a prefix length is one of seven values. *)
Lemma prefix_cases (q : Z) :
  20 <= q <= 26 ->
  q = 20 \/ q = 21 \/ q = 22 \/ q = 23 \/ q = 24 \/ q = 25 \/ q = 26.
Proof. lia. Qed.

Lemma largest_fit_intro (h p : Z) :
  20 <= p <= 26 ->
  h <= usable_ips p ->
  (p < 26 -> usable_ips (p + 1) < h) ->
  largest_fit h p.
Proof.
  intros Hp Hle Hnext. split; [exact Hp|]. split; [exact Hle|].
  intros q Hq Hfit.
  destruct (Z_le_gt_dec q p) as [|Hgt]; [assumption|]. exfalso.
  assert (Hmono : usable_ips q <= usable_ips (p + 1)).
  { unfold usable_ips. apply Z.sub_le_mono_r.
    apply Z.pow_le_mono_r; lia. }
  lia.
Qed.

Lemma resolve_hosts_rows (h : Z) :
  1 <= h <= 4091 ->
  (h <= 59 /\ resolve_hosts h = Ok 26)
  \/ (60 <= h <= 123 /\ resolve_hosts h = Ok 25)
  \/ (124 <= h <= 251 /\ resolve_hosts h = Ok 24)
  \/ (252 <= h <= 507 /\ resolve_hosts h = Ok 23)
  \/ (508 <= h <= 1019 /\ resolve_hosts h = Ok 22)
  \/ (1020 <= h <= 2043 /\ resolve_hosts h = Ok 21)
  \/ (2044 <= h /\ resolve_hosts h = Ok 20).
Proof.
  intros Hh. unfold resolve_hosts, sizing_table, in_row; cbn [List.find hosts_from hosts_to row_prefix].
  repeat match goal with
         | |- context [ (?a <=? ?b) ] => destruct (Z.leb_spec a b); cbn [andb]
         end; try lia; auto 10.
Qed.

(** The resolver refuses a host count exactly when it is outside the
    table. *)
Lemma resolve_hosts_out_of_range (h : Z) :
  resolve_hosts h = Err HostCountOutOfRange <-> h < 1 \/ 4091 < h.
Proof.
  split.
  - intros E. destruct (Z_lt_ge_dec h 1) as [|H1]; [auto|].
    destruct (Z_lt_ge_dec 4091 h) as [|H2]; [auto|]. exfalso.
    destruct (resolve_hosts_rows h ltac:(lia))
      as [[_ E1]|[[_ E1]|[[_ E1]|[[_ E1]|[[_ E1]|[[_ E1]|[_ E1]]]]]]];
      rewrite E1 in E; discriminate.
  - intros H. unfold resolve_hosts, sizing_table, in_row;
      cbn [List.find hosts_from hosts_to row_prefix].
    repeat match goal with
           | |- context [ (?a <=? ?b) ] => destruct (Z.leb_spec a b); cbn [andb]
           end; try lia; reflexivity.
Qed.

(** C4, as stated, fails: for one host the table answers /26, while the
    least prefix length of [[20, 26]] with at least one usable address is
    /20. *)
Lemma sizing_not_smallest_prefix :
  exists p, resolve_hosts 1 = Ok p
            /\ smallest_prefix_with_capacity 1 <> Some p
            /\ ~ smallest_fit 1 p.
Proof.
  exists 26. split; [reflexivity|]. split; [discriminate|].
  intros (_ & _ & Hmin).
  specialize (Hmin 20). unfold usable_ips in Hmin. simpl in Hmin. lia.
Qed.

(** C4, amended: for every host count [h] of [[1, 4091]] the resolver
    answers the greatest prefix length [p] of [[20, 26]] (the smallest
    block) with [2^(32-p) - 5 >= h]; the answer is the prefix of the table
    row that holds [h], and in each of the seven rows the upper bound and
    the usable-IP count are [2^(32-p) - 5] for the row's prefix [p]. *)
Theorem sizing_resolves_largest_fit (h : Z) :
  1 <= h <= 4091 ->
  exists p,
    resolve_hosts h = Ok p
    /\ largest_fit h p
    /\ (exists r, In r sizing_table /\ hosts_from r <= h <= hosts_to r
                  /\ row_prefix r = p)
    /\ Forall (fun r => hosts_to r = usable_ips (row_prefix r)
                        /\ row_usable r = usable_ips (row_prefix r)
                        /\ 20 <= row_prefix r <= 26)
              sizing_table.
Proof.
  intros Hh.
  assert (Htable : Forall (fun r => hosts_to r = usable_ips (row_prefix r)
                                    /\ row_usable r = usable_ips (row_prefix r)
                                    /\ 20 <= row_prefix r <= 26) sizing_table).
  { unfold sizing_table. repeat constructor; simpl; lia. }
  destruct (resolve_hosts_rows h Hh)
    as [[H1 E]|[[H1 E]|[[H1 E]|[[H1 E]|[[H1 E]|[[H1 E]|[H1 E]]]]]]].
  - exists 26. split; [exact E|]. split.
    + apply largest_fit_intro; [lia| change (usable_ips 26) with 59; lia | lia].
    + split; [|exact Htable].
      exists (mkRow 1 59 26 59 21). simpl. intuition lia.
  - exists 25. split; [exact E|]. split.
    + apply largest_fit_intro;
        [lia| change (usable_ips 25) with 123; lia
            | intros _; change (usable_ips (25 + 1)) with 59; lia].
    + split; [|exact Htable].
      exists (mkRow 60 123 25 123 20). simpl. intuition lia.
  - exists 24. split; [exact E|]. split.
    + apply largest_fit_intro;
        [lia| change (usable_ips 24) with 251; lia
            | intros _; change (usable_ips (24 + 1)) with 123; lia].
    + split; [|exact Htable].
      exists (mkRow 124 251 24 251 19). simpl. intuition lia.
  - exists 23. split; [exact E|]. split.
    + apply largest_fit_intro;
        [lia| change (usable_ips 23) with 507; lia
            | intros _; change (usable_ips (23 + 1)) with 251; lia].
    + split; [|exact Htable].
      exists (mkRow 252 507 23 507 18). simpl. intuition lia.
  - exists 22. split; [exact E|]. split.
    + apply largest_fit_intro;
        [lia| change (usable_ips 22) with 1019; lia
            | intros _; change (usable_ips (22 + 1)) with 507; lia].
    + split; [|exact Htable].
      exists (mkRow 508 1019 22 1019 17). simpl. intuition lia.
  - exists 21. split; [exact E|]. split.
    + apply largest_fit_intro;
        [lia| change (usable_ips 21) with 2043; lia
            | intros _; change (usable_ips (21 + 1)) with 1019; lia].
    + split; [|exact Htable].
      exists (mkRow 1020 2043 21 2043 16). simpl. intuition lia.
  - exists 20. split; [exact E|]. split.
    + apply largest_fit_intro;
        [lia| change (usable_ips 20) with 4091; lia
            | intros _; change (usable_ips (20 + 1)) with 2043; lia].
    + split; [|exact Htable].
      exists (mkRow 2044 4091 20 4091 15). simpl. intuition lia.
Qed.

Lemma sizing_resolves_largest_fit_witness :
  exists p, resolve_hosts 60 = Ok p /\ largest_fit 60 p.
Proof.
  destruct (sizing_resolves_largest_fit 60 ltac:(lia)) as (p & E & L & _).
  exists p. split; assumption.
Defined.

(** C5: for a primary prefix length [p] of [[20, 26]] the paired CGNAT
    prefix is [p - 5], which lies in [[15, 21]] as it is: the clamp into
    [[15, 21]] leaves it unchanged, in explicit-prefix mode and in
    host-count mode alike. *)
Theorem cgnat_prefix_never_clamped (p : Z) :
  20 <= p <= 26 ->
  15 <= p - 5 <= 21
  /\ clamp 15 21 (p - 5) = p - 5
  /\ cgnat_prefix p = p - 5
  /\ SizingResolver (ByPrefix p) = Ok (p, p - 5).
Proof.
  intros Hp.
  assert (Hc : clamp 15 21 (p - 5) = p - 5) by (unfold clamp; lia).
  repeat split; try lia; try exact Hc.
  unfold SizingResolver, resolve_prefix, cgnat_prefix.
  destruct (Z.leb_spec 20 p); [|lia].
  destruct (Z.leb_spec p 26); [|lia].
  simpl. rewrite Hc. reflexivity.
Qed.

Lemma cgnat_prefix_never_clamped_witness :
  cgnat_prefix 20 = 20 - 5.
Proof.
  apply (cgnat_prefix_never_clamped 20). lia.
Defined.

End Sizing.

(** ** Traces of computations *)

Section Traces.
Import Js Browser.

Lemma grows_by_refl (P : Event -> Prop) (w : World) : grows_by P w w.
Proof. exists []. split; [reflexivity|constructor]. Qed.

Lemma grows_by_trans (P : Event -> Prop) (w1 w2 w3 : World) :
  grows_by P w1 w2 -> grows_by P w2 w3 -> grows_by P w1 w3.
Proof.
  intros (e1 & H1 & F1) (e2 & H2 & F2). exists (e2 ++ e1).
  rewrite H2, H1, app_assoc. split; [reflexivity|].
  apply Forall_app. split; assumption.
Qed.

Lemma grows_by_same (P : Event -> Prop) (w w' : World) :
  trace w' = trace w -> grows_by P w w'.
Proof. intros E. exists []. split; [exact E|constructor]. Qed.

Lemma grows_by_log (P : Event -> Prop) (e : Event) (w : World) :
  P e -> grows_by P w (log e w).
Proof. intros H. exists [e]. split; [reflexivity|]. repeat constructor. exact H. Qed.

Lemma grows_by_weaken (P Q : Event -> Prop) (w w' : World) :
  (forall e, P e -> Q e) -> grows_by P w w' -> grows_by Q w w'.
Proof.
  intros HPQ (evs & E & F). exists evs. split; [exact E|].
  eapply Forall_impl; eauto.
Qed.

(** An event of the later trace is new or was there before. *)
Lemma grows_by_elem (P : Event -> Prop) (w w' : World) (e : Event) :
  grows_by P w w' -> In e (trace w') -> P e \/ In e (trace w).
Proof.
  intros (evs & E & F) Hin. rewrite E in Hin.
  apply in_app_or in Hin. destruct Hin as [Hin|Hin]; [left|right; exact Hin].
  rewrite List.Forall_forall in F. apply F. exact Hin.
Qed.

Lemma emits_ret {A} (P : Event -> Prop) (a : A) : emits P (ret a).
Proof. intros w. apply grows_by_refl. Qed.

Lemma emits_throw {A} (P : Event -> Prop) (e : Error) : emits P (@throw A e).
Proof. intros w. apply grows_by_refl. Qed.

Lemma emits_unmodelled {A} (P : Event -> Prop) : emits P (@unmodelled A).
Proof. intros w. apply grows_by_refl. Qed.

Lemma emits_gets {A} (P : Event -> Prop) (f : World -> A) : emits P (gets f).
Proof. intros w. apply grows_by_refl. Qed.

Lemma emits_modify (P : Event -> Prop) (f : World -> World) :
  (forall w, trace (f w) = trace w) -> emits P (modify f).
Proof. intros H w. apply grows_by_same, H. Qed.

Lemma emits_log (P : Event -> Prop) (e : Event) :
  P e -> emits P (modify (log e)).
Proof. intros H w. apply grows_by_log, H. Qed.

Lemma emits_bind {A B} (P : Event -> Prop) (m : M A) (k : A -> M B) :
  emits P m -> (forall a, emits P (k a)) -> emits P (bind m k).
Proof.
  intros Hm Hk w. unfold bind. specialize (Hm w).
  destruct (m w) as [[a|e|] w']; simpl in *; try exact Hm.
  eapply grows_by_trans; [exact Hm|apply Hk].
Qed.

Lemma emits_try_catch {A} (P : Event -> Prop) (body : M A) (handler : Error -> M A) :
  emits P body -> (forall e, emits P (handler e)) -> emits P (try_catch body handler).
Proof.
  intros Hb Hh w. unfold try_catch. specialize (Hb w).
  destruct (body w) as [[a|e|] w']; simpl in *; try exact Hb.
  eapply grows_by_trans; [exact Hb|apply Hh].
Qed.

Lemma emits_finally {A} (P : Event -> Prop) (body : M A) (cleanup : M unit) :
  emits P body -> emits P cleanup -> emits P (finally body cleanup).
Proof.
  intros Hb Hc w. unfold finally. specialize (Hb w).
  destruct (body w) as [[a|e|] w']; simpl in *; try exact Hb;
    specialize (Hc w'); destruct (cleanup w') as [[[]|e'|] w'']; simpl in *;
    eapply grows_by_trans; eauto.
Qed.

Lemma bind_grows {A B} (P : Event -> Prop) (m : M A) (k : A -> M B) (w0 w : World) :
  grows_by P w0 (snd (m w)) -> (forall a, emits P (k a)) ->
  grows_by P w0 (snd (bind m k w)).
Proof.
  intros Hm Hk. unfold bind.
  destruct (m w) as [[a|e|] w']; simpl in *; try exact Hm.
  eapply grows_by_trans; [exact Hm|apply Hk].
Qed.

Lemma try_catch_grows {A} (P : Event -> Prop) (body : M A) (handler : Error -> M A)
      (w0 w : World) :
  grows_by P w0 (snd (body w)) -> (forall e, emits P (handler e)) ->
  grows_by P w0 (snd (try_catch body handler w)).
Proof.
  intros Hb Hh. unfold try_catch.
  destruct (body w) as [[a|e|] w']; simpl in *; try exact Hb.
  eapply grows_by_trans; [exact Hb|apply Hh].
Qed.

Lemma finally_grows {A} (P : Event -> Prop) (body : M A) (cleanup : M unit)
      (w0 w : World) :
  grows_by P w0 (snd (body w)) -> emits P cleanup ->
  grows_by P w0 (snd (finally body cleanup w)).
Proof.
  intros Hb Hc. unfold finally.
  destruct (body w) as [[a|e|] w']; simpl in *; try exact Hb;
    specialize (Hc w'); destruct (cleanup w') as [[[]|e'|] w'']; simpl in *;
    eapply grows_by_trans; eauto.
Qed.

Lemma emits_weaken {A} (P Q : Event -> Prop) (m : M A) :
  (forall e, P e -> Q e) -> emits P m -> emits Q m.
Proof. intros H Hm w. eapply grows_by_weaken; [exact H|apply Hm]. Qed.

Lemma emits_or_type_error {A} (P : Event -> Prop) (o : option A) (msg : string) :
  emits P (or_type_error o msg).
Proof. destruct o; [apply emits_ret|apply emits_throw]. Qed.

Lemma emits_console_error (P : Event -> Prop) (label : string) (e : Error) :
  P (EvConsoleError label (message_of e)) -> emits P (console_error label e).
Proof. intros H. apply emits_log, H. Qed.

Lemma emits_response_json (P : Event -> Prop) (r : Response) :
  emits P (response_json r).
Proof.
  unfold response_json. destruct (body r); first [apply emits_throw|apply emits_ret].
Qed.

Lemma emits_window_prompt (P : Event -> Prop) (env : Env) (m : string) (d : option string) :
  (forall a, P (EvPrompt m d a)) -> emits P (window_prompt env m d).
Proof. intros H w. apply grows_by_log, H. Qed.

Lemma emits_window_confirm (P : Event -> Prop) (env : Env) (m : string) :
  (forall a, P (EvConfirm m a)) -> emits P (window_confirm env m).
Proof. intros H w. apply grows_by_log, H. Qed.

Lemma emits_fetch (P : Event -> Prop) (env : Env) (req : Request) :
  P (EvFetch req) -> emits P (fetch env req).
Proof.
  intros H w. unfold fetch.
  destruct (fetch_answer env (trace w) req); apply grows_by_log, H.
Qed.

End Traces.

(** ** [static/auth.js] *)

Section AuthProperties.
Import Js Browser Auth.

Lemma Headers_get_replace_same (n v : string) (h : Headers) :
  Headers_get (replace_header (lowercase n) v h) n = Some v.
Proof.
  induction h as [|[n' v'] h IH]; simpl.
  - rewrite String.eqb_refl. reflexivity.
  - destruct (String.eqb (lowercase n) n') eqn:E; simpl.
    + rewrite String.eqb_refl. reflexivity.
    + rewrite E. exact IH.
Qed.

Lemma Headers_get_replace_other (n m v : string) (h : Headers) :
  lowercase m <> lowercase n ->
  Headers_get (replace_header (lowercase n) v h) m = Headers_get h m.
Proof.
  intros Hne. apply String.eqb_neq in Hne.
  induction h as [|[n' v'] h IH]; simpl.
  - rewrite Hne. reflexivity.
  - destruct (String.eqb (lowercase n) n') eqn:E; simpl.
    + apply String.eqb_eq in E. subst n'. rewrite Hne. reflexivity.
    + destruct (String.eqb (lowercase m) n'); [reflexivity|exact IH].
Qed.

Lemma Headers_set_get_same (h h' : Headers) (n v : string) :
  Headers_set h n v = Some h' -> Headers_get h' n = Some (normalize_value v).
Proof.
  unfold Headers_set. destruct (valid_name n && valid_value (normalize_value v)); [|discriminate].
  intros [= <-]. apply Headers_get_replace_same.
Qed.

Lemma Headers_set_get_other (h h' : Headers) (n m v : string) :
  lowercase m <> lowercase n ->
  Headers_set h n v = Some h' -> Headers_get h' m = Headers_get h m.
Proof.
  intros Hne. unfold Headers_set.
  destruct (valid_name n && valid_value (normalize_value v)); [|discriminate].
  intros [= <-]. apply Headers_get_replace_other, Hne.
Qed.

Lemma Headers_has_false (h : Headers) (n : string) :
  Headers_has h n = false -> Headers_get h n = None.
Proof. unfold Headers_has. destruct (Headers_get h n); [discriminate|reflexivity]. Qed.

Lemma Headers_has_true (h : Headers) (n : string) :
  Headers_has h n = true -> is_Some (Headers_get h n).
Proof. unfold Headers_has. destruct (Headers_get h n); [eauto|discriminate]. Qed.

(** The three ways [ensure] can go. *)
Lemma ensure_cases (env : Env) (w : World) :
  (exists k, localStorage w !! STORAGE = Some k /\ truthy_string k = true
             /\ ensure env w = (Normal k, w))
  \/ (fst (get w) = Normal None
      /\ let a := prompt_answer env (trace w) "Enter API key" None in
         let w1 := log (EvPrompt "Enter API key" None a) w in
         (truthy a = false
          /\ ensure env w = (Throw (mkError "API key required"), w1))
         \/ (exists k, a = Some k /\ truthy_string k = true
                       /\ ensure env w
                          = (Normal k, with_localStorage (insert STORAGE k) w1))).
Proof.
  unfold ensure, get, bind, gets, window_prompt. simpl.
  destruct (localStorage w !! STORAGE) as [s|] eqn:Hs.
  - destruct (truthy_string s) eqn:Ht.
    + left. exists s. auto.
    + right. split; [reflexivity|].
      destruct (prompt_answer env (trace w) "Enter API key" None) as [k|]; simpl.
      * destruct (truthy_string k) eqn:Hk; simpl; [right; exists k; auto|left; auto].
      * left; auto.
  - right. split; [reflexivity|].
    destruct (prompt_answer env (trace w) "Enter API key" None) as [k|]; simpl.
    + destruct (truthy_string k) eqn:Hk; simpl; [right; exists k; auto|left; auto].
    + left; auto.
Qed.

Lemma ensure_stored (env : Env) (w : World) (k : string) :
  localStorage w !! STORAGE = Some k ->
  truthy_string k = true ->
  ensure env w = (Normal k, w).
Proof.
  intros Hs Ht. unfold ensure, get, bind, gets. simpl. rewrite Hs, Ht. reflexivity.
Qed.

Lemma ensure_emits (env : Env) :
  emits (fun e => is_prompt e = true) (ensure env).
Proof.
  intros w. destruct (ensure_cases env w) as [(k & _ & _ & E)|[_ [[_ E]|(k & _ & _ & E)]]];
    rewrite E; simpl.
  - apply grows_by_refl.
  - apply grows_by_log. reflexivity.
  - apply (grows_by_log (fun e => is_prompt e = true)). reflexivity.
Qed.

Lemma bind_normal {A B} (m : M A) (k : A -> M B) (w w' : World) (a : A) :
  m w = (Normal a, w') -> bind m k w = k a w'.
Proof. intros E. unfold bind. rewrite E. reflexivity. Qed.

Lemma bind_throw {A B} (m : M A) (k : A -> M B) (w w' : World) (e : Error) :
  m w = (Throw e, w') -> bind m k w = (Throw e, w').
Proof. intros E. unfold bind. rewrite E. reflexivity. Qed.

Lemma bind_ret {A B} (a : A) (k : A -> M B) (w : World) :
  bind (ret a) k w = k a w.
Proof. reflexivity. Qed.

Lemma bind_gets {A B} (f : World -> A) (k : A -> M B) (w : World) :
  bind (gets f) k w = k (f w) w.
Proof. reflexivity. Qed.

Lemma bind_modify {B} (f : World -> World) (k : unit -> M B) (w : World) :
  bind (modify f) k w = k tt (f w).
Proof. reflexivity. Qed.

Lemma bind_window_prompt {B} (env : Env) (m : string) (d : option string)
      (k : option string -> M B) (w : World) :
  bind (window_prompt env m d) k w
  = k (prompt_answer env (trace w) m d)
      (log (EvPrompt m d (prompt_answer env (trace w) m d)) w).
Proof. reflexivity. Qed.

Lemma bind_window_confirm {B} (env : Env) (m : string) (k : bool -> M B) (w : World) :
  bind (window_confirm env m) k w
  = k (confirm_answer env (trace w) m)
      (log (EvConfirm m (confirm_answer env (trace w) m)) w).
Proof. reflexivity. Qed.

Lemma bind_bind {A B C} (m : M A) (k : A -> M B) (k' : B -> M C) (w : World) :
  bind (bind m k) k' w = bind m (fun a => bind (k a) k') w.
Proof. unfold bind. destruct (m w) as [[a|e|] w']; reflexivity. Qed.

(** Once [ensure] has returned the key, [api] either refuses the headers
    or hands a request to [fetch]. *)
Lemma api_after_ensure (env : Env) (input : string) (init : Init) (w w1 : World) (key : string) :
  ensure env w = (Normal key, w1) ->
  (exists e, api env input init w = (Throw e, w1))
  \/ (exists req,
         api env input init w = fetch env req w1
         /\ req_url req = input
         /\ req_method req = init_method init
         /\ req_body req = init_body init
         /\ carries_credentials init key req).
Proof.
  intros E. unfold api. rewrite (bind_normal _ _ _ _ _ E).
  destruct (Headers_new (default [] (init_headers init))) as [h0|] eqn:Hh0;
    cbn [or_type_error]; [rewrite bind_ret|left; eexists; reflexivity].
  assert (Hne : lowercase "X-API-Key" <> lowercase REQ_ID) by discriminate.
  assert (Hne' : lowercase REQ_ID <> lowercase "X-API-Key") by discriminate.
  destruct (Headers_has h0 "X-API-Key") eqn:Hkey; cbn [negb].
  - rewrite bind_ret.
    destruct (Headers_has h0 REQ_ID) eqn:Hreq; cbn [negb].
    + rewrite bind_ret. right. eexists. split; [reflexivity|].
      repeat (split; [reflexivity|]). exists h0. split; [exact Hh0|]. cbn [req_headers].
      split; [apply Headers_has_true, Hkey|].
      split; [apply Headers_has_true, Hreq|].
      split; [auto|]. split; [auto|].
      intros Hn. apply Headers_has_true in Hkey. rewrite Hn in Hkey.
      destruct Hkey; discriminate.
    + rewrite bind_bind. unfold newReqId. rewrite bind_gets.
      match goal with
      | |- context [ Headers_set h0 REQ_ID ?id ] =>
          destruct (Headers_set h0 REQ_ID id) as [h2|] eqn:Hh2
      end; cbn [or_type_error]; [rewrite bind_ret|left; eexists; reflexivity].
      right. eexists. split; [reflexivity|].
      repeat (split; [reflexivity|]). exists h0. split; [exact Hh0|]. cbn [req_headers].
      pose proof (Headers_set_get_same _ _ _ _ Hh2) as Hsame.
      pose proof (Headers_set_get_other _ _ _ "X-API-Key" _ Hne Hh2) as Hother.
      split; [rewrite Hother; apply Headers_has_true, Hkey|].
      split; [unfold REQ_ID in Hsame; rewrite Hsame; eauto|].
      split; [intros v Hv; rewrite Hother; exact Hv|].
      split.
      * intros v Hv. apply Headers_has_false in Hreq.
        unfold REQ_ID in Hreq. congruence.
      * intros Hn. apply Headers_has_true in Hkey. rewrite Hn in Hkey.
        destruct Hkey; discriminate.
  - destruct (Headers_set h0 "X-API-Key" key) as [h1|] eqn:Hh1;
      cbn [or_type_error]; [rewrite bind_ret|left; eexists; reflexivity].
    pose proof (Headers_set_get_same _ _ _ _ Hh1) as Hsame1.
    pose proof (Headers_set_get_other _ _ _ REQ_ID _ Hne' Hh1) as Hother1.
    apply Headers_has_false in Hkey.
    destruct (Headers_has h1 REQ_ID) eqn:Hreq; cbn [negb].
    + rewrite bind_ret. right. eexists. split; [reflexivity|].
      repeat (split; [reflexivity|]). exists h0. split; [exact Hh0|]. cbn [req_headers].
      split; [rewrite Hsame1; eauto|].
      split; [apply Headers_has_true, Hreq|].
      split; [intros v Hv; congruence|].
      split; [intros v Hv; unfold REQ_ID in Hother1; rewrite Hother1; exact Hv|].
      intros _. exact Hsame1.
    + rewrite bind_bind. unfold newReqId. rewrite bind_gets.
      match goal with
      | |- context [ Headers_set h1 REQ_ID ?id ] =>
          destruct (Headers_set h1 REQ_ID id) as [h2|] eqn:Hh2
      end; cbn [or_type_error]; [rewrite bind_ret|left; eexists; reflexivity].
      right. eexists. split; [reflexivity|].
      repeat (split; [reflexivity|]). exists h0. split; [exact Hh0|]. cbn [req_headers].
      pose proof (Headers_set_get_same _ _ _ _ Hh2) as Hsame.
      pose proof (Headers_set_get_other _ _ _ "X-API-Key" _ Hne Hh2) as Hother.
      apply Headers_has_false in Hreq.
      split; [rewrite Hother, Hsame1; eauto|].
      split; [unfold REQ_ID in Hsame; rewrite Hsame; eauto|].
      split; [intros v Hv; congruence|].
      split.
      * intros v Hv. unfold REQ_ID in Hother1, Hreq. congruence.
      * intros _. rewrite Hother. exact Hsame1.
Qed.

(** The three ways [api] can go: [ensure] throws; the headers are
    refused; the request is built and handed to [fetch]. *)
Lemma api_cases (env : Env) (input : string) (init : Init) (w : World) :
  (exists e w1, ensure env w = (Throw e, w1)
                /\ api env input init w = (Throw e, w1))
  \/ (exists key w1 e, ensure env w = (Normal key, w1)
                       /\ api env input init w = (Throw e, w1))
  \/ (exists key w1 req,
         ensure env w = (Normal key, w1)
         /\ api env input init w = fetch env req w1
         /\ req_url req = input
         /\ req_method req = init_method init
         /\ req_body req = init_body init
         /\ carries_credentials init key req).
Proof.
  destruct (ensure_cases env w) as [(k & _ & _ & E)|[_ [[_ E]|(k & _ & _ & E)]]].
  - destruct (api_after_ensure env input init _ _ _ E) as [[e He]|(req & He)].
    + right; left. eauto.
    + right; right. eauto 10.
  - left. do 2 eexists. split; [exact E|].
    unfold api. rewrite (bind_throw _ _ _ _ _ E). reflexivity.
  - destruct (api_after_ensure env input init _ _ _ E) as [[e He]|(req & He)].
    + right; left. eauto.
    + right; right. eauto 10.
Qed.

Lemma snd_fetch (env : Env) (req : Request) (w : World) :
  snd (fetch env req w) = log (EvFetch req) w.
Proof. unfold fetch. destruct (fetch_answer env (trace w) req); reflexivity. Qed.

(** What one call of [api] adds to the trace. *)
Lemma api_grows (env : Env) (input : string) (init : Init) (w : World) :
  grows_by (fun e =>
              match e with
              | EvFetch req =>
                  exists key, fst (ensure env w) = Normal key
                              /\ carries_credentials init key req
                              /\ req_url req = input
                              /\ req_method req = init_method init
                              /\ req_body req = init_body init
              | _ => is_prompt e = true
              end)
           w (snd (api env input init w)).
Proof.
  pose proof (ensure_emits env w) as Hens.
  assert (Hweak : forall e, is_prompt e = true ->
            match e with
            | EvFetch req =>
                exists key, fst (ensure env w) = Normal key
                            /\ carries_credentials init key req
                            /\ req_url req = input
                            /\ req_method req = init_method init
                            /\ req_body req = init_body init
            | _ => is_prompt e = true
            end).
  { intros [] H; try exact H; discriminate. }
  destruct (api_cases env input init w)
    as [(e & w1 & E & Ha)|[(key & w1 & e & E & Ha)|(key & w1 & req & E & Ha & Hu & Hm & Hb & Hc)]];
    rewrite Ha; rewrite E in Hens; simpl in Hens.
  - simpl. eapply grows_by_weaken; [exact Hweak|exact Hens].
  - simpl. eapply grows_by_weaken; [exact Hweak|exact Hens].
  - rewrite snd_fetch. eapply grows_by_trans.
    + eapply grows_by_weaken; [exact Hweak|exact Hens].
    + apply grows_by_log. exists key. rewrite E. auto.
Qed.

(** C7: every request that [window.api] hands to [fetch] carries an
    X-API-Key header and an X-Request-Id header; a value the caller gave
    for either header is the value sent, and without a caller's value the
    X-API-Key header holds the key that [ensure] returned.  Besides that
    one request, a call only ever prompts. *)
Theorem api_requests_carry_credentials (env : Env) (input : string) (init : Init) (w : World) :
  grows_by (fun e =>
              match e with
              | EvFetch req =>
                  exists key, fst (ensure env w) = Normal key
                              /\ carries_credentials init key req
              | _ => is_prompt e = true
              end)
           w (snd (api env input init w)).
Proof.
  eapply grows_by_weaken; [|apply api_grows].
  intros [] H; try exact H.
  destruct H as (key & Hk & Hc & _). exists key. auto.
Qed.

Lemma api_stored (env : Env) (input : string) (init : Init) (w : World) (k : string) :
  localStorage w !! STORAGE = Some k ->
  truthy_string k = true ->
  localStorage (snd (api env input init w)) = localStorage w
  /\ grows_by (fun e => is_prompt e = false) w (snd (api env input init w)).
Proof.
  intros Hs Ht. pose proof (ensure_stored env w k Hs Ht) as E.
  destruct (api_after_ensure env input init _ _ _ E) as [[e Ha]|(req & Ha & _)];
    rewrite Ha.
  - simpl. split; [reflexivity|apply grows_by_refl].
  - rewrite snd_fetch. split; [reflexivity|]. apply grows_by_log. reflexivity.
Qed.

Lemma api_calls_stored (env : Env) (calls : list (string * Init)) (w : World) (k : string) :
  localStorage w !! STORAGE = Some k ->
  truthy_string k = true ->
  localStorage (api_calls env calls w) !! STORAGE = Some k
  /\ grows_by (fun e => is_prompt e = false) w (api_calls env calls w).
Proof.
  revert w. induction calls as [|[input init] calls IH]; intros w Hs Ht.
  - simpl. split; [exact Hs|apply grows_by_refl].
  - unfold api_calls in *. cbn [fold_left fst snd].
    destruct (api_stored env input init w k Hs Ht) as [Hl Hg].
    destruct (IH (snd (api env input init w))) as [Hl' Hg'].
    + rewrite Hl. exact Hs.
    + exact Ht.
    + split; [exact Hl'|]. eapply grows_by_trans; eauto.
Qed.

(** C8: with no API key stored, a call of [window.api] prompts for one.
    If the user gives none, [ensure] throws "API key required", so does
    [api], and no request is made.  If the user gives a key, it is written
    to localStorage, and from then on every call of [api] gets that key
    from [ensure] without a prompt. *)
Theorem api_never_unauthenticated (env : Env) (input : string) (init : Init) (w : World) :
  fst (get w) = Normal None ->
  let a := prompt_answer env (trace w) "Enter API key" None in
  let w1 := log (EvPrompt "Enter API key" None a) w in
  (truthy a = false ->
     ensure env w = (Throw (mkError "API key required"), w1)
     /\ api env input init w = (Throw (mkError "API key required"), w1)
     /\ grows_by (fun e => is_fetch e = false) w (snd (api env input init w)))
  /\ (forall k, a = Some k -> truthy_string k = true ->
        ensure env w = (Normal k, with_localStorage (insert STORAGE k) w1)
        /\ localStorage (snd (api env input init w)) !! STORAGE = Some k
        /\ forall env' calls,
             let w' := api_calls env' calls (snd (api env input init w)) in
             localStorage w' !! STORAGE = Some k
             /\ ensure env' w' = (Normal k, w')
             /\ grows_by (fun e => is_prompt e = false)
                         (snd (api env input init w)) w').
Proof.
  intros Hget a w1.
  assert (Hnone : forall k, localStorage w !! STORAGE = Some k -> truthy_string k = false).
  { intros k Hk. unfold get, gets in Hget. simpl in Hget. rewrite Hk in Hget.
    destruct (truthy_string k); [discriminate|reflexivity]. }
  destruct (ensure_cases env w) as [(k & Hk & Ht & _)|[_ Hcases]].
  { rewrite (Hnone k Hk) in Ht. discriminate. }
  fold a in Hcases. fold w1 in Hcases. split.
  - intros Ha. destruct Hcases as [[_ E]|(k & Hk & Ht & _)].
    + split; [exact E|].
      assert (Hapi : api env input init w = (Throw (mkError "API key required"), w1)).
      { unfold api. rewrite (bind_throw _ _ _ _ _ E). reflexivity. }
      split; [exact Hapi|]. rewrite Hapi. simpl.
      apply (grows_by_log (fun e => is_fetch e = false)). reflexivity.
    + rewrite Hk in Ha. simpl in Ha. congruence.
  - intros k Hk Ht. destruct Hcases as [[Ha _]|(k' & Hk' & _ & E)].
    { rewrite Hk in Ha. simpl in Ha. congruence. }
    assert (k' = k) by congruence. subst k'.
    split; [exact E|].
    assert (Hst : localStorage (snd (api env input init w)) !! STORAGE = Some k).
    { destruct (api_after_ensure env input init _ _ _ E) as [[e Ha]|(req & Ha & _)];
        rewrite Ha; [simpl|rewrite snd_fetch; simpl]; apply lookup_insert_eq. }
    split; [exact Hst|].
    intros env' calls w'.
    destruct (api_calls_stored env' calls _ k Hst Ht) as [Hl Hg].
    split; [exact Hl|]. split; [|exact Hg].
    apply ensure_stored; assumption.
Qed.

Lemma api_never_unauthenticated_witness :
  ensure (Samples.env None (Samples.deleted 0)) (Samples.world "prod" "100")
  = (Throw (mkError "API key required"),
     log (EvPrompt "Enter API key" None None) (Samples.world "prod" "100")).
Proof.
  apply (api_never_unauthenticated (Samples.env None (Samples.deleted 0))
           "/allocations" no_init (Samples.world "prod" "100")).
  - reflexivity.
  - reflexivity.
Defined.

End AuthProperties.

(** ** The dashboard script *)

Section DashboardProperties.
Import Js Browser Dashboard.

Lemma trimStart_all_white_space (s : string) :
  all_white_space s = true -> trimStart s = EmptyString.
Proof.
  induction s as [|c s IH]; simpl; [reflexivity|].
  destruct (is_white_space c); simpl; [exact IH|discriminate].
Qed.

Lemma trim_all_white_space (s : string) :
  all_white_space s = true -> trim s = EmptyString.
Proof. intros H. unfold trim. rewrite (trimStart_all_white_space s H). reflexivity. Qed.

(** *** What the helpers add to the trace *)

Section Quiet.
Variable P : Event -> Prop.
Hypothesis quiet : forall e, is_fetch e = false -> P e.

Lemma setStatus_emits (m t : string) : emits P (setStatus m t).
Proof.
  unfold setStatus, set_textContent, set_className.
  repeat (apply emits_bind; [apply emits_modify; reflexivity|intros _]).
  apply emits_log, quiet. reflexivity.
Qed.

Lemma set_display_emits (id d : string) : emits P (set_display id d).
Proof. apply emits_modify. reflexivity. Qed.

Lemma set_value_emits (id v : string) : emits P (set_value id v).
Proof. apply emits_modify. reflexivity. Qed.

Lemma set_innerHTML_emits (id : string) (h : Html) : emits P (set_innerHTML id h).
Proof. apply emits_modify. reflexivity. Qed.

Lemma set_classList_emits (id : string) (f : list string -> list string) :
  emits P (set_classList id f).
Proof. apply emits_modify. reflexivity. Qed.

Lemma focus_emits (id : string) : emits P (focus id).
Proof. apply emits_modify. reflexivity. Qed.

Lemma showLoading_emits (show : bool) : emits P (showLoading show).
Proof.
  destruct show; simpl;
    repeat (apply emits_bind; [apply set_display_emits|intros _]);
    first [apply setStatus_emits|apply set_display_emits].
Qed.

Lemma showCreateLoading_emits (show : bool) : emits P (showCreateLoading show).
Proof.
  destruct show; simpl;
    (apply emits_bind; [apply set_display_emits|intros _]); apply set_display_emits.
Qed.

Lemma setAllocationMode_emits (mode : string) : emits P (setAllocationMode mode).
Proof.
  unfold setAllocationMode.
  apply emits_bind; [apply emits_modify; reflexivity|intros _].
  destruct (strict_eq mode "hosts");
    repeat (apply emits_bind; [apply set_classList_emits|intros _]);
    (apply emits_bind; [apply set_display_emits|intros _]); apply set_display_emits.
Qed.

Lemma toggleAllocationForm_emits : emits P toggleAllocationForm.
Proof.
  unfold toggleAllocationForm.
  apply emits_bind; [apply set_classList_emits|intros _].
  apply emits_bind; [apply emits_gets|intros shown].
  destruct shown; [apply focus_emits|].
  repeat (apply emits_bind; [apply set_value_emits|intros _]).
  apply setAllocationMode_emits.
Qed.

Lemma renderSummary_emits : emits P renderSummary.
Proof.
  unfold renderSummary. apply emits_bind; [apply emits_gets|intros l].
  destruct (length l =? 0)%nat; [apply set_display_emits|].
  apply emits_bind; [apply set_innerHTML_emits|intros _]. apply set_display_emits.
Qed.

Lemma renderAllocations_emits : emits P renderAllocations.
Proof.
  unfold renderAllocations. apply emits_bind; [apply emits_gets|intros l].
  destruct (length l =? 0)%nat; apply set_innerHTML_emits.
Qed.

Lemma console_error_emits (label : string) (e : Error) : emits P (console_error label e).
Proof. apply emits_log, quiet. reflexivity. Qed.

(** [api] adds its one request, if any, and possibly a prompt. *)
Lemma api_emits (env : Env) (input : string) (init : Init) :
  (forall req, req_url req = input -> req_method req = init_method init ->
               req_body req = init_body init -> P (EvFetch req)) ->
  emits P (Auth.api env input init).
Proof.
  intros Hreq w.
  eapply grows_by_weaken; [|apply api_grows].
  intros [] H; try (apply quiet; reflexivity).
  destruct H as (key & _ & _ & Hurl & Hm & Hb). apply Hreq; assumption.
Qed.

Lemma loadAllocations_emits (env : Env) :
  (forall req, req_url req = "/allocations" -> P (EvFetch req)) ->
  emits P (loadAllocations env).
Proof.
  intros Hreq. unfold loadAllocations.
  apply emits_bind; [apply showLoading_emits|intros _].
  apply emits_finally; [|apply showLoading_emits].
  apply emits_try_catch.
  - apply emits_bind; [apply api_emits; intros req Hu _ _; apply Hreq, Hu|intros response].
    destruct (negb (ok response)); [apply emits_throw|].
    apply emits_bind; [apply emits_response_json|intros data].
    apply emits_bind; [apply emits_modify; reflexivity|intros _].
    apply emits_bind; [apply renderAllocations_emits|intros _].
    apply emits_bind; [apply renderSummary_emits|intros _].
    apply emits_bind; [apply emits_gets|intros l].
    apply setStatus_emits.
  - intros e.
    apply emits_bind; [apply console_error_emits|intros _].
    apply emits_bind; [apply setStatus_emits|intros _].
    apply set_innerHTML_emits.
Qed.

End Quiet.

Lemma lists_only_quiet (e : Event) : is_fetch e = false -> lists_only e.
Proof. destruct e; simpl; intros; try exact I; discriminate. Qed.

Lemma bind_unit {B} (m : M unit) (k : unit -> M B) (w : World) :
  fst (m w) = Normal tt -> bind m k w = k tt (snd (m w)).
Proof. unfold bind. destruct (m w) as [[[]|e|] w1]; simpl; intros E; congruence. Qed.

Lemma finally_ext {A} (body body1 : M A) (cleanup : M unit) (w : World) :
  body w = body1 w -> finally body cleanup w = finally body1 cleanup w.
Proof. intros E. unfold finally. rewrite E. reflexivity. Qed.

Lemma try_catch_ext {A} (body body1 : M A) (handler : Error -> M A) (w : World) :
  body w = body1 w -> try_catch body handler w = try_catch body1 handler w.
Proof. intros E. unfold try_catch. rewrite E. reflexivity. Qed.

(** [createAllocation], check by check: the first check that fails
    decides the message and the field that gets the focus; a form that
    passes is submitted with the payload built from it. *)
Lemma createAllocation_cases (env : Env) (w : World) :
  createAllocation env w
  = match createAllocation_refusal w with
    | Some (message, field) =>
        (Normal tt, snd (focus field (snd (setStatus message "error" w))))
    | None => createAllocation_submit env (createAllocation_payload w) w
    end.
Proof.
  unfold createAllocation, createAllocation_refusal, createAllocation_payload, get_value.
  rewrite !bind_gets. cbv zeta.
  destruct (negb (truthy_string (trim (value (dom w "vpc-name"))))) eqn:Hv;
    [reflexivity|].
  rewrite bind_gets.
  destruct (strict_eq (allocationMode w) "hosts") eqn:Hmode.
  - destruct (host_count_rejected (value (dom w "host-count"))); [reflexivity|].
    rewrite bind_ret. cbn [negb]. unfold createAllocation_submit.
    rewrite !bind_unit by reflexivity.
    apply finally_ext, try_catch_ext. rewrite bind_gets.
    match goal with
    | |- context [ strict_eq (allocationMode ?W) "hosts" ] =>
        change (allocationMode W) with (allocationMode w)
    end.
    rewrite Hmode. reflexivity.
  - destruct (negb (truthy_string (value (dom w "prefix-length")))) eqn:Hp;
      [reflexivity|].
    rewrite bind_ret. cbn [negb]. unfold createAllocation_submit.
    rewrite !bind_unit by reflexivity.
    apply finally_ext, try_catch_ext. rewrite bind_gets.
    match goal with
    | |- context [ strict_eq (allocationMode ?W) "hosts" ] =>
        change (allocationMode W) with (allocationMode w)
    end.
    rewrite Hmode. reflexivity.
Qed.

Lemma createAllocation_answered_emits (env : Env) (r : Response) :
  emits lists_only (createAllocation_answered env r).
Proof.
  unfold createAllocation_answered. destruct (negb (ok r)).
  - apply emits_bind; [apply emits_response_json|intros d]. apply emits_throw.
  - apply emits_bind; [apply emits_response_json|intros d].
    apply emits_bind; [apply setStatus_emits, lists_only_quiet|intros _].
    apply emits_bind; [apply toggleAllocationForm_emits|intros _].
    apply emits_bind;
      [apply loadAllocations_emits; [apply lists_only_quiet|intros req Hu; exact Hu]
      |intros _].
    apply emits_log. exact I.
Qed.

Lemma createAllocation_failed_emits (e : Error) :
  emits lists_only (createAllocation_failed e).
Proof.
  unfold createAllocation_failed.
  apply emits_bind; [apply console_error_emits, lists_only_quiet|intros _].
  apply setStatus_emits, lists_only_quiet.
Qed.

(** What follows the status line of a submission only adds to the trace
    of the [api] call. *)
Lemma submit_grows (P : Event -> Prop) (env : Env) (init : Init)
      (K : Response -> M unit) (H : Error -> M unit) (F : M unit) (w0 w : World) :
  (forall e, lists_only e -> P e) ->
  (forall r, emits lists_only (K r)) ->
  (forall e, emits lists_only (H e)) ->
  emits lists_only F ->
  grows_by P w0 (snd (Auth.api env "/allocate" init w)) ->
  grows_by P w0
    (snd (finally (try_catch (bind (Auth.api env "/allocate" init) K) H) F w)).
Proof.
  intros HP HK HH HF Hapi.
  apply finally_grows; [|eapply emits_weaken; eauto].
  apply try_catch_grows; [|intros e; eapply emits_weaken; eauto].
  apply bind_grows; [exact Hapi|intros r; eapply emits_weaken; eauto].
Qed.

Lemma createAllocation_submit_started (env : Env) (payload : Json) (w : World) :
  createAllocation_submit env payload w
  = finally
      (try_catch
         (bind (Auth.api env "/allocate"
                  (mkInit (Some "POST") json_headers (Some payload)))
               (createAllocation_answered env))
         createAllocation_failed)
      (showCreateLoading false)
      (snd (setStatus "Creating allocation..." "loading"
              (snd (showCreateLoading true w)))).
Proof.
  unfold createAllocation_submit. rewrite !bind_unit by reflexivity. reflexivity.
Qed.

(** A submission adds to the trace from its status line on, and its
    requests are the POST with the payload and the list. *)
Lemma createAllocation_submit_grows (P : Event -> Prop) (env : Env) (payload : Json)
      (w : World) :
  (forall e, lists_only e -> P e) ->
  (forall req, req_url req = "/allocate" -> req_method req = Some "POST" ->
               req_body req = Some payload -> P (EvFetch req)) ->
  grows_by P (snd (setStatus "Creating allocation..." "loading"
                     (snd (showCreateLoading true w))))
           (snd (createAllocation_submit env payload w)).
Proof.
  intros Hlists Hreq. rewrite createAllocation_submit_started.
  apply submit_grows.
  - exact Hlists.
  - apply createAllocation_answered_emits.
  - apply createAllocation_failed_emits.
  - apply showCreateLoading_emits.
  - apply api_emits; [intros e He; apply Hlists, lists_only_quiet, He|].
    intros req Hu Hm Hb. apply Hreq; assumption.
Qed.

Lemma createAllocation_submit_trace (env : Env) (payload : Json) (w : World) :
  exists evs,
    trace (snd (createAllocation_submit env payload w))
    = evs ++ EvStatus "Creating allocation..." "loading" :: trace w.
Proof.
  destruct (createAllocation_submit_grows (fun _ => True) env payload w)
    as (evs & Ht & _); [auto|auto|].
  exists evs. rewrite Ht. reflexivity.
Qed.

(** *** Integer texts: [parseInt] agrees with the numeric coercion *)

Lemma white_space_not_digit (radix : Z) (c : ascii) :
  is_white_space c = true -> digit_of radix c = None.
Proof.
  destruct c as [[] [] [] [] [] [] [] []]; intros H;
    try (vm_compute in H; discriminate H); reflexivity.
Qed.

Lemma append_nil_l (s : string) : EmptyString +:+ s = s.
Proof. reflexivity. Qed.

Lemma append_cons (c : ascii) (s t : string) : String c s +:+ t = String c (s +:+ t).
Proof. reflexivity. Qed.

Lemma append_nil_r (s : string) : s +:+ EmptyString = s.
Proof.
  induction s as [|c s IH]; [reflexivity|]. rewrite append_cons, IH. reflexivity.
Qed.

Lemma trimEnd_split (s : string) :
  exists ws, s = trimEnd s +:+ ws /\ all_white_space ws = true.
Proof.
  induction s as [|c s (ws & Hs & Hws)]; [exists EmptyString; auto|].
  simpl. destruct (trimEnd s) as [|d t] eqn:Ht.
  - rewrite append_nil_l in Hs. subst ws. destruct (is_white_space c) eqn:Hc.
    + exists (String c s). rewrite append_nil_l. simpl. rewrite Hc. auto.
    + exists s. rewrite append_cons, append_nil_l. auto.
  - exists ws. split; [|exact Hws]. rewrite append_cons. f_equal. exact Hs.
Qed.

Lemma scan_digits_app (ds ws : string) (acc : option Z) :
  all_digits ds = true ->
  (forall c ws1, ws = String c ws1 -> digit_of 10 c = None) ->
  scan_digits 10 acc (ds +:+ ws) = scan_digits 10 acc ds.
Proof.
  intros Hds Hws. revert acc. induction ds as [|d ds IH]; intros acc.
  - rewrite append_nil_l. simpl. destruct ws as [|c ws1]; [reflexivity|]. simpl.
    rewrite (Hws c ws1 eq_refl). reflexivity.
  - rewrite append_cons. simpl. simpl in Hds.
    destruct (digit_of 10 d); [|discriminate]. apply IH, Hds.
Qed.

Lemma scan_digits_started (radix : Z) (s : string) (a : Z) :
  is_Some (scan_digits radix (Some a) s).
Proof.
  revert a. induction s as [|c s IH]; intros a; simpl; [eauto|].
  destruct (digit_of radix c); [apply IH|eauto].
Qed.

Lemma scan_digits_nonempty (ds : string) :
  truthy_string ds = true -> all_digits ds = true ->
  is_Some (scan_digits 10 None ds).
Proof.
  destruct ds as [|d ds]; [discriminate|]. simpl. intros _.
  destruct (digit_of 10 d); [intros _; apply scan_digits_started|discriminate].
Qed.

Lemma white_space_head (ws : string) :
  all_white_space ws = true ->
  forall c ws1, ws = String c ws1 -> is_white_space c = true.
Proof.
  intros H c ws1 ->. simpl in H. apply andb_true_iff in H. tauto.
Qed.

(** No radix prefix in front of decimal digits followed by white space. *)
Lemma strip_hex_prefix_digits (ds ws : string) :
  truthy_string ds = true -> all_digits ds = true -> all_white_space ws = true ->
  strip_hex_prefix (ds +:+ ws) = (10, ds +:+ ws).
Proof.
  intros Hne Hds Hws.
  destruct ds as [|d ds]; [discriminate|]. simpl in Hds.
  destruct (digit_of 10 d) eqn:Hd; [|discriminate].
  assert (Hx : forall c rest, ds +:+ ws = String c rest ->
                              c <> "x"%char /\ c <> "X"%char).
  { intros c rest Hc. destruct ds as [|e ds].
    - rewrite append_nil_l in Hc.
      pose proof (white_space_head ws Hws c rest Hc) as Hw.
      split; intros ->; discriminate Hw.
    - rewrite append_cons in Hc. injection Hc as -> _. simpl in Hds.
      destruct (digit_of 10 c) eqn:Hc; [|discriminate].
      split; intros ->; discriminate Hc. }
  rewrite append_cons. destruct (ds +:+ ws) as [|c rest] eqn:Hrest.
  - destruct d as [[] [] [] [] [] [] [] []]; reflexivity.
  - destruct (Hx c rest eq_refl) as [H1 H2].
    destruct d as [[] [] [] [] [] [] [] []]; try reflexivity.
    destruct c as [[] [] [] [] [] [] [] []]; try reflexivity; congruence.
Qed.

(** On a plain decimal integer, [parseInt] reads the integer. *)
Lemma parseInt_integer_text (s : string) (h : Z) :
  integer_text s h -> parseInt s = Num h.
Proof.
  unfold integer_text, parseInt, trim. intros (Hds1 & Hds2 & ->).
  destruct (trimEnd_split (trimStart s)) as (ws & Hsplit & Hws).
  destruct (trimEnd (trimStart s)) as [|c t] eqn:Ht; [discriminate Hds1|].
  destruct (strip_sign (String c t)) as [sign ds] eqn:Hsign.
  cbn [fst snd] in *.
  assert (Hstrip : strip_sign (trimStart s) = (sign, ds +:+ ws)).
  { rewrite Hsplit. rewrite append_cons. simpl in Hsign. simpl.
    destruct c as [[] [] [] [] [] [] [] []]; injection Hsign as <- <-;
      rewrite ?append_cons; reflexivity. }
  rewrite Hstrip.
  rewrite (strip_hex_prefix_digits ds ws Hds1 Hds2 Hws).
  rewrite (scan_digits_app ds ws None Hds2).
  2: { intros c1 ws1 E. apply white_space_not_digit.
       eapply white_space_head; eauto. }
  destruct (scan_digits_nonempty ds Hds1 Hds2) as [m Hm].
  rewrite Hm. reflexivity.
Qed.

Lemma span_digits_all (ds : string) :
  all_digits ds = true -> span_digits ds = (ds, EmptyString).
Proof.
  induction ds as [|d ds IH]; [reflexivity|]. simpl.
  destruct (digit_of 10 d); [|discriminate]. intros H. rewrite (IH H). reflexivity.
Qed.

Lemma unsigned_decimal_digits (ds : string) :
  truthy_string ds = true -> all_digits ds = true ->
  unsigned_decimal ds = Some (default 0 (scan_digits 10 None ds), 0).
Proof.
  intros H1 H2. unfold unsigned_decimal. rewrite (span_digits_all ds H2).
  rewrite H1. cbn [negb andb exponent_part]. rewrite append_nil_r. reflexivity.
Qed.

Lemma digits_not_Infinity (ds : string) :
  all_digits ds = true -> String.eqb ds "Infinity" = false.
Proof.
  destruct ds as [|d ds]; [reflexivity|]. simpl.
  destruct (digit_of 10 d) eqn:Hd; [|discriminate]. intros _.
  destruct (Ascii.eqb_spec d "I") as [->|_]; [discriminate Hd|reflexivity].
Qed.

(** A sign and decimal digits are no literal with a radix prefix. *)
Lemma non_decimal_literal_digits (t : string) :
  all_digits (snd (strip_sign t)) = true -> non_decimal_literal t = None.
Proof.
  destruct t as [|c t]; [reflexivity|].
  destruct c as [[] [] [] [] [] [] [] []]; try reflexivity.
  destruct t as [|p r]; [reflexivity|].
  cbn [strip_sign snd]. simpl all_digits. intros H.
  destruct (digit_of 10 p) eqn:Hp; [|discriminate H]. clear H.
  destruct p as [[] [] [] [] [] [] [] []]; try reflexivity; discriminate Hp.
Qed.

(** On a plain decimal integer, the coercion reads the integer. *)
Lemma StringToNumber_integer_text (s : string) (h : Z) :
  integer_text s h -> StringToNumber s = Decimal h 0.
Proof.
  unfold integer_text, StringToNumber. intros (H1 & H2 & ->).
  destruct (trim s) as [|c t] eqn:Ht; [discriminate H1|].
  rewrite (non_decimal_literal_digits _ H2).
  destruct (strip_sign (String c t)) as [sign ds]. cbn [fst snd] in *.
  rewrite (digits_not_Infinity _ H2), (unsigned_decimal_digits _ H1 H2).
  reflexivity.
Qed.

Lemma integer_text_truthy (s : string) (h : Z) :
  integer_text s h -> truthy_string s = true.
Proof.
  intros (H1 & _). destruct s; [discriminate H1|reflexivity].
Qed.

Lemma lt_literal_integer_1 (h : Z) : lt_literal (Decimal h 0) 1 = (h <? 1).
Proof.
  unfold lt_literal, decimal_below.
  change (Z.log2 1) with 0. change (1 =? 2 ^ 0) with true. cbv iota.
  change (54 - 0) with 54. change (0 <=? 0) with true. cbv iota.
  change (10 ^ 0) with 1. change (2 ^ 54) with 18014398509481984.
  destruct (Z.ltb_spec h 1), (Z.ltb_spec (h * 1 * 18014398509481984)
                                          (1 * 18014398509481984 - 1));
    try reflexivity; lia.
Qed.

Lemma gt_literal_integer_4000 (h : Z) : gt_literal (Decimal h 0) 4000 = (4000 <? h).
Proof.
  unfold gt_literal, decimal_above.
  change (Z.log2 4000) with 11. change (53 - 11) with 42.
  change (0 <=? 0) with true. cbv iota.
  change (10 ^ 0) with 1. change (2 ^ 42) with 4398046511104.
  destruct (Z.ltb_spec 4000 h), (Z.ltb_spec (4000 * 4398046511104 + 1)
                                             (h * 1 * 4398046511104));
    try reflexivity; lia.
Qed.

Lemma host_count_rejected_integer (s : string) (h : Z) :
  integer_text s h -> host_count_rejected s = (h <? 1) || (4000 <? h).
Proof.
  intros H. unfold host_count_rejected.
  rewrite (integer_text_truthy _ _ H), (StringToNumber_integer_text _ _ H).
  rewrite lt_literal_integer_1, gt_literal_integer_4000. reflexivity.
Qed.

(** On a text that is no plain integer, the number that the check
    compares and the number that [parseInt] reads can differ: an exponent
    or a fraction counts for the check and is cut off by [parseInt], and a
    value that rounds to 1 or to 4000 as a double passes. *)
Example checked_and_parsed_differ :
  (StringToNumber "1e3" = Decimal 1 3
   /\ host_count_rejected "1e3" = false /\ parseInt "1e3" = Num 1)
  /\ (StringToNumber "4050e-1" = Decimal 4050 (-1)
      /\ host_count_rejected "4050e-1" = false /\ parseInt "4050e-1" = Num 4050)
  /\ (host_count_rejected "0.99999999999999999" = false
      /\ parseInt "0.99999999999999999" = Num 0)
  /\ (host_count_rejected "0.9999999999999999" = true)
  /\ (host_count_rejected "4000.0000000000002" = false
      /\ host_count_rejected "4000.0000000000003" = true)
  /\ (StringToNumber "0x10" = Decimal 16 0 /\ StringToNumber "-0x10" = NotANumber
      /\ StringToNumber "Infinity" = Infinite false
      /\ host_count_rejected "Infinity" = true).
Proof. repeat split; reflexivity. Qed.

(** C1, as stated, fails: 4091 hosts, the last row of the sizing table,
    does not pass the form; the request is refused with the message that
    names the bound 4000 and nothing is sent. *)
Lemma create_rejects_4091 :
  Engine.resolve_hosts 4091 = Engine.Ok 20
  /\ StringToNumber "4091" = Decimal 4091 0
  /\ let r := createAllocation (Samples.env (Some "secret") (Samples.deleted 0))
                (Samples.world_with_key "secret" "prod" "4091") in
     fst r = Normal tt
     /\ trace (snd r) = [EvStatus "Host count must be between 1 and 4000" "error"].
Proof. repeat split; reflexivity. Qed.

(** C1, amended: in host-count mode, with a VPC name given and a host
    count field that holds a plain decimal integer [h] (digits, with an
    optional sign and white space around), [createAllocation] refuses
    the request as out of range exactly when [h < 1] or [h > 4000]: it
    shows "Host count must be between 1 and 4000", puts the focus on the
    field and sends nothing.  For every [h] of [[1, 4000]] it submits the
    request: the POST to [/allocate] with the VPC name and [hosts = h].
    The engine's own resolver (modelled from the sizing table) refuses
    [h] exactly when [h < 1] or [h > 4091]. *)
Theorem create_host_count_range (env : Env) (w : World) (h : Z) :
  truthy_string (trim (value (dom w "vpc-name"))) = true ->
  allocationMode w = "hosts" ->
  integer_text (value (dom w "host-count")) h ->
  let rejected :=
    snd (focus "host-count"
           (snd (setStatus "Host count must be between 1 and 4000" "error" w))) in
  (createAllocation env w = (Normal tt, rejected) <-> h < 1 \/ 4000 < h)
  /\ (1 <= h <= 4000 ->
      createAllocation env w
      = createAllocation_submit env
          [("vpc", JString (trim (value (dom w "vpc-name")))); ("hosts", JNumber h)] w)
  /\ (Engine.resolve_hosts h = Engine.Err Engine.HostCountOutOfRange
      <-> h < 1 \/ 4091 < h).
Proof.
  intros Hv Hmode Hint rejected.
  split; [|split; [|apply resolve_hosts_out_of_range]].
  - rewrite createAllocation_cases. unfold createAllocation_refusal.
    rewrite Hv, Hmode, (host_count_rejected_integer _ _ Hint). cbn [negb].
    change (strict_eq "hosts" "hosts") with true. cbv iota.
    destruct (Z.ltb_spec h 1) as [Hlo|Hlo]; [|destruct (Z.ltb_spec 4000 h) as [Hhi|Hhi]];
      cbn [orb].
    + split; [lia|reflexivity].
    + split; [lia|reflexivity].
    + split; [|lia]. intros Hrej. exfalso.
      destruct (createAllocation_submit_trace env (createAllocation_payload w) w)
        as (evs & Ht).
      rewrite Hrej in Ht. cbn [snd] in Ht.
      change (trace rejected)
        with ([EvStatus "Host count must be between 1 and 4000" "error"] ++ trace w)
        in Ht.
      change (evs ++ EvStatus "Creating allocation..." "loading" :: trace w)
        with (evs ++ [EvStatus "Creating allocation..." "loading"] ++ trace w) in Ht.
      rewrite app_assoc in Ht. apply app_inv_tail in Ht.
      destruct evs as [|e1 evs]; [discriminate Ht|].
      injection Ht as _ Ht. destruct evs; discriminate Ht.
  - intros Hrange. rewrite createAllocation_cases.
    unfold createAllocation_refusal, createAllocation_payload.
    rewrite Hv, Hmode, (host_count_rejected_integer _ _ Hint),
      (parseInt_integer_text _ _ Hint).
    cbn [negb]. change (strict_eq "hosts" "hosts") with true. cbv iota.
    destruct (Z.ltb_spec h 1); [lia|]. destruct (Z.ltb_spec 4000 h); [lia|].
    reflexivity.
Qed.

Lemma create_host_count_range_witness :
  createAllocation (Samples.env (Some "secret") (Samples.deleted 0))
                   (Samples.world "prod" "4001")
  = (Normal tt,
     snd (focus "host-count"
            (snd (setStatus "Host count must be between 1 and 4000" "error"
                    (Samples.world "prod" "4001"))))).
Proof.
  apply (create_host_count_range (Samples.env (Some "secret") (Samples.deleted 0))
           (Samples.world "prod" "4001") 4001).
  - reflexivity.
  - reflexivity.
  - repeat split; reflexivity.
  - lia.
Defined.

(** C6, as stated, fails: a host count that is no number (the text
    "many") passes the range check, since a comparison with NaN is false;
    [parseInt] reads NaN from it and the payload that is submitted has
    [hosts] null: neither sizing field is set. *)
Lemma create_submits_null_hosts :
  host_count_rejected "many" = false
  /\ parseInt "many" = NaN
  /\ createAllocation_payload (Samples.world_with_key "secret" "prod" "many")
     = [("vpc", JString "prod"); ("hosts", JNull)]
  /\ exists req,
       trace (snd (createAllocation (Samples.env None (Samples.refused 422 None))
                     (Samples.world_with_key "secret" "prod" "many")))
       = [EvStatus "Error: HTTP 422" "error";
          EvConsoleError "Error creating allocation:" "HTTP 422";
          EvFetch req;
          EvStatus "Creating allocation..." "loading"]
       /\ req_url req = "/allocate"
       /\ req_method req = Some "POST"
       /\ req_body req = Some [("vpc", JString "prod"); ("hosts", JNull)].
Proof.
  split; [reflexivity|]. split; [reflexivity|]. split; [reflexivity|].
  eexists. split; [vm_compute; reflexivity|]. repeat split; reflexivity.
Qed.

Lemma grows_by_In (P : Event -> Prop) (w w1 : World) (e : Event) :
  grows_by P w w1 -> In e (trace w) -> In e (trace w1).
Proof. intros (evs & E & _) Hin. rewrite E. apply in_or_app. right. exact Hin. Qed.

(** C10: the count that [deleteVpc] shows is the number of cached
    allocations whose VPC is the one named: it stands in the question put
    to the user, and, once the user has agreed and the server has
    answered the DELETE with a success, in the message "... and n
    allocation(s) deleted", whatever the body of that answer says (a
    [deleted_count] included); the list is reloaded only after that. *)
Theorem deleteVpc_counts_from_cache (env : Env) (vpcName : string) (w w3 : World) (r : Response) :
  let n := length (List.filter (fun a => strict_eq (vpc a) vpcName) (allocations w)) in
  let question :=
    "Are you sure you want to delete VPC " +:+ dq +:+ vpcName +:+ dq +:+ "?"
    +:+ nl +:+ nl +:+ "This will delete " +:+ pretty n
    +:+ " allocation(s) for this VPC. This action cannot be undone." in
  let done :=
    "VPC " +:+ dq +:+ vpcName +:+ dq +:+ " and " +:+ pretty n
    +:+ " allocation(s) deleted" in
  let deleting :=
    snd (setStatus "Deleting VPC..." "loading"
           (log (EvConfirm question true) w)) in
  confirm_answer env (trace w) question = true ->
  Auth.api env ("/vpcs/" +:+ encodeURIComponent vpcName)
           (mkInit (Some "DELETE") None None) deleting = (Normal r, w3) ->
  ok r = true ->
  grows_by (fun _ => True) (snd (setStatus done "success" w3))
           (snd (deleteVpc env vpcName w))
  /\ In (EvStatus done "success") (trace (snd (deleteVpc env vpcName w)))
  /\ In (EvConfirm question true) (trace (snd (deleteVpc env vpcName w))).
Proof.
  intros n question done deleting Hyes Hapi Hok.
  assert (Hgrow : grows_by (fun _ => True) (snd (setStatus done "success" w3))
                           (snd (deleteVpc env vpcName w))).
  { unfold deleteVpc. rewrite bind_gets. cbv zeta. fold n. fold question.
    rewrite bind_window_confirm. rewrite Hyes. cbn [negb].
    rewrite bind_unit by reflexivity. fold deleting.
    apply try_catch_grows.
    - rewrite (bind_normal _ _ _ _ _ Hapi). rewrite Hok. cbn [negb].
      rewrite bind_unit by reflexivity. fold done.
      apply loadAllocations_emits; intros; exact I.
    - intros e. apply emits_bind; [apply console_error_emits; intros; exact I|intros _].
      apply setStatus_emits; intros; exact I. }
  split; [exact Hgrow|].
  assert (Hw3 : grows_by (fun _ => True) deleting w3).
  { pose proof (api_grows env ("/vpcs/" +:+ encodeURIComponent vpcName)
                  (mkInit (Some "DELETE") None None) deleting) as Hg.
    rewrite Hapi in Hg. simpl in Hg. eapply grows_by_weaken; [|exact Hg]. auto. }
  split.
  - eapply grows_by_In; [exact Hgrow|]. left. reflexivity.
  - eapply grows_by_In; [exact Hgrow|]. right.
    eapply grows_by_In; [exact Hw3|]. right. left. reflexivity.
Qed.

Lemma deleteVpc_counts_from_cache_witness :
  In (EvStatus ("VPC " +:+ dq +:+ "prod" +:+ dq +:+ " and 0 allocation(s) deleted")
               "success")
     (trace (snd (deleteVpc (Samples.env None (Samples.deleted 3)) "prod"
                            (Samples.world_with_key "secret" "prod" "100")))).
Proof.
  eapply (deleteVpc_counts_from_cache (Samples.env None (Samples.deleted 3)) "prod"
            (Samples.world_with_key "secret" "prod" "100")).
  - reflexivity.
  - reflexivity.
  - reflexivity.
Defined.

(** C9: when the prompt is cancelled, or the name entered is empty or
    white space only, or the trimmed name is the allocation's current VPC
    name, [editAllocationVpc] returns at once: the world is the one it
    started in with the prompt added to the trace, so no request is made
    and nothing of the page, the globals and localStorage changes. *)
Theorem editAllocationVpc_no_move (env : Env) (allocationId : Z) (currentVpc : string) (w : World) :
  let a := prompt_answer env (trace w) "Move this allocation to which VPC?" (Some currentVpc) in
  (a = None
   \/ exists s, a = Some s
                /\ (s = EmptyString \/ all_white_space s = true \/ trim s = currentVpc)) ->
  editAllocationVpc env allocationId currentVpc w
  = (Normal tt, log (EvPrompt "Move this allocation to which VPC?" (Some currentVpc) a) w)
  /\ grows_by (fun e => is_fetch e = false) w
              (snd (editAllocationVpc env allocationId currentVpc w)).
Proof.
  intros a H.
  assert (E : editAllocationVpc env allocationId currentVpc w
              = (Normal tt, log (EvPrompt "Move this allocation to which VPC?"
                                          (Some currentVpc) a) w)).
  { unfold editAllocationVpc.
    rewrite bind_window_prompt. fold a.
    destruct H as [->|(s & -> & Hs)]; [reflexivity|].
    destruct Hs as [->|[Hs|Hs]]; [reflexivity| |].
    - rewrite (trim_all_white_space s Hs). unfold strict_eq. simpl.
      rewrite orb_true_r. reflexivity.
    - rewrite Hs. unfold strict_eq. rewrite (String.eqb_refl currentVpc).
      rewrite !orb_true_r. reflexivity. }
  split; [exact E|]. rewrite E. simpl.
  apply (grows_by_log (fun e => is_fetch e = false)). reflexivity.
Qed.

Lemma editAllocationVpc_no_move_witness :
  editAllocationVpc (Samples.env (Some "  ") (Samples.deleted 0)) 7 "prod"
                    (Samples.world "prod" "100")
  = (Normal tt,
     log (EvPrompt "Move this allocation to which VPC?" (Some "prod") (Some "  "))
         (Samples.world "prod" "100")).
Proof.
  apply (editAllocationVpc_no_move (Samples.env (Some "  ") (Samples.deleted 0)) 7 "prod"
           (Samples.world "prod" "100")).
  right. exists "  "%string. split; [reflexivity|]. right. left. reflexivity.
Defined.

End DashboardProperties.

(** ** The allocation engine *)

Section Blocks.
Import Engine.

Lemma block_size_pos (p : Z) : p <= 32 -> 0 < block_size p.
Proof. intros H. unfold block_size. apply Z.pow_pos_nonneg; lia. Qed.

Lemma block_size_double (p : Z) : p < 32 -> block_size p = 2 * block_size (p + 1).
Proof.
  intros H. unfold block_size.
  replace (32 - p) with (Z.succ (32 - (p + 1))) by lia.
  apply Z.pow_succ_r. lia.
Qed.

Lemma overlap_sym (a b : Block) : overlap a b = overlap b a.
Proof. unfold overlap. apply andb_comm. Qed.

Lemma overlap_false (a b : Block) :
  overlap a b = false <-> block_end b <= base a \/ block_end a <= base b.
Proof.
  unfold overlap. rewrite andb_false_iff, !Z.ltb_ge. tauto.
Qed.

Lemma overlap_true (a b : Block) :
  overlap a b = true <-> base a < block_end b /\ base b < block_end a.
Proof. unfold overlap. rewrite andb_true_iff, !Z.ltb_lt. tauto. Qed.

Lemma overlap_self (b : Block) : prefix b <= 32 -> overlap b b = true.
Proof.
  intros H. apply overlap_true. unfold block_end.
  pose proof (block_size_pos _ H). lia.
Qed.

Lemma within_refl (b : Block) : within b b.
Proof. unfold within. lia. Qed.

Lemma within_trans (a b c : Block) : within a b -> within b c -> within a c.
Proof. unfold within. lia. Qed.

Lemma within_disjoint (a b c : Block) :
  within a b -> overlap b c = false -> overlap a c = false.
Proof. unfold within. rewrite !overlap_false. lia. Qed.

Lemma within_overlap (a b : Block) :
  prefix a <= 32 -> within a b -> overlap b a = true.
Proof.
  intros Hp [H1 H2]. apply overlap_true.
  pose proof (block_size_pos _ Hp). unfold block_end in *. lia.
Qed.

Lemma lower_half_within (b : Block) : prefix b < 32 -> within (lower_half b) b.
Proof.
  intros H. unfold within, lower_half, block_end. simpl.
  rewrite (block_size_double (prefix b) H).
  pose proof (block_size_pos (prefix b + 1)). lia.
Qed.

Lemma upper_half_within (b : Block) : prefix b < 32 -> within (upper_half b) b.
Proof.
  intros H. unfold within, upper_half, block_end. simpl.
  rewrite (block_size_double (prefix b) H).
  pose proof (block_size_pos (prefix b + 1)). lia.
Qed.

Lemma halves_disjoint (b : Block) : overlap (upper_half b) (lower_half b) = false.
Proof.
  apply overlap_false. unfold upper_half, lower_half, block_end. simpl. lia.
Qed.

(** XOR with a power of two adds it or takes it away. *)
Lemma lxor_pow2 (b k : Z) :
  0 <= k ->
  Z.lxor b (2 ^ k) = if Z.testbit b k then b - 2 ^ k else b + 2 ^ k.
Proof.
  intros Hk.
  assert (Hland : forall c, Z.testbit c k = false -> Z.land c (2 ^ k) = 0).
  { intros c Hc. apply Z.bits_inj'. intros i Hi.
    rewrite Z.land_spec, Z.bits_0, Z.pow2_bits_eqb by lia.
    destruct (Z.eqb_spec k i) as [<-|]; [rewrite Hc; reflexivity|apply andb_false_r]. }
  destruct (Z.testbit b k) eqn:Hb.
  - assert (Hc : Z.testbit (Z.lxor b (2 ^ k)) k = false).
    { rewrite Z.lxor_spec, Hb, Z.pow2_bits_true by lia. reflexivity. }
    pose proof (Z.add_nocarry_lxor _ _ (Hland _ Hc)) as Hadd.
    rewrite Z.lxor_assoc, Z.lxor_nilpotent, Z.lxor_0_r in Hadd. lia.
  - symmetry. apply Z.add_nocarry_lxor, Hland, Hb.
Qed.

(** A block and its buddy are the two halves of their parent. *)
Lemma parent_halves (b : Block) :
  prefix b <= 32 ->
  prefix (parent b) = prefix b - 1
  /\ ((base (buddy b) = base b + block_size (prefix b) /\ base (parent b) = base b)
      \/ (base (buddy b) = base b - block_size (prefix b)
          /\ base (parent b) = base (buddy b))).
Proof.
  intros Hp. split; [reflexivity|].
  unfold parent, buddy, block_size. simpl.
  rewrite lxor_pow2 by lia.
  pose proof (block_size_pos _ Hp) as Hpos. unfold block_size in Hpos.
  destruct (Z.testbit (base b) (32 - prefix b)); [right|left]; lia.
Qed.

Lemma parent_disjoint (b x : Block) :
  prefix b <= 32 -> prefix x <= 32 ->
  overlap b x = false -> overlap (buddy b) x = false ->
  overlap (parent b) x = false.
Proof.
  intros Hb Hx. destruct (parent_halves b Hb) as [Hpp Hcases].
  rewrite !overlap_false. unfold block_end. rewrite Hpp.
  replace (prefix (buddy b)) with (prefix b) by reflexivity.
  assert (Hd : block_size (prefix b - 1) = 2 * block_size (prefix b)).
  { rewrite (block_size_double (prefix b - 1)) by lia. do 2 f_equal. lia. }
  rewrite Hd. pose proof (block_size_pos _ Hb). pose proof (block_size_pos _ Hx).
  destruct Hcases as [[E1 E2]|[E1 E2]]; rewrite E2, ?E1; lia.
Qed.

Lemma buddy_ne (b : Block) : prefix b <= 32 -> buddy b <> b.
Proof.
  intros Hb E. destruct (parent_halves b Hb) as [_ [[E1 _]|[E1 _]]];
    rewrite E in E1; pose proof (block_size_pos _ Hb); lia.
Qed.

(** *** Pairwise disjoint lists of blocks *)

Lemma pairwise_nil : pairwise_disjoint [].
Proof. intros i j a b _ Hi. rewrite lookup_nil in Hi. discriminate. Qed.

Lemma pairwise_cons (x : Block) (l : list Block) :
  pairwise_disjoint (x :: l)
  <-> (forall y, y ∈ l -> overlap x y = false) /\ pairwise_disjoint l.
Proof.
  split.
  - intros H. split.
    + intros y Hy. apply list_elem_of_lookup in Hy as [j Hj].
      apply (H 0%nat (S j)); [lia|reflexivity|exact Hj].
    + intros i j a b Hij Hi Hj. apply (H (S i) (S j)); [lia|exact Hi|exact Hj].
  - intros [Hx Hl] i j a b Hij Hi Hj.
    destruct i as [|i], j as [|j]; simpl in Hi, Hj.
    + lia.
    + injection Hi as <-. apply Hx. apply list_elem_of_lookup. eauto.
    + injection Hj as <-. rewrite overlap_sym. apply Hx.
      apply list_elem_of_lookup. eauto.
    + apply (Hl i j); [lia|exact Hi|exact Hj].
Qed.

Lemma pairwise_app (l1 l2 : list Block) :
  pairwise_disjoint (l1 ++ l2)
  <-> pairwise_disjoint l1 /\ pairwise_disjoint l2
      /\ (forall x y, x ∈ l1 -> y ∈ l2 -> overlap x y = false).
Proof.
  induction l1 as [|a l1 IH]; simpl.
  - split.
    + intros H. split; [apply pairwise_nil|]. split; [exact H|].
      intros x y Hx. apply elem_of_nil in Hx. contradiction.
    + tauto.
  - rewrite !pairwise_cons, IH. split.
    + intros (Ha & H1 & H2 & H12). repeat split; auto.
      * intros y Hy. apply Ha. apply elem_of_app. auto.
      * intros x y Hx Hy. apply elem_of_cons in Hx as [->|Hx]; [|auto].
        apply Ha. apply elem_of_app. auto.
    + intros ((Ha & H1) & H2 & H12). repeat split; auto.
      * intros y Hy. apply elem_of_app in Hy as [Hy|Hy]; [auto|].
        apply H12; [apply elem_of_cons; auto|exact Hy].
      * intros x y Hx Hy. apply H12; [apply elem_of_cons; auto|exact Hy].
Qed.

(** *** Splitting *)

Lemma split_down_spec (n : nat) (b r : Block) (sibs : list Block) :
  split_down n b = (r, sibs) ->
  prefix b + Z.of_nat n <= 32 ->
  r = mkBlock (base b) (prefix b + Z.of_nat n)
  /\ within r b
  /\ (forall s, s ∈ sibs -> within s b /\ overlap s r = false /\ prefix s <= 32)
  /\ (forall s t, s ∈ sibs -> t ∈ sibs -> s <> t -> overlap s t = false).
Proof.
  revert b r sibs. induction n as [|n IH]; intros b r sibs Hsplit Hle.
  - simpl in Hsplit. injection Hsplit as <- <-.
    split; [destruct b; simpl; f_equal; lia|].
    split; [apply within_refl|].
    split; [intros s Hs|intros s t Hs]; apply elem_of_nil in Hs; contradiction.
  - simpl in Hsplit.
    destruct (split_down n (lower_half b)) as [r1 sibs1] eqn:E.
    injection Hsplit as <- <-.
    assert (Hlt : prefix b < 32) by lia.
    destruct (IH (lower_half b) r1 sibs1 E) as (Hr & Hw & Hs & Hp).
    { simpl. lia. }
    pose proof (lower_half_within b Hlt) as Hlow.
    pose proof (upper_half_within b Hlt) as Hup.
    pose proof (halves_disjoint b) as Hdis.
    assert (Hupper : forall s, within s (lower_half b) -> overlap (upper_half b) s = false).
    { intros s Hs1. rewrite overlap_sym. eapply within_disjoint; [exact Hs1|].
      rewrite overlap_sym. exact Hdis. }
    split; [rewrite Hr; simpl; f_equal; lia|].
    split; [eapply within_trans; eauto|].
    split.
    + intros s Hin. apply elem_of_cons in Hin as [->|Hin].
      * split; [exact Hup|]. split; [apply Hupper, Hw|simpl; lia].
      * destruct (Hs s Hin) as (H1 & H2 & H3).
        split; [eapply within_trans; eauto|]. auto.
    + intros s t Hs1 Ht1 Hne.
      apply elem_of_cons in Hs1 as [->|Hs1]; apply elem_of_cons in Ht1 as [->|Ht1].
      * congruence.
      * apply Hupper. apply (Hs t Ht1).
      * rewrite overlap_sym. apply Hupper. apply (Hs s Hs1).
      * apply Hp; assumption.
Qed.

(** *** Best fit *)

Lemma pick_fold_spec (p : Z) (l : list Block) (b : Block) :
  foldr (pick p) None l = Some b -> b ∈ l /\ prefix b <= p.
Proof.
  induction l as [|c l IH]; simpl; [discriminate|].
  unfold pick at 1. destruct (Z.leb_spec (prefix c) p) as [Hc|Hc].
  - destruct (foldr (pick p) None l) as [a|] eqn:E.
    + destruct (better c a); intros [= <-].
      * split; [apply elem_of_cons; auto|exact Hc].
      * destruct (IH eq_refl). split; [apply elem_of_cons; auto|assumption].
    + intros [= <-]. split; [apply elem_of_cons; auto|exact Hc].
  - intros H. destruct (IH H). split; [apply elem_of_cons; auto|assumption].
Qed.

Lemma best_fit_spec (fs : gset Block) (p : Z) (b : Block) :
  best_fit fs p = Some b -> b ∈ fs /\ prefix b <= p.
Proof.
  intros H. apply pick_fold_spec in H as [H1 H2].
  split; [apply elem_of_elements, H1|exact H2].
Qed.

Lemma Reserve_spec (a a1 : Allocator) (p : Z) (r : Block) :
  Reserve a p = Ok (r, a1) ->
  exists b sibs,
    b ∈ free a /\ prefix b <= p /\ pool_prefix (pool a) <= p
    /\ split_down (Z.to_nat (p - prefix b)) b = (r, sibs)
    /\ a1 = mkAllocator (pool a) ((free a ∖ {[ b ]}) ∪ list_to_set sibs)
                        (allocated a ∪ {[ r ]}).
Proof.
  unfold Reserve. destruct (Z.ltb_spec p (pool_prefix (pool a))); [discriminate|].
  destruct (best_fit (free a) p) as [b|] eqn:Hb; [|discriminate].
  destruct (best_fit_spec _ _ _ Hb) as [Hin Hle].
  destruct (split_down (Z.to_nat (p - prefix b)) b) as [r1 sibs] eqn:Hs.
  intros [= <- <-]. exists b, sibs. auto.
Qed.

(** *** Reserve and Release keep blocks apart *)

Lemma safe_Reserve (a a1 : Allocator) (p : Z) (r : Block) (held : list Block) :
  safe a held -> p <= 32 -> Reserve a p = Ok (r, a1) -> safe a1 (held ++ [r]).
Proof.
  intros (Hheld & Hfree & Hpair & Hff & Hhf) Hp Hres.
  destruct (Reserve_spec _ _ _ _ Hres) as (b & sibs & Hb & Hle & _ & Hsplit & ->).
  destruct (split_down_spec _ _ _ _ Hsplit) as (Hr & Hw & Hs & Hsp); [lia|].
  assert (Hpr : prefix r = p) by (rewrite Hr; simpl; lia).
  assert (Hin : forall f, f ∈ (free a ∖ {[ b ]}) ∪ list_to_set sibs ->
                          (f ∈ free a /\ f <> b) \/ f ∈ sibs).
  { intros f Hf. apply elem_of_union in Hf as [Hf|Hf].
    - apply elem_of_difference in Hf as [H1 H2]. left. split; [exact H1|].
      intros ->. apply H2. apply elem_of_singleton. reflexivity.
    - right. apply elem_of_list_to_set in Hf. exact Hf. }
  assert (Hrb : forall f, f ∈ free a -> f <> b -> overlap f r = false).
  { intros f Hf Hne. rewrite overlap_sym. eapply within_disjoint; [exact Hw|].
    apply Hff; auto. }
  unfold safe. simpl. repeat split.
  - intros x Hx. apply elem_of_app in Hx as [Hx|Hx]; [auto|].
    apply list_elem_of_singleton in Hx as ->. lia.
  - intros f Hf. destruct (Hin f Hf) as [[H1 _]|H1]; [auto|apply (Hs f H1)].
  - apply pairwise_app. split; [exact Hpair|]. split.
    + apply pairwise_cons. split; [|apply pairwise_nil].
      intros y Hy. apply elem_of_nil in Hy. contradiction.
    + intros x y Hx Hy. apply list_elem_of_singleton in Hy as ->.
      rewrite overlap_sym. eapply within_disjoint; [exact Hw|]. apply Hhf; auto.
  - intros f g Hf Hg Hne.
    destruct (Hin f Hf) as [[Hf1 Hf2]|Hf1]; destruct (Hin g Hg) as [[Hg1 Hg2]|Hg1].
    + apply Hff; auto.
    + rewrite overlap_sym. eapply within_disjoint; [apply (Hs g Hg1)|].
      apply Hff; auto.
    + eapply within_disjoint; [apply (Hs f Hf1)|]. apply Hff; auto.
    + apply Hsp; auto.
  - intros x f Hx Hf. apply elem_of_app in Hx as [Hx|Hx].
    + destruct (Hin f Hf) as [[Hf1 _]|Hf1]; [auto|].
      eapply within_disjoint; [apply (Hs f Hf1)|]. apply Hhf; auto.
    + apply list_elem_of_singleton in Hx as ->.
      destruct (Hin f Hf) as [[Hf1 Hf2]|Hf1]; [auto|apply (Hs f Hf1)].
Qed.

Lemma coalesce_free (n : nat) (fs : gset Block) (b : Block) :
  (forall f, f ∈ fs -> prefix f <= 32) ->
  (forall f g, f ∈ fs -> g ∈ fs -> f <> g -> overlap f g = false) ->
  b ∈ fs ->
  (forall f, f ∈ coalesce n fs b -> prefix f <= 32)
  /\ (forall f g, f ∈ coalesce n fs b -> g ∈ coalesce n fs b -> f <> g ->
                  overlap f g = false)
  /\ (forall x, prefix x <= 32 -> (forall f, f ∈ fs -> overlap f x = false) ->
                forall f, f ∈ coalesce n fs b -> overlap f x = false).
Proof.
  revert fs b. induction n as [|n IH]; intros fs b Hpre Hpair Hb; simpl.
  { repeat split; auto. }
  destruct (bool_decide (buddy b ∈ fs)) eqn:Hbud; [|repeat split; auto].
  apply bool_decide_eq_true in Hbud.
  pose proof (Hpre b Hb) as Hpb.
  assert (Hin : forall f, f ∈ (fs ∖ {[ b; buddy b ]}) ∪ {[ parent b ]} ->
                          (f ∈ fs /\ f <> b /\ f <> buddy b) \/ f = parent b).
  { intros f Hf. apply elem_of_union in Hf as [Hf|Hf].
    - apply elem_of_difference in Hf as [H1 H2]. left. split; [exact H1|].
      split; intros ->; apply H2; set_solver.
    - right. apply elem_of_singleton in Hf. exact Hf. }
  assert (Hpar : forall x, prefix x <= 32 -> x ∈ fs -> x <> b -> x <> buddy b ->
                           overlap (parent b) x = false).
  { intros x Hx Hxin H1 H2. apply parent_disjoint; auto. }
  destruct (IH ((fs ∖ {[ b; buddy b ]}) ∪ {[ parent b ]}) (parent b)) as (I1 & I2 & I3).
  - intros f Hf. destruct (Hin f Hf) as [(H1 & _)| ->]; [auto|]. simpl. lia.
  - intros f g Hf Hg Hne.
    destruct (Hin f Hf) as [(Hf1 & Hf2 & Hf3)| ->];
      destruct (Hin g Hg) as [(Hg1 & Hg2 & Hg3)| ->].
    + apply Hpair; auto.
    + rewrite overlap_sym. apply Hpar; auto.
    + apply Hpar; auto.
    + congruence.
  - set_solver.
  - split; [exact I1|]. split; [exact I2|].
    intros x Hx Hfs f Hf. apply (I3 x Hx); [|exact Hf].
    intros g Hg. destruct (Hin g Hg) as [(Hg1 & _)| ->]; [auto|].
    apply parent_disjoint; auto.
Qed.

Lemma safe_drop (a : Allocator) (x : Block) (l1 l2 : list Block) :
  safe a (l1 ++ x :: l2) -> safe a (l1 ++ l2).
Proof.
  intros (Hheld & Hfree & Hpair & Hff & Hhf).
  assert (Hsub : forall y, y ∈ l1 ++ l2 -> y ∈ l1 ++ x :: l2).
  { intros y Hy. apply elem_of_app in Hy as [Hy|Hy]; apply elem_of_app;
      [left; exact Hy|right; apply elem_of_cons; auto]. }
  unfold safe. repeat split; auto.
  apply pairwise_app in Hpair as (H1 & H2 & H12).
  apply pairwise_cons in H2 as [_ H2].
  apply pairwise_app. repeat split; auto.
  intros y z Hy Hz. apply H12; [exact Hy|apply elem_of_cons; auto].
Qed.

(** The block released is apart from the blocks that stay held. *)
Lemma held_apart (x : Block) (l1 l2 : list Block) :
  pairwise_disjoint (l1 ++ x :: l2) ->
  forall y, y ∈ l1 ++ l2 -> overlap x y = false.
Proof.
  intros Hpair y Hy.
  apply pairwise_app in Hpair as (_ & H2 & H12).
  apply pairwise_cons in H2 as [Hx _].
  apply elem_of_app in Hy as [Hy|Hy]; [|auto].
  rewrite overlap_sym. apply H12; [exact Hy|apply elem_of_cons; auto].
Qed.

Lemma safe_Release (a a1 : Allocator) (x : Block) (l1 l2 : list Block) :
  safe a (l1 ++ x :: l2) -> Release a x = Ok a1 -> safe a1 (l1 ++ l2).
Proof.
  intros Hsafe Hrel.
  pose proof (safe_drop _ _ _ _ Hsafe) as (Hheld1 & _ & Hpair1 & _ & _).
  destruct Hsafe as (Hheld & Hfree & Hpair & Hff & Hhf).
  unfold Release in Hrel. destruct (bool_decide (x ∈ allocated a)); [|discriminate].
  injection Hrel as <-.
  assert (Hx : x ∈ l1 ++ x :: l2) by (apply elem_of_app; right; apply elem_of_cons; auto).
  destruct (coalesce_free (Z.to_nat (prefix x - pool_prefix (pool a)))
              ({[ x ]} ∪ free a) x) as (C1 & C2 & C3).
  - intros f Hf. apply elem_of_union in Hf as [Hf|Hf]; [|auto].
    apply elem_of_singleton in Hf as ->. auto.
  - intros f g Hf Hg Hne.
    apply elem_of_union in Hf as [Hf|Hf]; apply elem_of_union in Hg as [Hg|Hg];
      rewrite ?elem_of_singleton in *; subst.
    + congruence.
    + rewrite overlap_sym. apply Hhf; auto.
    + apply Hhf; auto.
    + apply Hff; auto.
  - set_solver.
  - unfold safe. simpl. repeat split; auto.
    intros y f Hy Hf. apply (C3 y); [auto| |exact Hf].
    intros g Hg. apply elem_of_union in Hg as [Hg|Hg].
    + apply elem_of_singleton in Hg as ->. eapply held_apart; eauto.
    + apply Hhf; [|exact Hg].
      apply elem_of_app in Hy as [Hy|Hy]; apply elem_of_app;
        [left; exact Hy|right; apply elem_of_cons; auto].
Qed.

(** *** Release undoes Reserve *)

Lemma forallb_elements (P : Block -> bool) (fs : gset Block) :
  forallb P (elements fs) = true -> forall x, x ∈ fs -> P x = true.
Proof.
  intros H x Hx. rewrite forallb_forall in H. apply H.
  apply list_elem_of_In, elem_of_elements, Hx.
Qed.

Lemma well_formed_spec (a : Allocator) :
  well_formed a = true ->
  (forall b, b ∈ free a ->
             aligned b = true /\ pool_prefix (pool a) <= prefix b <= 32)
  /\ (forall b c, b ∈ free a -> c ∈ free a -> b <> c -> overlap b c = false)
  /\ (forall b c, b ∈ free a -> c ∈ allocated a -> overlap b c = false)
  /\ (forall b, b ∈ free a -> pool_prefix (pool a) < prefix b -> buddy b ∉ free a).
Proof.
  unfold well_formed. rewrite !andb_true_iff. intros [[H1 H2] H3].
  pose proof (forallb_elements _ _ H1) as W1.
  pose proof (forallb_elements _ _ H2) as W2.
  pose proof (forallb_elements _ _ H3) as W3.
  repeat split.
  - specialize (W1 b H). apply andb_true_iff in W1. tauto.
  - specialize (W1 b H). apply andb_true_iff in W1 as [_ W1]. unfold inside in W1.
    rewrite !andb_true_iff, !Z.leb_le in W1. tauto.
  - specialize (W1 b H). apply andb_true_iff in W1 as [_ W1]. unfold inside in W1.
    rewrite !andb_true_iff, !Z.leb_le in W1. tauto.
  - intros b c Hb Hc Hne. specialize (W2 b Hb). apply andb_true_iff in W2 as [W2 _].
    pose proof (forallb_elements _ _ W2 c Hc) as Hap. unfold apart in Hap.
    apply orb_true_iff in Hap as [Hap|Hap].
    + apply bool_decide_eq_true in Hap. contradiction.
    + apply negb_true_iff in Hap. exact Hap.
  - intros b c Hb Hc. specialize (W2 b Hb). apply andb_true_iff in W2 as [_ W2].
    pose proof (forallb_elements _ _ W2 c Hc) as Hap.
    apply negb_true_iff in Hap. exact Hap.
  - intros b Hb Hlt Hbud. specialize (W3 b Hb).
    apply orb_true_iff in W3 as [W3|W3].
    + apply Z.eqb_eq in W3. lia.
    + apply negb_true_iff, bool_decide_eq_false in W3. contradiction.
Qed.

Lemma aligned_divide (b : Block) :
  prefix b <= 32 -> aligned b = true -> (block_size (prefix b) | base b).
Proof.
  intros Hp H. unfold aligned in H. apply Z.eqb_eq in H.
  apply Z.mod_divide; [|exact H]. pose proof (block_size_pos _ Hp). lia.
Qed.

Lemma aligned_lower_half (b : Block) :
  prefix b < 32 -> aligned b = true -> aligned (lower_half b) = true.
Proof.
  intros Hp H. apply aligned_divide in H; [|lia].
  unfold aligned, lower_half. simpl. apply Z.eqb_eq.
  apply Z.mod_divide; [pose proof (block_size_pos (prefix b + 1)); lia|].
  eapply Z.divide_trans; [|exact H].
  rewrite (block_size_double (prefix b) Hp). exists 2. reflexivity.
Qed.

Lemma buddy_lower_half (b : Block) :
  prefix b < 32 -> aligned b = true -> buddy (lower_half b) = upper_half b.
Proof.
  intros Hp H. apply aligned_divide in H as [k Hk]; [|lia].
  unfold buddy, lower_half, upper_half. simpl. f_equal.
  unfold block_size. rewrite lxor_pow2 by lia.
  rewrite Hk. unfold block_size.
  rewrite Z.mul_pow2_bits_low by lia. reflexivity.
Qed.

Lemma parent_lower_half (b : Block) :
  prefix b < 32 -> aligned b = true -> parent (lower_half b) = b.
Proof.
  intros Hp H. unfold parent. rewrite (buddy_lower_half b Hp H).
  unfold lower_half, upper_half. simpl.
  pose proof (block_size_pos (prefix b + 1)).
  destruct b as [bb bp]. simpl in *. f_equal; lia.
Qed.

(** Coalescing from the block reserved merges the split siblings back
    one by one, up to the free block that was split. *)
Lemma coalesce_split (n m : nat) (b r : Block) (sibs : list Block) (X : gset Block) :
  aligned b = true ->
  prefix b + Z.of_nat n <= 32 ->
  (forall x, x ∈ X -> overlap x b = false) ->
  split_down n b = (r, sibs) ->
  coalesce (n + m) ({[ r ]} ∪ X ∪ list_to_set sibs) r = coalesce m ({[ b ]} ∪ X) b.
Proof.
  revert m b r sibs X. induction n as [|n IH]; intros m b r sibs X Hal Hle HX Hsplit.
  - simpl in Hsplit. injection Hsplit as <- <-. simpl.
    rewrite union_empty_r_L. reflexivity.
  - simpl in Hsplit.
    destruct (split_down n (lower_half b)) as [r1 sibs1] eqn:E.
    injection Hsplit as <- <-.
    assert (Hp : prefix b < 32) by lia.
    pose proof (lower_half_within b Hp) as Hlow.
    pose proof (upper_half_within b Hp) as Hup.
    assert (Hnl : lower_half b ∉ X).
    { intros Hin. specialize (HX _ Hin). rewrite overlap_sym in HX.
      rewrite within_overlap in HX; [discriminate|simpl; lia|exact Hlow]. }
    assert (Hnu : upper_half b ∉ X).
    { intros Hin. specialize (HX _ Hin). rewrite overlap_sym in HX.
      rewrite within_overlap in HX; [discriminate|simpl; lia|exact Hup]. }
    replace (S n + m)%nat with (n + S m)%nat by lia.
    replace ({[ r1 ]} ∪ X ∪ list_to_set (upper_half b :: sibs1))
      with ({[ r1 ]} ∪ (X ∪ {[ upper_half b ]}) ∪ list_to_set sibs1 : gset Block).
    2: { simpl. set_solver. }
    rewrite (IH (S m) (lower_half b) r1 sibs1 (X ∪ {[ upper_half b ]})).
    + simpl. rewrite (buddy_lower_half b Hp Hal), (parent_lower_half b Hp Hal).
      rewrite bool_decide_eq_true_2 by set_solver.
      f_equal. set_solver.
    + apply aligned_lower_half; assumption.
    + simpl. lia.
    + intros x Hx. apply elem_of_union in Hx as [Hx|Hx].
      * rewrite overlap_sym. eapply within_disjoint; [exact Hlow|].
        rewrite overlap_sym. apply HX, Hx.
      * apply elem_of_singleton in Hx as ->. apply halves_disjoint.
    + exact E.
Qed.

Lemma Reserve_Release (a a1 : Allocator) (p : Z) (r : Block) :
  well_formed a = true -> p <= 32 ->
  Reserve a p = Ok (r, a1) -> Release a1 r = Ok a.
Proof.
  intros Hwf Hp Hres.
  destruct (well_formed_spec a Hwf) as (W1 & W2 & W3 & W4).
  destruct (Reserve_spec _ _ _ _ Hres) as (b & sibs & Hb & Hle & Hpool & Hsplit & ->).
  destruct (W1 b Hb) as [Hal [Hlo Hhi]].
  destruct (split_down_spec _ _ _ _ Hsplit) as (Hr & Hw & _); [lia|].
  assert (Hpr : prefix r = p) by (rewrite Hr; simpl; lia).
  assert (Hnot : r ∉ allocated a).
  { intros Hin. specialize (W3 b r Hb Hin).
    rewrite within_overlap in W3; [discriminate|lia|exact Hw]. }
  unfold Release. simpl.
  rewrite bool_decide_eq_true_2 by set_solver.
  destruct a as [pl fs al]. simpl in *. do 2 f_equal.
  - rewrite Hpr.
    replace (Z.to_nat (p - pool_prefix pl))
      with (Z.to_nat (p - prefix b) + Z.to_nat (prefix b - pool_prefix pl))%nat by lia.
    replace ({[ r ]} ∪ (fs ∖ {[ b ]} ∪ list_to_set sibs))
      with ({[ r ]} ∪ fs ∖ {[ b ]} ∪ list_to_set sibs : gset Block) by set_solver.
    rewrite (coalesce_split _ _ b r sibs (fs ∖ {[ b ]})); [|exact Hal|lia| |exact Hsplit].
    + replace ({[ b ]} ∪ fs ∖ {[ b ]}) with fs.
      2: { apply union_difference_singleton_L, Hb. }
      destruct (Z.to_nat (prefix b - pool_prefix pl)) as [|m] eqn:Hm; [reflexivity|].
      simpl. rewrite bool_decide_eq_false_2; [reflexivity|]. apply W4; [exact Hb|lia].
    + intros x Hx. apply elem_of_difference in Hx as [Hx1 Hx2].
      apply W2; [exact Hx1|exact Hb|]. intros ->. apply Hx2. set_solver.
  - set_solver.
Qed.

(** *** The shape of the FreeSet is kept *)

Lemma inside_spec (p : Pool) (b : Block) :
  inside p b = true
  <-> pool_prefix p <= prefix b <= 32
      /\ pool_base p <= base b
      /\ block_end b <= pool_base p + block_size (pool_prefix p).
Proof. unfold inside. rewrite !andb_true_iff, !Z.leb_le. tauto. Qed.

Lemma inside_within (p : Pool) (b c : Block) :
  within c b -> inside p b = true -> prefix b <= prefix c <= 32 -> inside p c = true.
Proof. rewrite !inside_spec. unfold within. lia. Qed.

Lemma buddy_involutive (b : Block) : buddy (buddy b) = b.
Proof.
  unfold buddy. simpl. rewrite Z.lxor_assoc, Z.lxor_nilpotent, Z.lxor_0_r.
  destruct b; reflexivity.
Qed.

Lemma aligned_upper_half (b : Block) :
  prefix b < 32 -> aligned b = true -> aligned (upper_half b) = true.
Proof.
  intros Hp H. apply aligned_divide in H as [k Hk]; [|lia].
  unfold aligned, upper_half. simpl. apply Z.eqb_eq.
  apply Z.mod_divide; [pose proof (block_size_pos (prefix b + 1)); lia|].
  exists (2 * k + 1). rewrite Hk, (block_size_double (prefix b) Hp). lia.
Qed.

Lemma buddy_upper_half (b : Block) :
  prefix b < 32 -> aligned b = true -> buddy (upper_half b) = lower_half b.
Proof.
  intros Hp H. rewrite <- (buddy_lower_half b Hp H). apply buddy_involutive.
Qed.

Lemma parent_bit (b : Block) :
  prefix b <= 32 ->
  base (parent b)
  = if Z.testbit (base b) (32 - prefix b) then base b - block_size (prefix b)
    else base b.
Proof.
  intros Hp. unfold parent, buddy, block_size. simpl.
  rewrite lxor_pow2 by lia.
  pose proof (block_size_pos _ Hp) as Hpos. unfold block_size in Hpos.
  destruct (Z.testbit (base b) (32 - prefix b)); lia.
Qed.

Lemma aligned_parent (b : Block) :
  prefix b <= 32 -> aligned b = true -> aligned (parent b) = true.
Proof.
  intros Hp H. apply aligned_divide in H as [k Hk]; [|exact Hp].
  pose proof (block_size_pos _ Hp) as Hpos.
  assert (Hd : block_size (prefix b - 1) = 2 * block_size (prefix b)).
  { rewrite (block_size_double (prefix b - 1)) by lia. do 2 f_equal. lia. }
  assert (Hbit : Z.testbit (base b) (32 - prefix b) = Z.testbit k 0).
  { rewrite Hk. unfold block_size.
    replace (32 - prefix b) with (32 - prefix b + 0) at 2 by lia.
    apply Z.mul_pow2_bits_add. lia. }
  pose proof (Z.bit0_mod k) as Hmod.
  pose proof (Z.div_mod k 2 ltac:(lia)) as Hdm.
  unfold aligned. apply Z.eqb_eq. apply Z.mod_divide.
  { replace (prefix (parent b)) with (prefix b - 1) by reflexivity. lia. }
  replace (prefix (parent b)) with (prefix b - 1) by reflexivity.
  rewrite (parent_bit b Hp), Hbit, Hd.
  destruct (Z.testbit k 0); simpl in Hmod; exists (k / 2); lia.
Qed.

Lemma parent_within_pool (p : Pool) (b : Block) :
  pool_prefix p < prefix b ->
  inside p b = true -> inside p (buddy b) = true -> inside p (parent b) = true.
Proof.
  rewrite !inside_spec. intros Hlt (Hb1 & Hb2 & Hb3) (Hc1 & Hc2 & Hc3).
  destruct (parent_halves b) as [Hpp Hcases]; [lia|].
  unfold block_end in *. rewrite Hpp.
  replace (prefix (buddy b)) with (prefix b) in * by reflexivity.
  assert (Hd : block_size (prefix b - 1) = 2 * block_size (prefix b)).
  { rewrite (block_size_double (prefix b - 1)) by lia. do 2 f_equal. lia. }
  rewrite Hd. destruct Hcases as [[E1 E2]|[E1 E2]]; rewrite E2; lia.
Qed.

Lemma split_down_aligned (n : nat) (b r : Block) (sibs : list Block) :
  aligned b = true ->
  prefix b + Z.of_nat n <= 32 ->
  split_down n b = (r, sibs) ->
  aligned r = true
  /\ (forall s, s ∈ sibs ->
                aligned s = true /\ prefix b < prefix s
                /\ within (buddy s) b /\ within r (buddy s)).
Proof.
  revert b r sibs. induction n as [|n IH]; intros b r sibs Hal Hle Hsplit.
  - simpl in Hsplit. injection Hsplit as <- <-. split; [exact Hal|].
    intros s Hs. apply elem_of_nil in Hs. contradiction.
  - simpl in Hsplit.
    destruct (split_down n (lower_half b)) as [r1 sibs1] eqn:E.
    injection Hsplit as <- <-.
    assert (Hp : prefix b < 32) by lia.
    pose proof (aligned_lower_half b Hp Hal) as Hall.
    destruct (IH (lower_half b) r1 sibs1 Hall ltac:(simpl; lia) E) as [Hr Hs].
    destruct (split_down_spec _ _ _ _ E ltac:(simpl; lia)) as (_ & Hw & _).
    pose proof (lower_half_within b Hp) as Hlow.
    split; [exact Hr|]. intros s Hin. apply elem_of_cons in Hin as [->|Hin].
    + rewrite (buddy_upper_half b Hp Hal).
      split; [apply aligned_upper_half; assumption|].
      split; [simpl; lia|]. split; [exact Hlow|exact Hw].
    + destruct (Hs s Hin) as (H1 & H2 & H3 & H4).
      split; [exact H1|]. split; [simpl in H2; lia|].
      split; [eapply within_trans; eauto|exact H4].
Qed.

Lemma tidy_Reserve (a a1 : Allocator) (p : Z) (r : Block) :
  tidy a -> p <= 32 -> Reserve a p = Ok (r, a1) -> tidy a1.
Proof.
  intros (T1 & T2 & T3 & T4) Hp Hres.
  destruct (Reserve_spec _ _ _ _ Hres) as (b & sibs & Hb & Hle & Hpool & Hsplit & ->).
  assert (Hbu : b ∈ free a ∪ allocated a) by (apply elem_of_union; auto).
  destruct (T1 b Hbu) as [Hal Hinb].
  pose proof (proj1 (inside_spec _ _) Hinb) as (Hpb & _).
  destruct (split_down_spec _ _ _ _ Hsplit) as (Hr & Hw & Hs & Hsp); [lia|].
  assert (Hfit : prefix b + Z.of_nat (Z.to_nat (p - prefix b)) <= 32) by lia.
  destruct (split_down_aligned _ _ _ _ Hal Hfit Hsplit) as [Har Hsa].
  assert (Hpr : prefix r = p) by (rewrite Hr; simpl; lia).
  (* old blocks are apart from [b]; new blocks lie within it *)
  assert (Hold : forall x, x ∈ free a ∪ allocated a -> x <> b ->
                           forall y, within y b -> overlap x y = false).
  { intros x Hx Hne y Hy. rewrite overlap_sym. eapply within_disjoint; [exact Hy|].
    apply T2; auto. }
  assert (Hnew : forall y, y ∈ sibs \/ y = r ->
                           within y b /\ aligned y = true
                           /\ prefix b <= prefix y <= 32).
  { intros y [Hy| ->].
    - destruct (Hs y Hy) as (H1 & _ & H3). destruct (Hsa y Hy) as (H4 & H5 & _).
      split; [exact H1|]. split; [exact H4|]. lia.
    - split; [exact Hw|]. split; [exact Har|]. lia. }
  assert (Hcase : forall x,
             x ∈ ((free a ∖ {[ b ]}) ∪ list_to_set sibs) ∪ (allocated a ∪ {[ r ]}) ->
             (x ∈ free a ∪ allocated a /\ x <> b) \/ (x ∈ sibs \/ x = r)).
  { intros x Hx. rewrite !elem_of_union, elem_of_difference, !elem_of_singleton,
      elem_of_list_to_set in Hx.
    destruct Hx as [[[H1 H2]|H1]|[H1|H1]]; auto.
    - left. split; [apply elem_of_union; auto|exact H2].
    - left. split; [apply elem_of_union; auto|]. intros ->. apply (T3 b Hb H1). }
  assert (Hfree : forall x, x ∈ (free a ∖ {[ b ]}) ∪ list_to_set sibs ->
                            (x ∈ free a /\ x <> b) \/ x ∈ sibs).
  { intros x Hx. rewrite elem_of_union, elem_of_difference, elem_of_singleton,
      elem_of_list_to_set in Hx. tauto. }
  unfold tidy. simpl. repeat split.
  - destruct (Hcase b0 H) as [[H1 _]|H1]; [apply (T1 b0 H1)|apply (Hnew b0 H1)].
  - destruct (Hcase b0 H) as [[H1 _]|H1]; [apply (T1 b0 H1)|].
    destruct (Hnew b0 H1) as (H2 & _ & H3).
    eapply inside_within; eauto.
  - intros x y Hx Hy Hne.
    destruct (Hcase x Hx) as [[Hx1 Hx2]|Hx1]; destruct (Hcase y Hy) as [[Hy1 Hy2]|Hy1].
    + apply T2; auto.
    + apply Hold; auto. apply (Hnew y Hy1).
    + rewrite overlap_sym. apply Hold; auto. apply (Hnew x Hx1).
    + destruct Hx1 as [Hx1| ->]; destruct Hy1 as [Hy1| ->].
      * apply Hsp; auto.
      * apply (Hs x Hx1).
      * rewrite overlap_sym. apply (Hs y Hy1).
      * congruence.
  - intros x Hx Hxa. rewrite elem_of_union, elem_of_singleton in Hxa.
    destruct (Hfree x Hx) as [[Hx1 Hx2]|Hx1].
    + destruct Hxa as [Hxa| ->]; [apply (T3 x Hx1 Hxa)|].
      assert (Hov : overlap b r = false).
      { apply T2; auto. apply elem_of_union; auto. }
      rewrite within_overlap in Hov; [discriminate|lia|exact Hw].
    + destruct (Hs x Hx1) as (H1 & H2 & H3).
      destruct Hxa as [Hxa| ->].
      * assert (Hov : overlap b x = false).
        { apply T2; auto; [apply elem_of_union; auto|].
          intros <-. apply (T3 b Hb Hxa). }
        rewrite within_overlap in Hov; [discriminate|exact H3|exact H1].
      * rewrite overlap_self in H2; [discriminate|lia].
  - intros x Hx Hlt Hbud.
    destruct (Hfree x Hx) as [[Hx1 Hx2]|Hx1]; destruct (Hfree _ Hbud) as [[Hb1 Hb2]|Hb1].
    + apply (T4 x Hx1 Hlt Hb1).
    + destruct (Hsa _ Hb1) as (_ & _ & H3 & _). rewrite buddy_involutive in H3.
      assert (Hov : overlap b x = false).
      { apply T2; auto. apply elem_of_union; auto. }
      destruct (T1 x ltac:(apply elem_of_union; auto)) as [_ Hix].
      apply inside_spec in Hix as (Hix & _).
      rewrite within_overlap in Hov; [discriminate|lia|exact H3].
    + destruct (Hsa x Hx1) as (_ & _ & H3 & _). destruct (Hs x Hx1) as (_ & _ & H5).
      assert (Hov : overlap b (buddy x) = false).
      { apply T2; auto. apply elem_of_union; auto. }
      rewrite within_overlap in Hov; [discriminate|exact H5|exact H3].
    + destruct (Hsa x Hx1) as (_ & _ & _ & H4).
      destruct (Hs _ Hb1) as (_ & H2 & H3).
      rewrite within_overlap in H2; [discriminate|lia|exact H4].
Qed.

Lemma coalesce_shape (n : nat) (fs : gset Block) (c : Block) (pl : Pool) :
  Z.of_nat n = prefix c - pool_prefix pl ->
  c ∈ fs ->
  (forall b, b ∈ fs -> aligned b = true /\ inside pl b = true) ->
  (forall f, f ∈ fs -> f <> c -> f <> buddy c -> pool_prefix pl < prefix f ->
             buddy f ∉ fs) ->
  (forall b, b ∈ coalesce n fs c -> aligned b = true /\ inside pl b = true)
  /\ (forall f, f ∈ coalesce n fs c -> pool_prefix pl < prefix f ->
                buddy f ∉ coalesce n fs c).
Proof.
  revert fs c. induction n as [|n IH]; intros fs c Hn Hc Hshape Hbud; simpl.
  - split; [exact Hshape|]. intros f Hf Hlt. apply Hbud; auto.
    + intros ->. lia.
    + intros ->. simpl in Hlt. lia.
  - destruct (bool_decide (buddy c ∈ fs)) eqn:Hb.
    + apply bool_decide_eq_true in Hb.
      destruct (Hshape c Hc) as [Hac Hic]. destruct (Hshape _ Hb) as [_ Hib].
      pose proof (proj1 (inside_spec _ _) Hic) as (Hpc & _).
      apply IH.
      * simpl. lia.
      * set_solver.
      * intros b Hin. rewrite elem_of_union, elem_of_difference, elem_of_singleton in Hin.
        destruct Hin as [[Hin _]| ->]; [auto|].
        split; [apply aligned_parent; [lia|exact Hac]|].
        apply parent_within_pool; [lia|exact Hic|exact Hib].
      * intros f Hf Hne1 Hne2 Hlt Hin.
        rewrite elem_of_union, elem_of_difference, elem_of_singleton in Hf.
        destruct Hf as [[Hf Hnot]|Hf]; [|contradiction].
        rewrite elem_of_union, elem_of_difference, elem_of_singleton in Hin.
        destruct Hin as [[Hin _]|Hin].
        -- apply (Hbud f Hf); auto; intros ->; apply Hnot; set_solver.
        -- apply Hne2. rewrite <- Hin. symmetry. apply buddy_involutive.
    + apply bool_decide_eq_false in Hb. split; [exact Hshape|].
      intros f Hf Hlt. destruct (decide (f = c)) as [->|Hne]; [exact Hb|].
      destruct (decide (f = buddy c)) as [->|Hne2]; [contradiction|].
      apply Hbud; auto.
Qed.

Lemma tidy_Release (a a1 : Allocator) (x : Block) :
  tidy a -> Release a x = Ok a1 -> tidy a1.
Proof.
  intros (T1 & T2 & T3 & T4) Hrel. unfold Release in Hrel.
  destruct (bool_decide (x ∈ allocated a)) eqn:Hx; [|discriminate].
  apply bool_decide_eq_true in Hx. injection Hrel as <-.
  assert (Hxu : x ∈ free a ∪ allocated a) by (apply elem_of_union; auto).
  destruct (T1 x Hxu) as [Hax Hix].
  pose proof (proj1 (inside_spec _ _) Hix) as (Hpx & _).
  assert (Hfs0 : forall f, f ∈ {[ x ]} ∪ free a -> f ∈ free a ∪ allocated a).
  { intros f Hf. rewrite elem_of_union, elem_of_singleton in Hf.
    destruct Hf as [->|Hf]; [exact Hxu|apply elem_of_union; auto]. }
  assert (Hpre : forall f, f ∈ free a ∪ allocated a -> prefix f <= 32).
  { intros f Hf. destruct (T1 f Hf) as [_ Hi]. apply inside_spec in Hi. lia. }
  destruct (coalesce_free (Z.to_nat (prefix x - pool_prefix (pool a)))
              ({[ x ]} ∪ free a) x) as (C1 & C2 & C3).
  { intros f Hf. apply Hpre, Hfs0, Hf. }
  { intros f g Hf Hg Hne. apply T2; auto. }
  { set_solver. }
  destruct (coalesce_shape (Z.to_nat (prefix x - pool_prefix (pool a)))
              ({[ x ]} ∪ free a) x (pool a)) as (S1 & S2).
  { lia. }
  { set_solver. }
  { intros b Hb. apply T1, Hfs0, Hb. }
  { intros f Hf Hne1 Hne2 Hlt Hin.
    rewrite elem_of_union, elem_of_singleton in Hf. destruct Hf as [->|Hf]; [congruence|].
    rewrite elem_of_union, elem_of_singleton in Hin. destruct Hin as [Hin|Hin].
    - apply Hne2. rewrite <- Hin. symmetry. apply buddy_involutive.
    - apply (T4 f Hf Hlt Hin). }
  assert (Havoid : forall f y, f ∈ coalesce (Z.to_nat (prefix x - pool_prefix (pool a)))
                                   ({[ x ]} ∪ free a) x ->
                               y ∈ allocated a ∖ {[ x ]} -> overlap f y = false).
  { intros f y Hf Hy. rewrite elem_of_difference, elem_of_singleton in Hy.
    destruct Hy as [Hy1 Hy2].
    apply (C3 y); [apply Hpre, elem_of_union; auto| |exact Hf].
    intros g Hg. apply T2; [apply Hfs0, Hg|apply elem_of_union; auto|].
    intros ->. rewrite elem_of_union, elem_of_singleton in Hg.
    destruct Hg as [Hg|Hg]; [congruence|apply (T3 y Hg Hy1)]. }
  unfold tidy. simpl. repeat split.
  - rewrite elem_of_union in H. destruct H as [H|H]; [apply (S1 b H)|].
    apply T1. rewrite elem_of_difference in H. apply elem_of_union. tauto.
  - rewrite elem_of_union in H. destruct H as [H|H]; [apply (S1 b H)|].
    apply T1. rewrite elem_of_difference in H. apply elem_of_union. tauto.
  - intros f g Hf Hg Hne. rewrite elem_of_union in Hf, Hg.
    destruct Hf as [Hf|Hf]; destruct Hg as [Hg|Hg].
    + apply C2; auto.
    + apply Havoid; auto.
    + rewrite overlap_sym. apply Havoid; auto.
    + rewrite elem_of_difference in Hf, Hg.
      apply T2; auto; apply elem_of_union; tauto.
  - intros f Hf Hfa. pose proof (Havoid f f Hf Hfa) as Hov.
    rewrite overlap_self in Hov; [discriminate|apply C1, Hf].
  - exact S2.
Qed.

Lemma forallb_elements_intro (P : Block -> bool) (fs : gset Block) :
  (forall x, x ∈ fs -> P x = true) -> forallb P (elements fs) = true.
Proof.
  intros H. apply forallb_forall. intros x Hx. apply H.
  apply elem_of_elements, list_elem_of_In, Hx.
Qed.

Lemma tidy_well_formed (a : Allocator) : tidy a -> well_formed a = true.
Proof.
  intros (T1 & T2 & T3 & T4). unfold well_formed. rewrite !andb_true_iff.
  repeat split; apply forallb_elements_intro; intros b Hb.
  - apply andb_true_iff. apply T1. apply elem_of_union; auto.
  - apply andb_true_iff. split; apply forallb_elements_intro; intros c Hc.
    + unfold apart. destruct (decide (b = c)) as [->|Hne].
      * rewrite bool_decide_eq_true_2 by reflexivity. reflexivity.
      * rewrite (T2 b c); [apply orb_true_r| | |exact Hne]; apply elem_of_union; auto.
    + rewrite (T2 b c); [reflexivity| | |]; try (apply elem_of_union; auto).
      intros ->. apply (T3 c Hb Hc).
  - destruct (Z.eqb_spec (prefix b) (pool_prefix (pool a))) as [|Hne]; [reflexivity|].
    simpl. apply negb_true_iff, bool_decide_eq_false. apply T4; [exact Hb|].
    destruct (T1 b) as [_ Hi]; [apply elem_of_union; auto|].
    apply inside_spec in Hi. lia.
Qed.

Lemma tidy_fresh (p : Pool) :
  aligned (whole p) = true -> pool_prefix p <= 32 -> tidy (fresh_allocator p).
Proof.
  intros Hal Hp. unfold tidy, fresh_allocator. simpl.
  assert (Hw : forall b : Block, b ∈ ({[ whole p ]} ∪ ∅ : gset Block) -> b = whole p).
  { intros b Hb. set_solver. }
  repeat split.
  - rewrite (Hw b H). exact Hal.
  - rewrite (Hw b H). apply inside_spec. unfold whole, block_end. simpl. lia.
  - intros b c Hb Hc. rewrite (Hw b Hb), (Hw c Hc). congruence.
  - intros b _ Hb. set_solver.
  - intros b Hb Hlt. apply elem_of_singleton in Hb as ->. simpl in Hlt. lia.
Qed.

End Blocks.

Section LedgerProperties.
Import Engine.

Lemma resolve_hosts_range (h p : Z) : resolve_hosts h = Ok p -> 20 <= p <= 26.
Proof.
  unfold resolve_hosts.
  destruct (List.find (in_row h) sizing_table) as [r|] eqn:E; [|discriminate].
  intros [= <-]. apply List.find_some in E as [Hin _].
  unfold sizing_table in Hin. simpl in Hin.
  repeat (destruct Hin as [<-|Hin]; [simpl; lia|]). contradiction.
Qed.

Lemma SizingResolver_range (req : SizingRequest) (pp cp : Z) :
  SizingResolver req = Ok (pp, cp) -> 20 <= pp <= 26 /\ 15 <= cp <= 21.
Proof.
  unfold SizingResolver. intros H.
  assert (Hpp : 20 <= pp <= 26 /\ cp = cgnat_prefix pp).
  { destruct req as [h|p].
    - destruct (resolve_hosts h) as [q|] eqn:E; [|discriminate].
      injection H as <- <-. split; [eapply resolve_hosts_range; eauto|reflexivity].
    - unfold resolve_prefix in H.
      destruct (Z.leb_spec 20 p); [|discriminate].
      destruct (Z.leb_spec p 26); [|discriminate].
      injection H as <- <-. split; [lia|reflexivity]. }
  destruct Hpp as [Hpp ->]. split; [exact Hpp|]. unfold cgnat_prefix, clamp. lia.
Qed.

Lemma safe_snoc_drop (a : Allocator) (held : list Block) (x : Block) :
  safe a (held ++ [x]) -> safe a held.
Proof.
  intros H. apply (safe_drop a x held []) in H. rewrite app_nil_r in H. exact H.
Qed.

(** The pools after [Allocate], whatever its outcome, keep the blocks
    held apart; on success the two new blocks are held as well. *)
Lemma Allocate_safe (ps ps1 : Pools) (req : SizingRequest)
      (res : Result (Block * Block)) (hp hc : list Block) :
  safe (primary_alloc ps) hp -> safe (cgnat_alloc ps) hc ->
  Allocate ps req = (res, ps1) ->
  match res with
  | Ok (pb, cb) =>
      safe (primary_alloc ps1) (hp ++ [pb]) /\ safe (cgnat_alloc ps1) (hc ++ [cb])
  | Err _ => safe (primary_alloc ps1) hp /\ safe (cgnat_alloc ps1) hc
  end.
Proof.
  intros Hp Hc. unfold Allocate.
  destruct (SizingResolver req) as [[pp cp]|e] eqn:Hs; [|intros [= <- <-]; auto].
  destruct (SizingResolver_range _ _ _ Hs) as [Hpp Hcp].
  destruct (Reserve (primary_alloc ps) pp) as [[pb prim]|e] eqn:Hr1;
    [|intros [= <- <-]; auto].
  assert (Hpp1 : pp <= 32) by lia. assert (Hcp1 : cp <= 32) by lia.
  pose proof (safe_Reserve _ _ _ _ _ Hp Hpp1 Hr1) as Hp1.
  destruct (Reserve (cgnat_alloc ps) cp) as [[cb cg]|e] eqn:Hr2.
  - intros [= <- <-]. simpl. split; [exact Hp1|].
    apply (safe_Reserve _ _ _ _ _ Hc Hcp1 Hr2).
  - destruct (Release prim pb) as [prim1|e1] eqn:Hrel; intros [= <- <-]; simpl.
    + split; [|exact Hc].
      pose proof (safe_Release prim prim1 pb hp [] Hp1 Hrel) as H.
      rewrite app_nil_r in H. exact H.
    + split; [|exact Hc]. eapply safe_snoc_drop; eauto.
Qed.

Lemma Release_safe_either (a : Allocator) (x : Block) (l1 l2 : list Block) :
  safe a (l1 ++ x :: l2) ->
  safe (match Release a x with Ok a1 => a1 | Err _ => a end) (l1 ++ l2).
Proof.
  intros H. destruct (Release a x) as [a1|e] eqn:E.
  - eapply safe_Release; eauto.
  - eapply safe_drop; eauto.
Qed.

Lemma take_row_spec (id : Z) (rs rest : list Allocation) (r : Allocation) :
  take_row id rs = Some (r, rest) ->
  exists l1 l2, rs = l1 ++ r :: l2 /\ rest = l1 ++ l2.
Proof.
  revert rest. induction rs as [|x rs IH]; intros rest; simpl; [discriminate|].
  destruct (has_id id x).
  - intros [= <- <-]. exists [], rs. auto.
  - destruct (take_row id rs) as [[y rest1]|]; [|discriminate].
    intros [= <- <-]. destruct (IH rest1 eq_refl) as (l1 & l2 & -> & ->).
    exists (x :: l1), l2. auto.
Qed.

Lemma Create_safe (l : Ledger) (v : string) (req : SizingRequest) (now : Z) :
  ledger_safe l -> ledger_safe (snd (Create l v req now)).
Proof.
  intros [Hp Hc]. unfold Create.
  destruct (Allocate (pools l) req) as [res ps1] eqn:E.
  pose proof (Allocate_safe _ _ _ _ _ _ Hp Hc E) as H.
  destruct res as [[pb cb]|e]; simpl; unfold ledger_safe; simpl.
  - rewrite !map_app. simpl. exact H.
  - exact H.
Qed.

Lemma reparent_blocks (id : Z) (v : string) (rs : list Allocation) :
  map primary_block (map (reparent id v) rs) = map primary_block rs
  /\ map cgnat_block (map (reparent id v) rs) = map cgnat_block rs.
Proof.
  split; rewrite map_map; apply map_ext; intros r; unfold reparent;
    destruct (has_id id r); reflexivity.
Qed.

Lemma Move_safe (l : Ledger) (id : Z) (v : string) :
  ledger_safe l -> ledger_safe (snd (Move l id v)).
Proof.
  intros [Hp Hc]. unfold Move. destruct (existsb (has_id id) (rows l)); [|split; auto].
  unfold ledger_safe. simpl. destruct (reparent_blocks id v (rows l)) as [-> ->].
  split; assumption.
Qed.

Lemma Delete_safe (l : Ledger) (id : Z) :
  ledger_safe l -> ledger_safe (snd (Delete l id)).
Proof.
  intros [Hp Hc]. unfold Delete.
  destruct (take_row id (rows l)) as [[r rest]|] eqn:E; [|split; auto].
  destruct (take_row_spec _ _ _ _ E) as (l1 & l2 & Hrows & ->).
  rewrite Hrows, !map_app in Hp, Hc. simpl in Hp, Hc.
  pose proof (Release_safe_either _ _ _ _ Hp) as Hp1.
  pose proof (Release_safe_either _ _ _ _ Hc) as Hc1.
  unfold Deallocate.
  destruct (Release (primary_alloc (pools l)) (primary_block r)) as [prim|e1];
    destruct (Release (cgnat_alloc (pools l)) (cgnat_block r)) as [cg|e2];
    unfold ledger_safe; simpl; rewrite !map_app; split; assumption.
Qed.

Lemma Delete_fold_safe (owned : list Allocation) (l : Ledger) :
  ledger_safe l ->
  ledger_safe (fold_left (fun acc r => snd (Delete acc (allocation_id r))) owned l).
Proof.
  revert l. induction owned as [|r owned IH]; intros l H; simpl; [exact H|].
  apply IH, Delete_safe, H.
Qed.

Lemma DeleteVpc_safe (l : Ledger) (name : string) :
  ledger_safe l -> ledger_safe (snd (DeleteVpc l name)).
Proof.
  intros H. unfold DeleteVpc. destruct (known_vpc name (vpcs l)); [|exact H].
  simpl. apply (Delete_fold_safe _ l H).
Qed.

Lemma fresh_allocator_safe (p : Pool) :
  pool_prefix p <= 32 -> safe (fresh_allocator p) [].
Proof.
  intros Hp. unfold safe, fresh_allocator. simpl. repeat split.
  - intros x Hx. apply elem_of_nil in Hx. contradiction.
  - intros f Hf. apply elem_of_singleton in Hf as ->. exact Hp.
  - apply pairwise_nil.
  - intros f g Hf Hg. apply elem_of_singleton in Hf, Hg. congruence.
  - intros x f Hx. apply elem_of_nil in Hx. contradiction.
Qed.

Lemma step_safe (l : Ledger) (op : Op) : ledger_safe l -> ledger_safe (step l op).
Proof.
  intros H. destruct op; simpl.
  - apply Create_safe, H.
  - apply Move_safe, H.
  - apply Delete_safe, H.
  - apply DeleteVpc_safe, H.
Qed.

Lemma run_safe (ops : list Op) : ledger_safe (run ops).
Proof.
  unfold run.
  assert (H : ledger_safe fresh_ledger).
  { split; apply fresh_allocator_safe; simpl; lia. }
  revert H. generalize fresh_ledger. induction ops as [|op ops IH]; intros l H; simpl.
  - exact H.
  - apply IH, step_safe, H.
Qed.

(** *** Every state the ledger reaches has well-formed pools *)

Lemma Allocate_tidy (ps : Pools) (req : SizingRequest) :
  tidy (primary_alloc ps) -> tidy (cgnat_alloc ps) ->
  tidy (primary_alloc (snd (Allocate ps req)))
  /\ tidy (cgnat_alloc (snd (Allocate ps req))).
Proof.
  intros Hp Hc. unfold Allocate.
  destruct (SizingResolver req) as [[pp cp]|e] eqn:Hs; [|simpl; auto].
  destruct (SizingResolver_range _ _ _ Hs) as [Hpp Hcp].
  assert (Hpp1 : pp <= 32) by lia. assert (Hcp1 : cp <= 32) by lia.
  destruct (Reserve (primary_alloc ps) pp) as [[pb prim]|e] eqn:Hr1; [|simpl; auto].
  pose proof (tidy_Reserve _ _ _ _ Hp Hpp1 Hr1) as Hp1.
  destruct (Reserve (cgnat_alloc ps) cp) as [[cb cg]|e] eqn:Hr2.
  - simpl. split; [exact Hp1|]. apply (tidy_Reserve _ _ _ _ Hc Hcp1 Hr2).
  - destruct (Release prim pb) as [prim1|e1] eqn:Hrel; simpl.
    + split; [|exact Hc]. apply (tidy_Release _ _ _ Hp1 Hrel).
    + split; assumption.
Qed.

Lemma Deallocate_tidy (ps : Pools) (pb cb : Block) :
  tidy (primary_alloc ps) -> tidy (cgnat_alloc ps) ->
  tidy (primary_alloc (snd (Deallocate ps pb cb)))
  /\ tidy (cgnat_alloc (snd (Deallocate ps pb cb))).
Proof.
  intros Hp Hc. unfold Deallocate.
  destruct (Release (primary_alloc ps) pb) as [prim|e1] eqn:E1;
    destruct (Release (cgnat_alloc ps) cb) as [cg|e2] eqn:E2; simpl;
    split; try assumption;
    first [apply (tidy_Release _ _ _ Hp E1)|apply (tidy_Release _ _ _ Hc E2)].
Qed.

Lemma step_tidy (l : Ledger) (op : Op) :
  tidy (primary_alloc (pools l)) /\ tidy (cgnat_alloc (pools l)) ->
  tidy (primary_alloc (pools (step l op))) /\ tidy (cgnat_alloc (pools (step l op))).
Proof.
  assert (Hdel : forall l id,
             tidy (primary_alloc (pools l)) /\ tidy (cgnat_alloc (pools l)) ->
             tidy (primary_alloc (pools (snd (Delete l id))))
             /\ tidy (cgnat_alloc (pools (snd (Delete l id))))).
  { intros l0 id [Hp Hc]. unfold Delete.
    destruct (take_row id (rows l0)) as [[r rest]|]; [|simpl; auto].
    pose proof (Deallocate_tidy (pools l0) (primary_block r) (cgnat_block r) Hp Hc) as H.
    destruct (Deallocate (pools l0) (primary_block r) (cgnat_block r)). exact H. }
  intros [Hp Hc]. destruct op as [v req now|id v|id|name]; simpl.
  - unfold Create. pose proof (Allocate_tidy (pools l) req Hp Hc) as H.
    destruct (Allocate (pools l) req) as [[[pb cb]|e] ps1]; exact H.
  - unfold Move. destruct (existsb (has_id id) (rows l)); simpl; auto.
  - apply Hdel. auto.
  - unfold DeleteVpc. destruct (known_vpc name (vpcs l)); [|simpl; auto].
    simpl. generalize (List.filter (fun r => String.eqb (vpc r) name) (rows l)).
    intros owned. revert l Hp Hc. induction owned as [|r owned IH]; intros l Hp Hc; simpl.
    + auto.
    + destruct (Hdel l (allocation_id r) (conj Hp Hc)) as [Hp1 Hc1]. apply IH; assumption.
Qed.

Lemma run_well_formed (ops : list Op) :
  well_formed (primary_alloc (pools (run ops))) = true
  /\ well_formed (cgnat_alloc (pools (run ops))) = true.
Proof.
  assert (H : tidy (primary_alloc (pools (run ops)))
              /\ tidy (cgnat_alloc (pools (run ops)))).
  { unfold run.
    assert (H0 : tidy (primary_alloc (pools fresh_ledger))
                 /\ tidy (cgnat_alloc (pools fresh_ledger))).
    { split; apply tidy_fresh; try reflexivity; simpl; lia. }
    revert H0. generalize fresh_ledger.
    induction ops as [|op ops IH]; intros l H0; simpl; [exact H0|].
    apply IH, step_tidy, H0. }
  destruct H. split; apply tidy_well_formed; assumption.
Qed.

(** C3: if, during Allocate, the primary Reserve succeeds and the CGNAT
    Reserve fails, then releasing the primary block gives back the
    primary allocator exactly as it was (the FreeSet and the blocks handed
    out), Allocate returns the CGNAT failure with the pools as they were
    before the call, and Create leaves the ledger as it was (no row is
    added), provided the primary FreeSet was in the shape
    section 3 requires ([well_formed]; by [run_well_formed] the pools of
    every state the ledger reaches are in that shape). *)
Theorem failed_pairing_restores_primary
        (ps : Pools) (req : SizingRequest) (pp cp : Z) (pb : Block)
        (prim : Allocator) (e : EngineError) :
  well_formed (primary_alloc ps) = true ->
  SizingResolver req = Ok (pp, cp) ->
  Reserve (primary_alloc ps) pp = Ok (pb, prim) ->
  Reserve (cgnat_alloc ps) cp = Err e ->
  Release prim pb = Ok (primary_alloc ps)
  /\ Allocate ps req = (Err e, ps)
  /\ free (primary_alloc (snd (Allocate ps req))) = free (primary_alloc ps)
  /\ (forall held names next v now,
        Create (mkLedger ps held names next) v req now
        = (Err e, mkLedger ps held names next)).
Proof.
  intros Hwf Hs Hr1 Hr2.
  destruct (SizingResolver_range _ _ _ Hs) as [Hpp _].
  assert (Hrel : Release prim pb = Ok (primary_alloc ps)).
  { eapply Reserve_Release; [exact Hwf| |exact Hr1]. lia. }
  assert (Hall : Allocate ps req = (Err e, ps)).
  { unfold Allocate. rewrite Hs, Hr1, Hr2, Hrel. destruct ps; reflexivity. }
  split; [exact Hrel|]. split; [exact Hall|].
  split; [rewrite Hall; reflexivity|].
  intros held names next v now. unfold Create. simpl. rewrite Hall. reflexivity.
Qed.

Lemma failed_pairing_restores_primary_witness :
  Allocate cgnat_exhausted (ByHosts 100) = (Err PoolExhausted, cgnat_exhausted).
Proof.
  eapply (failed_pairing_restores_primary cgnat_exhausted (ByHosts 100)).
  - vm_compute. reflexivity.
  - reflexivity.
  - reflexivity.
  - reflexivity.
Defined.

(** The scenario of section 8: the /25 freed by the first Delete is the
    block the next request of that size gets. *)
Example freed_block_is_reused :
  map (fun r => (allocation_id r, vpc r, primary_block r, cgnat_block r))
      (List (run [OpCreate "a" (ByHosts 100) 0; OpCreate "a" (ByHosts 500) 1;
                  OpDelete 1; OpCreate "b" (ByHosts 60) 2]))
  = [(2, "a"%string, mkBlock 167772672 23, mkBlock 1681932288 18);
     (3, "b"%string, mkBlock 167772160 25, mkBlock 1681915904 20)].
Proof. vm_compute. reflexivity. Qed.

(** C2: after any sequence of Create, Move, Delete and DeleteVpc on
    fresh pools, no two live allocations have overlapping primary blocks
    and no two have overlapping CGNAT blocks. *)
Theorem live_allocations_never_overlap (ops : list Op) :
  pairwise_disjoint (map primary_block (List (run ops)))
  /\ pairwise_disjoint (map cgnat_block (List (run ops))).
Proof.
  destruct (run_safe ops) as [(_ & _ & Hp & _) (_ & _ & Hc & _)].
  split; assumption.
Qed.

End LedgerProperties.

(** ** How computations end, and what they leave alone *)

Section Outcomes.
Import Js Browser.

Lemma completes_ret {A} (a : A) : completes (ret a).
Proof. intros w. exists a. reflexivity. Qed.

Lemma completes_gets {A} (f : World -> A) : completes (gets f).
Proof. intros w. exists (f w). reflexivity. Qed.

Lemma completes_modify (f : World -> World) : completes (modify f).
Proof. intros w. exists tt. reflexivity. Qed.

Lemma completes_bind {A B} (m : M A) (k : A -> M B) :
  completes m -> (forall a, completes (k a)) -> completes (bind m k).
Proof.
  intros Hm Hk w. unfold bind. destruct (Hm w) as [a Ha].
  destruct (m w) as [c w1]. simpl in Ha. subst c. apply Hk.
Qed.

Lemma completes_settles {A} (m : M A) : completes m -> settles m.
Proof. intros H w. destruct (H w) as [a Ha]. rewrite Ha. discriminate. Qed.

Lemma completes_catches {A} (m : M A) : completes m -> catches m.
Proof. intros H w e. destruct (H w) as [a Ha]. rewrite Ha. discriminate. Qed.

Lemma settles_throw {A} (e : Error) : settles (@throw A e).
Proof. intros w. discriminate. Qed.

Lemma settles_bind {A B} (m : M A) (k : A -> M B) :
  settles m -> (forall a, settles (k a)) -> settles (bind m k).
Proof.
  intros Hm Hk w. unfold bind. specialize (Hm w).
  destruct (m w) as [[a|e|] w1]; simpl in *; [apply Hk|discriminate|congruence].
Qed.

Lemma settles_try_catch {A} (body : M A) (handler : Error -> M A) :
  settles body -> (forall e, settles (handler e)) -> settles (try_catch body handler).
Proof.
  intros Hb Hh w. unfold try_catch. specialize (Hb w).
  destruct (body w) as [[a|e|] w1]; simpl in *; [discriminate|apply Hh|congruence].
Qed.

Lemma completes_try_catch {A} (body : M A) (handler : Error -> M A) :
  settles body -> (forall e, completes (handler e)) -> completes (try_catch body handler).
Proof.
  intros Hb Hh w. unfold try_catch. specialize (Hb w).
  destruct (body w) as [[a|e|] w1]; simpl in *; [eauto|apply Hh|congruence].
Qed.

Lemma completes_finally {A} (body : M A) (cleanup : M unit) :
  completes body -> completes cleanup -> completes (finally body cleanup).
Proof.
  intros Hb Hc w. unfold finally. destruct (Hb w) as [a Ha].
  destruct (body w) as [c w1]. simpl in Ha. subst c.
  destruct (Hc w1) as [u Hu]. destruct (cleanup w1) as [c w2]. simpl in Hu. subst c.
  exists a. reflexivity.
Qed.

Lemma catches_bind {A B} (m : M A) (k : A -> M B) :
  catches m -> (forall a, catches (k a)) -> catches (bind m k).
Proof.
  intros Hm Hk w e. unfold bind. specialize (Hm w).
  destruct (m w) as [[a|e1|] w1]; simpl in *;
    [apply Hk|exfalso; apply (Hm e1); reflexivity|discriminate].
Qed.

Lemma catches_unmodelled {A} : catches (@unmodelled A).
Proof. intros w e. discriminate. Qed.

Lemma catches_try_catch {A} (body : M A) (handler : Error -> M A) :
  (forall e, catches (handler e)) -> catches (try_catch body handler).
Proof.
  intros Hh w e. unfold try_catch.
  destruct (body w) as [[a|e1|] w1]; simpl; [discriminate|apply Hh|discriminate].
Qed.

Lemma catches_finally {A} (body : M A) (cleanup : M unit) :
  catches body -> catches cleanup -> catches (finally body cleanup).
Proof.
  intros Hb Hc w e. unfold finally. specialize (Hb w).
  destruct (body w) as [[a|e1|] w1]; simpl in *.
  - specialize (Hc w1). destruct (cleanup w1) as [[[]|e2|] w2]; simpl in *;
      [discriminate|exfalso; apply (Hc e2); reflexivity|discriminate].
  - exfalso. apply (Hb e1). reflexivity.
  - discriminate.
Qed.

(** After [try ... finally], the world is the one the [finally] block
    leaves. *)
Lemma finally_world {A} (body : M A) (cleanup : M unit) (w : World) :
  fst (body w) <> Unmodelled ->
  snd (finally body cleanup w) = snd (cleanup (snd (body w))).
Proof.
  intros H. unfold finally.
  destruct (body w) as [[a|e|] w1]; simpl in *; [| |congruence];
    destruct (cleanup w1) as [[[]|e2|] w2]; reflexivity.
Qed.

Section Relations.
Variable R : World -> World -> Prop.
Hypothesis R_refl : forall w, R w w.
Hypothesis R_trans : forall w1 w2 w3, R w1 w2 -> R w2 w3 -> R w1 w3.

Lemma relates_ret {A} (a : A) : relates R (ret a).
Proof. intros w. apply R_refl. Qed.

Lemma relates_throw {A} (e : Error) : relates R (@throw A e).
Proof. intros w. apply R_refl. Qed.

Lemma relates_unmodelled {A} : relates R (@unmodelled A).
Proof. intros w. apply R_refl. Qed.

Lemma relates_gets {A} (f : World -> A) : relates R (gets f).
Proof. intros w. apply R_refl. Qed.

Lemma relates_modify (f : World -> World) :
  (forall w, R w (f w)) -> relates R (modify f).
Proof. intros H w. apply H. Qed.

Lemma relates_bind {A B} (m : M A) (k : A -> M B) :
  relates R m -> (forall a, relates R (k a)) -> relates R (bind m k).
Proof.
  intros Hm Hk w. unfold bind. specialize (Hm w).
  destruct (m w) as [[a|e|] w1]; simpl in *; try exact Hm.
  eapply R_trans; [exact Hm|apply Hk].
Qed.

Lemma relates_try_catch {A} (body : M A) (handler : Error -> M A) :
  relates R body -> (forall e, relates R (handler e)) ->
  relates R (try_catch body handler).
Proof.
  intros Hb Hh w. unfold try_catch. specialize (Hb w).
  destruct (body w) as [[a|e|] w1]; simpl in *; try exact Hb.
  eapply R_trans; [exact Hb|apply Hh].
Qed.

Lemma relates_finally {A} (body : M A) (cleanup : M unit) :
  relates R body -> relates R cleanup -> relates R (finally body cleanup).
Proof.
  intros Hb Hc w. unfold finally. specialize (Hb w).
  destruct (body w) as [[a|e|] w1]; simpl in *; try exact Hb;
    specialize (Hc w1); destruct (cleanup w1) as [[[]|e1|] w2]; simpl in *;
    eapply R_trans; eauto.
Qed.

Lemma relates_floating {A} (m : M A) : relates R m -> relates R (floating m).
Proof.
  intros Hm w. unfold floating. specialize (Hm w).
  destruct (m w) as [[a|e|] w1]; exact Hm.
Qed.

Lemma relates_or_type_error {A} (o : option A) (msg : string) :
  relates R (or_type_error o msg).
Proof. destruct o; [apply relates_ret|apply relates_throw]. Qed.

Lemma relates_response_json (r : Response) : relates R (response_json r).
Proof.
  unfold response_json. destruct (body r); first [apply relates_throw|apply relates_ret].
Qed.

End Relations.

End Outcomes.

(** ** More on [static/auth.js] *)

Section AuthMore.
Import Js Browser Auth.

(** X1: [set] and [get] round trip.  After [set(k)], [get()] returns [k]
    when [k] is a non-empty string and [null] otherwise ([set] of a falsy
    value clears the key); after [clear()], [get()] returns [null].  No
    other entry of localStorage is touched. *)
Theorem set_get_roundtrip (k : option string) (w : World) :
  fst (get (snd (set k w))) = Normal (if truthy k then k else None)
  /\ fst (get (snd (clear w))) = Normal None
  /\ (forall other, other <> STORAGE ->
        localStorage (snd (set k w)) !! other = localStorage w !! other
        /\ localStorage (snd (clear w)) !! other = localStorage w !! other).
Proof.
  assert (Hclear : fst (get (snd (clear w))) = Normal None).
  { unfold get, clear, gets, modify. simpl. rewrite lookup_delete_eq. reflexivity. }
  assert (Hother : forall other, other <> STORAGE ->
            localStorage (snd (clear w)) !! other = localStorage w !! other).
  { intros other Hne. unfold clear, modify. simpl. apply lookup_delete_ne. congruence. }
  destruct k as [[|c s]|]; (split; [|split; [exact Hclear|]]).
  - exact Hclear.
  - intros other Hne. split; apply Hother, Hne.
  - unfold get, set, gets, modify, bind, ret. simpl.
    rewrite lookup_insert_eq. reflexivity.
  - intros other Hne. split; [|apply Hother, Hne].
    unfold set, modify, bind, ret. simpl. apply lookup_insert_ne. congruence.
  - exact Hclear.
  - intros other Hne. split; apply Hother, Hne.
Qed.

(** X2: [clear] forgets the key: whatever was stored, the next [ensure]
    asks the user, throws "API key required" on an empty answer and
    returns the answer otherwise. *)
Theorem ensure_after_clear (env : Env) (w : World) :
  let a := prompt_answer env (trace w) "Enter API key" None in
  trace (snd (ensure env (snd (clear w))))
  = EvPrompt "Enter API key" None a :: trace w
  /\ fst (ensure env (snd (clear w)))
     = (if truthy a then Normal (default EmptyString a)
        else Throw (mkError "API key required")).
Proof.
  intros a.
  destruct (ensure_cases env (snd (clear w))) as [(k & Hk & _)|[_ Hc]].
  - unfold clear, modify in Hk. simpl in Hk. rewrite lookup_delete_eq in Hk. discriminate.
  - change (trace (snd (clear w))) with (trace w) in Hc. fold a in Hc.
    destruct Hc as [[Ha E]|(k & Ha & Hk & E)]; rewrite E; simpl.
    + rewrite Ha. auto.
    + rewrite Ha. simpl. rewrite Hk. auto.
Qed.

(** [ensure] and [api] leave the page and the script's globals alone. *)
Lemma ensure_frame (env : Env) (w : World) :
  allocations (snd (ensure env w)) = allocations w
  /\ dom (snd (ensure env w)) = dom w
  /\ allocationMode (snd (ensure env w)) = allocationMode w
  /\ focused (snd (ensure env w)) = focused w.
Proof.
  destruct (ensure_cases env w) as [(k & _ & _ & E)|[_ [[_ E]|(k & _ & _ & E)]]];
    rewrite E; simpl; auto.
Qed.

Lemma api_frame (env : Env) (input : string) (init : Init) (w : World) :
  allocations (snd (api env input init w)) = allocations w
  /\ dom (snd (api env input init w)) = dom w
  /\ allocationMode (snd (api env input init w)) = allocationMode w
  /\ focused (snd (api env input init w)) = focused w.
Proof.
  pose proof (ensure_frame env w) as Hf.
  destruct (api_cases env input init w)
    as [(e & w1 & E & Ha)|[(key & w1 & e & E & Ha)|(key & w1 & req & E & Ha & _)]];
    rewrite Ha; rewrite E in Hf; simpl in Hf; [exact Hf|exact Hf|].
  rewrite snd_fetch. exact Hf.
Qed.

Lemma api_settles (env : Env) (input : string) (init : Init) :
  settles (api env input init).
Proof.
  intros w.
  destruct (api_cases env input init w)
    as [(e & w1 & E & Ha)|[(key & w1 & e & E & Ha)|(key & w1 & req & E & Ha & _)]];
    rewrite Ha; [discriminate|discriminate|].
  unfold fetch. destruct (fetch_answer env (trace w1) req); discriminate.
Qed.

(** X3: one call of [api] makes at most one request, after at most
    prompting for the key: it is for the URL, the method and the body the
    caller gave, and the call returns the answer to it (the response, or a
    rejection with the network error).  A call that makes no request
    throws. *)
Theorem api_one_request (env : Env) (input : string) (init : Init) (w : World) :
  exists prompts,
    Forall (fun e => is_prompt e = true) prompts
    /\ ((trace (snd (api env input init w)) = prompts ++ trace w
         /\ exists e, fst (api env input init w) = Throw e)
        \/ exists req,
             trace (snd (api env input init w)) = EvFetch req :: prompts ++ trace w
             /\ req_url req = input
             /\ req_method req = init_method init
             /\ req_body req = init_body init
             /\ fst (api env input init w)
                = match fetch_answer env (prompts ++ trace w) req with
                  | NetworkError m => Throw (mkError m)
                  | Responded r => Normal r
                  end).
Proof.
  pose proof (ensure_emits env w) as (prompts & Ht & Hp).
  exists prompts. split; [exact Hp|].
  destruct (api_cases env input init w)
    as [(e & w1 & E & Ha)|[(key & w1 & e & E & Ha)
                          |(key & w1 & req & E & Ha & Hu & Hm & Hb & _)]];
    rewrite E in Ht; simpl in Ht; rewrite Ha.
  - left. simpl. eauto.
  - left. simpl. eauto.
  - right. exists req. rewrite snd_fetch. simpl. rewrite Ht.
    split; [reflexivity|]. do 3 (split; [assumption|]).
    unfold fetch. rewrite Ht.
    destruct (fetch_answer env (prompts ++ trace w) req); reflexivity.
Qed.

Lemma api_after_ensure_others (env : Env) (input : string) (init : Init)
      (w w1 : World) (key : string) :
  ensure env w = (Normal key, w1) ->
  (exists e, api env input init w = (Throw e, w1))
  \/ (exists req h0,
         api env input init w = fetch env req w1
         /\ Headers_new (default [] (init_headers init)) = Some h0
         /\ forall m, lowercase m <> "x-api-key"%string ->
                      lowercase m <> "x-request-id"%string ->
                      Headers_get (req_headers req) m = Headers_get h0 m).
Proof.
  intros E. unfold api. rewrite (bind_normal _ _ _ _ _ E).
  destruct (Headers_new (default [] (init_headers init))) as [h0|] eqn:Hh0;
    cbn [or_type_error]; [rewrite bind_ret|left; eexists; reflexivity].
  destruct (Headers_has h0 "X-API-Key") eqn:Hkey; cbn [negb].
  - rewrite bind_ret.
    destruct (Headers_has h0 REQ_ID) eqn:Hreq; cbn [negb].
    + rewrite bind_ret. right. do 2 eexists. split; [reflexivity|].
      split; [reflexivity|]. intros m _ _. reflexivity.
    + rewrite bind_bind. unfold newReqId. rewrite bind_gets.
      match goal with
      | |- context [ Headers_set h0 REQ_ID ?id ] =>
          destruct (Headers_set h0 REQ_ID id) as [h2|] eqn:Hh2
      end; cbn [or_type_error]; [rewrite bind_ret|left; eexists; reflexivity].
      right. do 2 eexists. split; [reflexivity|]. split; [reflexivity|].
      intros m _ H2. cbn [req_headers].
      apply (Headers_set_get_other _ _ REQ_ID m _ H2 Hh2).
  - destruct (Headers_set h0 "X-API-Key" key) as [h1|] eqn:Hh1;
      cbn [or_type_error]; [rewrite bind_ret|left; eexists; reflexivity].
    destruct (Headers_has h1 REQ_ID) eqn:Hreq; cbn [negb].
    + rewrite bind_ret. right. do 2 eexists. split; [reflexivity|].
      split; [reflexivity|]. intros m H1 _. cbn [req_headers].
      apply (Headers_set_get_other _ _ "X-API-Key" m _ H1 Hh1).
    + rewrite bind_bind. unfold newReqId. rewrite bind_gets.
      match goal with
      | |- context [ Headers_set h1 REQ_ID ?id ] =>
          destruct (Headers_set h1 REQ_ID id) as [h2|] eqn:Hh2
      end; cbn [or_type_error]; [rewrite bind_ret|left; eexists; reflexivity].
      right. do 2 eexists. split; [reflexivity|]. split; [reflexivity|].
      intros m H1 H2. cbn [req_headers].
      rewrite (Headers_set_get_other _ _ REQ_ID m _ H2 Hh2).
      apply (Headers_set_get_other _ _ "X-API-Key" m _ H1 Hh1).
Qed.

(** X4: [api] adds its two headers and nothing else: every header of
    the caller under another name (Content-Type, say) is sent with the
    caller's value, and no header the caller did not give is added. *)
Theorem api_keeps_other_headers (env : Env) (input : string) (init : Init) (w : World) :
  grows_by (fun e =>
              match e with
              | EvFetch req =>
                  exists h0,
                    Headers_new (default [] (init_headers init)) = Some h0
                    /\ forall m, lowercase m <> "x-api-key"%string ->
                                 lowercase m <> "x-request-id"%string ->
                                 Headers_get (req_headers req) m = Headers_get h0 m
              | _ => True
              end)
           w (snd (api env input init w)).
Proof.
  pose proof (ensure_emits env w) as Hens.
  assert (Hweak : forall e, is_prompt e = true ->
            match e with
            | EvFetch req =>
                exists h0,
                  Headers_new (default [] (init_headers init)) = Some h0
                  /\ forall m, lowercase m <> "x-api-key"%string ->
                               lowercase m <> "x-request-id"%string ->
                               Headers_get (req_headers req) m = Headers_get h0 m
            | _ => True
            end).
  { intros [] H; try exact I. discriminate. }
  destruct (ensure env w) as [[key|e|] w1] eqn:E; simpl in Hens.
  - destruct (api_after_ensure_others env input init _ _ _ E)
      as [[e Ha]|(req & h0 & Ha & Hh0 & Hm)]; rewrite Ha.
    + simpl. eapply grows_by_weaken; [exact Hweak|exact Hens].
    + rewrite snd_fetch. eapply grows_by_trans.
      * eapply grows_by_weaken; [exact Hweak|exact Hens].
      * apply grows_by_log. exists h0. auto.
  - unfold api. rewrite (bind_throw _ _ _ _ _ E). simpl.
    eapply grows_by_weaken; [exact Hweak|exact Hens].
  - destruct (ensure_cases env w) as [(k & _ & _ & E1)|[_ [[_ E1]|(k & _ & _ & E1)]]];
      rewrite E1 in E; discriminate.
Qed.

End AuthMore.

(** ** More on the dashboard script *)

Section DashboardMore.
Import Js Browser Dashboard.

Ltac outcome :=
  repeat first
    [ apply completes_modify | apply completes_gets | apply completes_ret
    | apply completes_bind; [|intros ?]
    | match goal with |- completes (if ?b then _ else _) => destruct b end ].

Lemma completes_unit (m : M unit) (w : World) : completes m -> fst (m w) = Normal tt.
Proof. intros H. destruct (H w) as [[] E]. exact E. Qed.

Lemma setStatus_completes (m t : string) : completes (setStatus m t).
Proof. unfold setStatus, set_textContent, set_className. outcome. Qed.

Lemma showLoading_completes (show : bool) : completes (showLoading show).
Proof.
  unfold showLoading, setStatus, set_textContent, set_className, set_display.
  destruct show; outcome.
Qed.

Lemma showCreateLoading_completes (show : bool) : completes (showCreateLoading show).
Proof. unfold showCreateLoading, set_display. destruct show; outcome. Qed.

Lemma setAllocationMode_completes (mode : string) : completes (setAllocationMode mode).
Proof. unfold setAllocationMode, set_classList, set_display. outcome. Qed.

Lemma toggleAllocationForm_completes : completes toggleAllocationForm.
Proof.
  unfold toggleAllocationForm, classList_contains, focus, set_value, set_classList.
  outcome.
Qed.

Lemma renderSummary_completes : completes renderSummary.
Proof. unfold renderSummary, set_display, set_innerHTML. outcome. Qed.

Lemma renderAllocations_completes : completes renderAllocations.
Proof. unfold renderAllocations, set_innerHTML. outcome. Qed.

Lemma response_json_settles (r : Response) : settles (response_json r).
Proof.
  unfold response_json.
  destruct (body r); first [apply settles_throw|apply completes_settles, completes_ret].
Qed.

Lemma loadAllocations_failed_completes (e : Error) : completes (loadAllocations_failed e).
Proof.
  unfold loadAllocations_failed, console_error, set_innerHTML.
  outcome.
Qed.

Lemma loadAllocations_try_completes (env : Env) : completes (loadAllocations_try env).
Proof.
  apply completes_try_catch; [|apply loadAllocations_failed_completes].
  apply settles_bind; [apply api_settles|intros r].
  unfold loadAllocations_answered.
  destruct (negb (ok r)); [apply settles_throw|].
  apply settles_bind; [apply response_json_settles|intros d].
  apply completes_settles. outcome.
Qed.

Lemma loadAllocations_unfold (env : Env) (w : World) :
  loadAllocations env w
  = finally (loadAllocations_try env) (showLoading false) (snd (showLoading true w)).
Proof.
  unfold loadAllocations.
  rewrite bind_unit by apply completes_unit, showLoading_completes. reflexivity.
Qed.

Lemma loadAllocations_completes (env : Env) : completes (loadAllocations env).
Proof.
  intros w. rewrite loadAllocations_unfold.
  apply completes_finally;
    [apply loadAllocations_try_completes|apply showLoading_completes].
Qed.

Lemma loadAllocations_world (env : Env) (w : World) :
  snd (loadAllocations env w)
  = snd (showLoading false (snd (loadAllocations_try env (snd (showLoading true w))))).
Proof.
  rewrite loadAllocations_unfold. apply finally_world.
  apply completes_settles, loadAllocations_try_completes.
Qed.

(** X5: [loadAllocations] never rejects and always gives the refresh
    button back: whatever the user, the network and the server do, it
    ends normally with the button's text shown and its spinner hidden. *)
Theorem loadAllocations_restores_button (env : Env) (w : World) :
  fst (loadAllocations env w) = Normal tt
  /\ display (dom (snd (loadAllocations env w)) "refresh-text") = "inline"
  /\ display (dom (snd (loadAllocations env w)) "loading-spinner") = "none".
Proof.
  split; [apply completes_unit, loadAllocations_completes|].
  rewrite loadAllocations_world.
  generalize (snd (loadAllocations_try env (snd (showLoading true w)))).
  intros w1. split; reflexivity.
Qed.

Lemma response_json_ok (r : Response) :
  (forall m, body r <> NotJson m) -> response_json r = ret (body r).
Proof.
  intros H. unfold response_json. destruct (body r); try reflexivity.
  exfalso. eapply H. reflexivity.
Qed.

(** X6: a successful load replaces the cache by the items of the answer
    (the array itself, or the [items] of a page, or nothing when the
    answer has no [items]) and shows them: the grid, or the empty state
    when there are none; the summary, hidden when there are none; and
    "Loaded n allocation(s)" with the plural unless n is 1. *)
Theorem loadAllocations_shows_list (env : Env) (w w1 : World) (r : Response) :
  Auth.api env "/allocations" no_init (snd (showLoading true w)) = (Normal r, w1) ->
  ok r = true ->
  (forall m, body r <> NotJson m) ->
  let items := items_of (body r) in
  let w' := snd (loadAllocations env w) in
  allocations w' = items
  /\ innerHTML (dom w' "allocations-container")
     = (if (length items =? 0)%nat then NoAllocationsFound else AllocationGrid items)
  /\ display (dom w' "summary-stats")
     = (if (length items =? 0)%nat then "none" else "grid")%string
  /\ trace w'
     = EvStatus ("Loaded " +:+ pretty (length items) +:+ " allocation"
                 +:+ (if negb (length items =? 1)%nat then "s" else EmptyString))
                "success" :: trace w1.
Proof.
  intros Hapi Hok Hjson items w'. subst w'.
  rewrite loadAllocations_world.
  unfold loadAllocations_try, try_catch.
  rewrite (bind_normal _ _ _ _ _ Hapi).
  unfold loadAllocations_answered. rewrite Hok. cbn [negb].
  rewrite (response_json_ok _ Hjson). rewrite bind_ret. fold items.
  destruct items as [|a l]; repeat split; reflexivity.
Qed.

Lemma loadAllocations_shows_list_witness :
  allocations
    (snd (loadAllocations
            (Samples.env None (Samples.listing [Samples.allocation 1 "prod"]))
            (Samples.world_with_key "secret" "prod" "100")))
  = [Samples.allocation 1 "prod"].
Proof.
  apply (loadAllocations_shows_list
           (Samples.env None (Samples.listing [Samples.allocation 1 "prod"]))
           (Samples.world_with_key "secret" "prod" "100")
           (snd (Auth.api
                   (Samples.env None (Samples.listing [Samples.allocation 1 "prod"]))
                   "/allocations" no_init
                   (snd (showLoading true
                           (Samples.world_with_key "secret" "prod" "100")))))
           (Samples.listing [Samples.allocation 1 "prod"])).
  - vm_compute. reflexivity.
  - reflexivity.
  - intros m. discriminate.
Defined.

Lemma loadAllocations_try_failed (env : Env) (w0 w1 : World) (e : Error) :
  (Auth.api env "/allocations" no_init w0 = (Throw e, w1)
   \/ exists r,
        Auth.api env "/allocations" no_init w0 = (Normal r, w1)
        /\ ((ok r = false
             /\ e = mkError ("HTTP " +:+ pretty (status r) +:+ ": " +:+ statusText r))
            \/ (ok r = true /\ body r = NotJson (message_of e)))) ->
  loadAllocations_try env w0 = loadAllocations_failed e w1.
Proof.
  unfold loadAllocations_try, try_catch.
  intros [Hapi|(r & Hapi & [[Hok He]|[Hok Hb]])].
  - rewrite (bind_throw _ _ _ _ _ Hapi). reflexivity.
  - rewrite (bind_normal _ _ _ _ _ Hapi). unfold loadAllocations_answered.
    rewrite Hok, He. reflexivity.
  - rewrite (bind_normal _ _ _ _ _ Hapi). unfold loadAllocations_answered.
    rewrite Hok. cbn [negb]. unfold response_json. rewrite Hb.
    destruct e as [m]. reflexivity.
Qed.

(** X7: a failed load (the key refused, the network down, an answer
    that is not a success, or a body that is not JSON) keeps the cached
    list and the summary as they were: it only logs the error, shows
    "Error: <message>" and puts the connection-error notice in place of
    the grid. *)
Theorem loadAllocations_failure_keeps_cache (env : Env) (w w1 : World) (e : Error) :
  (Auth.api env "/allocations" no_init (snd (showLoading true w)) = (Throw e, w1)
   \/ exists r,
        Auth.api env "/allocations" no_init (snd (showLoading true w)) = (Normal r, w1)
        /\ ((ok r = false
             /\ e = mkError ("HTTP " +:+ pretty (status r) +:+ ": " +:+ statusText r))
            \/ (ok r = true /\ body r = NotJson (message_of e)))) ->
  let w' := snd (loadAllocations env w) in
  allocations w' = allocations w
  /\ dom w' "summary-stats" = dom w "summary-stats"
  /\ innerHTML (dom w' "allocations-container") = ConnectionError (message_of e)
  /\ trace w'
     = EvStatus ("Error: " +:+ message_of e) "error"
       :: EvConsoleError "Error loading allocations:" (message_of e) :: trace w1.
Proof.
  intros H w'. subst w'. rewrite loadAllocations_world.
  rewrite (loadAllocations_try_failed _ _ _ _ H).
  assert (Hframe : allocations w1 = allocations w
                   /\ dom w1 "summary-stats" = dom w "summary-stats").
  { pose proof (api_frame env "/allocations" no_init (snd (showLoading true w)))
      as (Ha & Hd & _).
    destruct H as [Hapi|(r & Hapi & _)]; rewrite Hapi in Ha, Hd; simpl in Ha, Hd;
      rewrite Ha, Hd; split; reflexivity. }
  destruct Hframe as [Ha Hd].
  split; [exact Ha|]. split; [|split; reflexivity].
  rewrite <- Hd. reflexivity.
Qed.

Lemma loadAllocations_failure_keeps_cache_witness :
  innerHTML
    (dom (snd (loadAllocations (Samples.env None (Samples.refused 503 None))
                 (Samples.world "prod" "100")))
         "allocations-container")
  = ConnectionError "API key required".
Proof.
  eapply (loadAllocations_failure_keeps_cache
            (Samples.env None (Samples.refused 503 None))
            (Samples.world "prod" "100") _ (mkError "API key required")).
  left. reflexivity.
Defined.

(** *** What the handlers leave alone *)

Lemma touches_only_refl (ids : list string) (w : World) : touches_only ids w w.
Proof. split; auto. Qed.

Lemma touches_only_trans (ids : list string) (w1 w2 w3 : World) :
  touches_only ids w1 w2 -> touches_only ids w2 w3 -> touches_only ids w1 w3.
Proof.
  intros [Hd1 Hm1] [Hd2 Hm2]. split.
  - intros id Hid. rewrite (Hd2 id Hid). apply Hd1, Hid.
  - congruence.
Qed.

Lemma touches_only_element (ids : list string) (id : string) (f : Element -> Element) :
  existsb (String.eqb id) ids = true ->
  relates (touches_only ids) (modify (with_element id f)).
Proof.
  intros Hin w. split; [|reflexivity].
  intros i Hi. simpl. destruct (String.eqb_spec i id); [subst; congruence|reflexivity].
Qed.

Lemma touches_only_same (ids : list string) (f : World -> World) :
  (forall w, dom (f w) = dom w) ->
  (forall w, allocationMode (f w) = allocationMode w) ->
  relates (touches_only ids) (modify f).
Proof. intros Hd Hm w. split; [intros i _; simpl; rewrite Hd; reflexivity|apply Hm]. Qed.

Lemma touches_only_api (ids : list string) (env : Env) (input : string) (init : Init) :
  relates (touches_only ids) (Auth.api env input init).
Proof.
  intros w. destruct (api_frame env input init w) as (_ & Hd & Hm & _).
  split; [intros i _; rewrite Hd; reflexivity|exact Hm].
Qed.

Ltac frame :=
  repeat first
    [ exact (touches_only_refl _)
    | exact (touches_only_trans _)
    | apply touches_only_api
    | apply relates_ret | apply relates_throw | apply relates_unmodelled
    | apply relates_gets | apply relates_response_json
    | apply touches_only_element; reflexivity
    | apply touches_only_same; intros ?; reflexivity
    | apply relates_bind; [..|intros ?]
    | apply relates_try_catch; [..|intros ?]
    | apply relates_finally
    | apply relates_floating
    | match goal with
      | |- relates _ (if ?b then _ else _) => destruct b
      | |- relates _ (match ?o with Some _ => _ | None => _ end) => destruct o
      end ].

Lemma loadAllocations_touches (env : Env) :
  relates (touches_only load_elements) (loadAllocations env).
Proof.
  unfold loadAllocations, loadAllocations_answered, showLoading, renderAllocations,
    renderSummary, setStatus, console_error, set_textContent, set_className,
    set_display, set_innerHTML.
  frame.
Qed.

(** *** How the handlers end *)

Lemma createAllocation_failed_completes (e : Error) :
  completes (createAllocation_failed e).
Proof. unfold createAllocation_failed, console_error. outcome. Qed.

Lemma createAllocation_answered_settles (env : Env) (r : Response) :
  settles (createAllocation_answered env r).
Proof.
  unfold createAllocation_answered. destruct (negb (ok r)).
  - apply settles_bind; [apply response_json_settles|intros d]. apply settles_throw.
  - apply settles_bind; [apply response_json_settles|intros d].
    apply completes_settles.
    apply completes_bind; [apply setStatus_completes|intros _].
    apply completes_bind; [apply toggleAllocationForm_completes|intros _].
    apply completes_bind; [apply loadAllocations_completes|intros _].
    apply completes_modify.
Qed.

Lemma createAllocation_try_completes (env : Env) (init : Init) :
  completes (try_catch (bind (Auth.api env "/allocate" init)
                             (createAllocation_answered env))
                       createAllocation_failed).
Proof.
  apply completes_try_catch; [|apply createAllocation_failed_completes].
  apply settles_bind; [apply api_settles|apply createAllocation_answered_settles].
Qed.

Lemma createAllocation_submit_completes (env : Env) (payload : Json) :
  completes (createAllocation_submit env payload).
Proof.
  unfold createAllocation_submit.
  apply completes_bind; [apply showCreateLoading_completes|intros _].
  apply completes_bind; [apply setStatus_completes|intros _].
  apply completes_finally;
    [apply createAllocation_try_completes|apply showCreateLoading_completes].
Qed.

Lemma createAllocation_submit_world (env : Env) (payload : Json) (w : World) :
  snd (createAllocation_submit env payload w)
  = snd (showCreateLoading false
           (snd (try_catch
                   (bind (Auth.api env "/allocate"
                            (mkInit (Some "POST") json_headers (Some payload)))
                         (createAllocation_answered env))
                   createAllocation_failed
                   (snd (setStatus "Creating allocation..." "loading"
                           (snd (showCreateLoading true w))))))).
Proof.
  unfold createAllocation_submit. rewrite !bind_unit by reflexivity.
  apply finally_world. apply completes_settles, createAllocation_try_completes.
Qed.

Section Mutation.
Variable env : Env.
Variables (url fallback label : string) (init : Init) (done : M unit).
Hypothesis done_completes : completes done.

Lemma mutation_completes :
  completes
    (try_catch
       (response <- Auth.api env url init ;;
        if negb (ok response) then
          errorData <- response_json response ;;
          throw (mkError (detail_or errorData fallback))
        else done)
       (fun error =>
          console_error label error ;;
          setStatus ("Error: " +:+ message_of error) "error")).
Proof.
  apply completes_try_catch.
  - apply settles_bind; [apply api_settles|intros r]. destruct (negb (ok r)).
    + apply settles_bind; [apply response_json_settles|intros d]. apply settles_throw.
    + apply completes_settles, done_completes.
  - intros e. unfold console_error. outcome.
Qed.

End Mutation.

Lemma window_prompt_completes (env : Env) (m : string) (d : option string) :
  completes (window_prompt env m d).
Proof. intros w. eexists. reflexivity. Qed.

Lemma window_confirm_completes (env : Env) (m : string) :
  completes (window_confirm env m).
Proof. intros w. eexists. reflexivity. Qed.

(** X8: no handler of the dashboard rejects.  Creating, moving and
    deleting always end normally, whatever the user, the network and the
    server do: every error is caught, logged and shown. *)
Theorem handlers_never_reject (env : Env) :
  completes (createAllocation env)
  /\ (forall allocationId currentVpc, completes (editAllocationVpc env allocationId currentVpc))
  /\ (forall allocationId primaryCidr, completes (deleteAllocation env allocationId primaryCidr))
  /\ (forall vpcName, completes (deleteVpc env vpcName)).
Proof.
  split; [|split; [|split]].
  - intros w. rewrite createAllocation_cases.
    destruct (createAllocation_refusal w) as [[m f]|]; [eexists; reflexivity|].
    apply createAllocation_submit_completes.
  - intros allocationId currentVpc. unfold editAllocationVpc.
    apply completes_bind; [apply window_prompt_completes|intros [s|]];
      [|apply completes_ret].
    match goal with |- completes (if ?b then _ else _) => destruct b end;
      [apply completes_ret|].
    apply completes_bind; [apply setStatus_completes|intros _].
    apply mutation_completes.
    apply completes_bind; [apply setStatus_completes|intros _].
    apply loadAllocations_completes.
  - intros allocationId primaryCidr. unfold deleteAllocation.
    apply completes_bind; [apply window_confirm_completes|intros b].
    destruct (negb b); [apply completes_ret|].
    apply completes_bind; [apply setStatus_completes|intros _].
    apply mutation_completes.
    apply completes_bind; [apply setStatus_completes|intros _].
    apply loadAllocations_completes.
  - intros vpcName. unfold deleteVpc.
    apply completes_bind; [apply completes_gets|intros l].
    apply completes_bind; [apply window_confirm_completes|intros b].
    destruct (negb b); [apply completes_ret|].
    apply completes_bind; [apply setStatus_completes|intros _].
    apply mutation_completes.
    apply completes_bind; [apply setStatus_completes|intros _].
    apply loadAllocations_completes.
Qed.

(** *** Class lists, the form and the mode buttons *)

Lemma contains_remove_class (c : string) (l : list string) :
  contains c (remove_class c l) = false.
Proof.
  unfold contains, remove_class. induction l as [|x l IH]; [reflexivity|].
  simpl. destruct (String.eqb c x) eqn:E; simpl; [exact IH|].
  rewrite E. exact IH.
Qed.

Lemma contains_app_last (c : string) (l : list string) :
  contains c (l ++ [c]) = true.
Proof.
  unfold contains. rewrite existsb_app. simpl. rewrite String.eqb_refl.
  apply orb_true_iff. right. reflexivity.
Qed.

Lemma contains_add_class (c : string) (l : list string) :
  contains c (add_class c l) = true.
Proof.
  unfold add_class. destruct (contains c l) eqn:E; [exact E|apply contains_app_last].
Qed.

Lemma contains_toggle_class (c : string) (l : list string) :
  contains c (toggle_class c l) = negb (contains c l).
Proof.
  unfold toggle_class. destruct (contains c l) eqn:E;
    [apply contains_remove_class|apply contains_app_last].
Qed.

(** X9: [setAllocationMode] leaves exactly one mode button active and
    exactly one of the two inputs visible: the host-count ones for the
    mode 'hosts', the prefix ones for any other mode; the global is the
    mode given. *)
Theorem setAllocationMode_one_active (mode : string) (w : World) :
  let w' := snd (setAllocationMode mode w) in
  let hosts := strict_eq mode "hosts" in
  allocationMode w' = mode
  /\ contains "active" (classList (dom w' "hosts-mode")) = hosts
  /\ contains "active" (classList (dom w' "prefix-mode")) = negb hosts
  /\ display (dom w' "hosts-input") = (if hosts then "flex" else "none")%string
  /\ display (dom w' "prefix-input") = (if hosts then "none" else "flex")%string.
Proof.
  intros w' hosts. subst w' hosts. unfold setAllocationMode.
  rewrite bind_unit by reflexivity.
  destruct (strict_eq mode "hosts"); simpl;
    rewrite contains_add_class, contains_remove_class; repeat split; reflexivity.
Qed.

Lemma toggleAllocationForm_world (w : World) :
  let shown := contains "show" (classList (dom w "allocation-form")) in
  let w1 := snd (set_classList "allocation-form" (toggle_class "show") w) in
  toggleAllocationForm w
  = if shown then
      (set_value "vpc-name" EmptyString ;;
       set_value "host-count" EmptyString ;;
       set_value "prefix-length" EmptyString ;;
       setAllocationMode "hosts") w1
    else focus "vpc-name" w1.
Proof.
  intros shown w1. unfold toggleAllocationForm.
  rewrite bind_unit by reflexivity. fold w1.
  unfold classList_contains. rewrite bind_gets.
  assert (E : contains "show" (classList (dom w1 "allocation-form")) = negb shown).
  { subst w1 shown. simpl. apply contains_toggle_class. }
  rewrite E. destruct shown; reflexivity.
Qed.

(** X10: [toggleAllocationForm] flips the form between shown and
    hidden.  Opening it puts the focus on the VPC name and leaves what the
    fields hold; closing it empties the three fields and goes back to the
    host-count mode. *)
Theorem toggleAllocationForm_flips (w : World) :
  let w' := snd (toggleAllocationForm w) in
  let shown := contains "show" (classList (dom w "allocation-form")) in
  fst (toggleAllocationForm w) = Normal tt
  /\ contains "show" (classList (dom w' "allocation-form")) = negb shown
  /\ (if shown then
        value (dom w' "vpc-name") = EmptyString
        /\ value (dom w' "host-count") = EmptyString
        /\ value (dom w' "prefix-length") = EmptyString
        /\ allocationMode w' = "hosts"
        /\ focused w' = focused w
      else
        focused w' = Some "vpc-name"
        /\ value (dom w' "vpc-name") = value (dom w "vpc-name")
        /\ value (dom w' "host-count") = value (dom w "host-count")
        /\ value (dom w' "prefix-length") = value (dom w "prefix-length")
        /\ allocationMode w' = allocationMode w).
Proof.
  intros w' shown. subst w'.
  split; [apply completes_unit, toggleAllocationForm_completes|].
  rewrite toggleAllocationForm_world. fold shown.
  assert (E : contains "show"
                (toggle_class "show" (classList (dom w "allocation-form")))
              = negb shown) by apply contains_toggle_class.
  destruct shown; (split; [exact E|]); repeat split; reflexivity.
Qed.

(** *** What [createAllocation] does with a form that passes *)

Lemma host_count_rejected_nan (s : string) :
  StringToNumber s = NotANumber -> host_count_rejected s = false.
Proof.
  intros H. unfold host_count_rejected. destruct s as [|c s]; [discriminate H|].
  rewrite H. reflexivity.
Qed.

(** X11: a host count that is no number passes the range check.  In
    host-count mode, with a VPC name given, a text that coerces to NaN
    (digits followed by letters, say) is neither below 1 nor above 4000
    for the comparisons of the check, so the request is submitted, with
    for [hosts] whatever [parseInt] reads at the start of the text: a
    number of any size, or null. *)
Theorem create_non_numeric_host_count (env : Env) (w : World) :
  truthy_string (trim (value (dom w "vpc-name"))) = true ->
  allocationMode w = "hosts" ->
  StringToNumber (value (dom w "host-count")) = NotANumber ->
  createAllocation env w
  = createAllocation_submit env
      [("vpc", JString (trim (value (dom w "vpc-name"))));
       ("hosts", json_of_value (VNum (parseInt (value (dom w "host-count")))))] w.
Proof.
  intros Hv Hmode Hnan. rewrite createAllocation_cases.
  unfold createAllocation_refusal, createAllocation_payload.
  rewrite Hv, Hmode, (host_count_rejected_nan _ Hnan). reflexivity.
Qed.

Lemma create_non_numeric_host_count_witness :
  createAllocation (Samples.env None (Samples.refused 422 None))
                   (Samples.world_with_key "secret" "prod" "99999px")
  = createAllocation_submit (Samples.env None (Samples.refused 422 None))
      [("vpc", JString "prod"); ("hosts", JNumber 99999)]
      (Samples.world_with_key "secret" "prod" "99999px").
Proof.
  apply (create_non_numeric_host_count (Samples.env None (Samples.refused 422 None))
           (Samples.world_with_key "secret" "prod" "99999px")).
  - reflexivity.
  - reflexivity.
  - reflexivity.
Defined.

(** X12: in prefix mode (any mode but 'hosts') the only check on the
    prefix is that one is selected: with a VPC name given, an empty
    selection is refused with "Please select a prefix length" and the
    focus on the field, and any other text is submitted as
    [prefix_length], whatever the host-count field holds. *)
Theorem create_prefix_mode (env : Env) (w : World) :
  truthy_string (trim (value (dom w "vpc-name"))) = true ->
  allocationMode w <> "hosts" ->
  createAllocation env w
  = if truthy_string (value (dom w "prefix-length")) then
      createAllocation_submit env
        [("vpc", JString (trim (value (dom w "vpc-name"))));
         ("prefix_length",
          json_of_value (VNum (parseInt (value (dom w "prefix-length")))))] w
    else
      (Normal tt,
       snd (focus "prefix-length"
              (snd (setStatus "Please select a prefix length" "error" w)))).
Proof.
  intros Hv Hmode. rewrite createAllocation_cases.
  unfold createAllocation_refusal, createAllocation_payload.
  apply String.eqb_neq in Hmode. unfold strict_eq. rewrite Hv, Hmode. cbn [negb].
  destruct (truthy_string (value (dom w "prefix-length"))); reflexivity.
Qed.

Lemma create_prefix_mode_witness :
  createAllocation (Samples.env None (Samples.refused 422 None))
                   (Samples.world_prefix "secret" "prod" "28")
  = createAllocation_submit (Samples.env None (Samples.refused 422 None))
      [("vpc", JString "prod"); ("prefix_length", JNumber 28)]
      (Samples.world_prefix "secret" "prod" "28").
Proof.
  apply (create_prefix_mode (Samples.env None (Samples.refused 422 None))
           (Samples.world_prefix "secret" "prod" "28")).
  - reflexivity.
  - discriminate.
Defined.

(** X13: once the form has passed its checks, [createAllocation]
    always ends normally and gives the create button back (its text
    shown, its spinner hidden), whether the request succeeds, is refused
    or cannot be made. *)
Theorem create_restores_button (env : Env) (w : World) :
  createAllocation_refusal w = None ->
  fst (createAllocation env w) = Normal tt
  /\ display (dom (snd (createAllocation env w)) "create-text") = "inline"
  /\ display (dom (snd (createAllocation env w)) "create-spinner") = "none".
Proof.
  intros H. rewrite createAllocation_cases, H.
  split; [apply completes_unit, createAllocation_submit_completes|].
  rewrite createAllocation_submit_world.
  match goal with
  | |- context [ showCreateLoading false ?W ] => generalize W
  end.
  intros w1. split; reflexivity.
Qed.

Lemma create_restores_button_witness :
  display (dom (snd (createAllocation (Samples.env None (Samples.refused 409 None))
                       (Samples.world_with_key "secret" "prod" "100")))
               "create-spinner")
  = "none".
Proof.
  apply (create_restores_button (Samples.env None (Samples.refused 409 None))
           (Samples.world_with_key "secret" "prod" "100")).
  reflexivity.
Defined.

Lemma showCreateLoading_touches (show : bool) :
  relates (touches_only create_elements) (showCreateLoading show).
Proof. unfold showCreateLoading, set_display. frame. Qed.

Lemma setStatus_touches (ids : list string) (m t : string) :
  existsb (String.eqb "status") ids = true ->
  relates (touches_only ids) (setStatus m t).
Proof.
  intros H. unfold setStatus, set_textContent, set_className.
  apply relates_bind; [apply touches_only_trans|apply touches_only_element, H|intros _].
  apply relates_bind; [apply touches_only_trans|apply touches_only_element, H|intros _].
  frame.
Qed.

Lemma createAllocation_failed_touches (e : Error) :
  relates (touches_only create_elements) (createAllocation_failed e).
Proof.
  unfold createAllocation_failed, console_error.
  apply relates_bind; [apply touches_only_trans|frame|intros _].
  apply setStatus_touches. reflexivity.
Qed.

Lemma create_started_touches (w : World) :
  touches_only create_elements w
    (snd (setStatus "Creating allocation..." "loading" (snd (showCreateLoading true w)))).
Proof.
  eapply touches_only_trans; [apply showCreateLoading_touches|].
  apply setStatus_touches. reflexivity.
Qed.

(** X14: a creation that fails after the form has passed (no key
    given, the network down, the server refusing it, or a body that is
    not JSON) leaves the form as it was filled in: apart from the status
    line and the create button, every element of the page is unchanged,
    and so are the allocation mode and the cached list; the list is not
    reloaded.  The status line says "Error: " and the [detail] of the
    refusal, or "HTTP <status>" when it has none, or the parser's message
    when the body is not JSON, be the answer a refusal or a success. *)
Theorem create_failure_keeps_form (env : Env) (w w3 : World) (e : Error) :
  createAllocation_refusal w = None ->
  (let started := snd (setStatus "Creating allocation..." "loading"
                         (snd (showCreateLoading true w))) in
   let request := mkInit (Some "POST") json_headers (Some (createAllocation_payload w)) in
   Auth.api env "/allocate" request started = (Throw e, w3)
   \/ exists r,
        Auth.api env "/allocate" request started = (Normal r, w3)
        /\ ((ok r = false
             /\ e = match body r with
                    | NotJson m => mkError m
                    | b => mkError (detail_or b ("HTTP " +:+ pretty (status r)))
                    end)
            \/ (ok r = true /\ body r = NotJson (message_of e)))) ->
  let w' := snd (createAllocation env w) in
  touches_only create_elements w w'
  /\ allocations w' = allocations w
  /\ trace w'
     = EvStatus ("Error: " +:+ message_of e) "error"
       :: EvConsoleError "Error creating allocation:" (message_of e) :: trace w3.
Proof.
  intros Hpass Hapi w'. subst w'. cbv zeta in Hapi.
  rewrite createAllocation_cases, Hpass, createAllocation_submit_world.
  set (started := snd (setStatus "Creating allocation..." "loading"
                         (snd (showCreateLoading true w)))) in *.
  assert (Htry : try_catch
                   (bind (Auth.api env "/allocate"
                            (mkInit (Some "POST") json_headers
                                    (Some (createAllocation_payload w))))
                         (createAllocation_answered env))
                   createAllocation_failed started
                 = createAllocation_failed e w3).
  { unfold try_catch. destruct Hapi as [Hapi|(r & Hapi & [[Hok He]|[Hok Hb]])].
    - rewrite (bind_throw _ _ _ _ _ Hapi). reflexivity.
    - rewrite (bind_normal _ _ _ _ _ Hapi). unfold createAllocation_answered.
      rewrite Hok, He. cbn [negb]. unfold response_json.
      destruct (body r); reflexivity.
    - rewrite (bind_normal _ _ _ _ _ Hapi). unfold createAllocation_answered.
      rewrite Hok. cbn [negb]. unfold response_json. rewrite Hb.
      destruct e as [m]. reflexivity. }
  rewrite Htry.
  assert (Hframe : touches_only create_elements w w3 /\ allocations w3 = allocations w).
  { pose proof (touches_only_api create_elements env "/allocate"
                  (mkInit (Some "POST") json_headers
                          (Some (createAllocation_payload w))) started) as Ht.
    pose proof (api_frame env "/allocate"
                  (mkInit (Some "POST") json_headers
                          (Some (createAllocation_payload w))) started) as (Ha & _).
    destruct Hapi as [Hapi|(r & Hapi & _)]; rewrite Hapi in Ht, Ha; simpl in Ht, Ha.
    - split; [|exact Ha].
      eapply touches_only_trans; [apply create_started_touches|exact Ht].
    - split; [|exact Ha].
      eapply touches_only_trans; [apply create_started_touches|exact Ht]. }
  destruct Hframe as [Ht Ha].
  split; [|split].
  - eapply touches_only_trans; [exact Ht|].
    eapply touches_only_trans;
      [apply createAllocation_failed_touches|apply showCreateLoading_touches].
  - rewrite <- Ha. reflexivity.
  - reflexivity.
Qed.

Lemma create_failure_keeps_form_witness :
  touches_only create_elements (Samples.world "prod" "100")
    (snd (createAllocation
            (Samples.env None (Samples.refused 409 (Some "VPC pool exhausted")))
            (Samples.world "prod" "100"))).
Proof.
  eapply (create_failure_keeps_form
            (Samples.env None (Samples.refused 409 (Some "VPC pool exhausted")))
            (Samples.world "prod" "100") _ (mkError "API key required")).
  - reflexivity.
  - left. reflexivity.
Defined.

Lemma loadAllocations_after_loading (env : Env) (w : World) :
  grows_by lists_only (snd (showLoading true w)) (snd (loadAllocations env w)).
Proof.
  rewrite loadAllocations_unfold. generalize (snd (showLoading true w)).
  change (emits lists_only (finally (loadAllocations_try env) (showLoading false))).
  apply emits_finally; [|apply showLoading_emits, lists_only_quiet].
  unfold loadAllocations_try, loadAllocations_answered, loadAllocations_failed.
  apply emits_try_catch.
  - apply emits_bind;
      [apply api_emits; [apply lists_only_quiet|intros req Hu _ _; exact Hu]
      |intros response].
    destruct (negb (ok response)); [apply emits_throw|].
    apply emits_bind; [apply emits_response_json|intros data].
    apply emits_bind; [apply emits_modify; reflexivity|intros _].
    apply emits_bind; [apply renderAllocations_emits|intros _].
    apply emits_bind; [apply renderSummary_emits|intros _].
    apply emits_bind; [apply emits_gets|intros l].
    apply setStatus_emits, lists_only_quiet.
  - intros e.
    apply emits_bind; [apply console_error_emits, lists_only_quiet|intros _].
    apply emits_bind; [apply setStatus_emits, lists_only_quiet|intros _].
    apply set_innerHTML_emits.
Qed.

(** X15: a creation that succeeds from the open form closes it and
    reloads the list.  After the answer, the handler shows the success
    status, closes the form, runs [loadAllocations] from there, schedules
    the follow-up message one second later and gives the create button
    back, in this order: the world it ends in is exactly that.  So the
    form is hidden, its three fields are empty and the mode is back to
    'hosts', and the trace has, after the success status, the "Loading..."
    status of the reload, then what the reload does, then the scheduled
    message. *)
Theorem create_success_closes_form (env : Env) (w w3 : World) (r : Response) :
  createAllocation_refusal w = None ->
  contains "show" (classList (dom w "allocation-form")) = true ->
  Auth.api env "/allocate"
    (mkInit (Some "POST") json_headers (Some (createAllocation_payload w)))
    (snd (setStatus "Creating allocation..." "loading"
            (snd (showCreateLoading true w)))) = (Normal r, w3) ->
  ok r = true ->
  (forall m, body r <> NotJson m) ->
  let w' := snd (createAllocation env w) in
  w' = snd (showCreateLoading false
              (log (EvTimeout 1000 (body r))
                 (snd (loadAllocations env
                         (snd (toggleAllocationForm
                                 (snd (setStatus "Allocation created successfully!"
                                                 "success" w3))))))))
  /\ contains "show" (classList (dom w' "allocation-form")) = false
  /\ value (dom w' "vpc-name") = EmptyString
  /\ value (dom w' "host-count") = EmptyString
  /\ value (dom w' "prefix-length") = EmptyString
  /\ allocationMode w' = "hosts"
  /\ exists evs,
       trace w'
       = EvTimeout 1000 (body r)
         :: evs ++ EvStatus "Loading..." "loading"
         :: EvStatus "Allocation created successfully!" "success" :: trace w3
       /\ Forall lists_only evs.
Proof.
  intros Hpass Hshown Hapi Hok Hjson w'. subst w'.
  rewrite createAllocation_cases, Hpass, createAllocation_submit_world.
  unfold try_catch. rewrite (bind_normal _ _ _ _ _ Hapi).
  unfold createAllocation_answered. rewrite Hok. cbn [negb].
  rewrite (response_json_ok _ Hjson), bind_ret.
  rewrite bind_unit by reflexivity.
  set (w4 := snd (setStatus "Allocation created successfully!" "success" w3)).
  rewrite bind_unit by apply completes_unit, toggleAllocationForm_completes.
  rewrite bind_unit by apply completes_unit, loadAllocations_completes.
  split; [reflexivity|].
  set (w5 := snd (toggleAllocationForm w4)).
  pose proof (loadAllocations_touches env w5) as [Hd Hm].
  pose proof (loadAllocations_after_loading env w5) as (evs & Ht & Hevs).
  change (trace (snd (showLoading true w5)))
    with (EvStatus "Loading..." "loading" :: trace w5) in Ht.
  set (w6 := snd (loadAllocations env w5)) in *.
  assert (Hform : dom w4 "allocation-form" = dom w "allocation-form").
  { pose proof (api_frame env "/allocate"
                  (mkInit (Some "POST") json_headers
                          (Some (createAllocation_payload w)))
                  (snd (setStatus "Creating allocation..." "loading"
                          (snd (showCreateLoading true w))))) as (_ & Hdom & _).
    rewrite Hapi in Hdom. simpl in Hdom. subst w4. simpl. rewrite Hdom. reflexivity. }
  assert (Hw5 : w5 = snd ((set_value "vpc-name" EmptyString ;;
                           set_value "host-count" EmptyString ;;
                           set_value "prefix-length" EmptyString ;;
                           setAllocationMode "hosts")
                            (snd (set_classList "allocation-form"
                                    (toggle_class "show") w4)))).
  { subst w5. rewrite toggleAllocationForm_world. cbv zeta.
    rewrite Hform, Hshown. reflexivity. }
  assert (Htr4 : trace w4
                 = EvStatus "Allocation created successfully!" "success" :: trace w3)
    by reflexivity.
  assert (Hshown4 : contains "show"
                      (toggle_class "show" (classList (dom w4 "allocation-form")))
                    = false).
  { rewrite contains_toggle_class, Hform, Hshown. reflexivity. }
  clearbody w4. clearbody w5. clearbody w6. subst w5.
  match goal with
  | |- context [ snd (showCreateLoading false ?W) ] =>
      change (snd (showCreateLoading false W))
        with (snd (showCreateLoading false (log (EvTimeout 1000 (body r)) w6)))
  end.
  split; [|split; [|split; [|split; [|split]]]].
  - simpl. rewrite Hd by reflexivity. exact Hshown4.
  - simpl. rewrite Hd by reflexivity. reflexivity.
  - simpl. rewrite Hd by reflexivity. reflexivity.
  - simpl. rewrite Hd by reflexivity. reflexivity.
  - simpl. rewrite Hm. reflexivity.
  - exists evs. split; [|exact Hevs]. simpl. rewrite Ht. simpl. rewrite Htr4.
    reflexivity.
Qed.

Lemma create_success_closes_form_witness :
  value (dom (snd (createAllocation
                     (Samples.env None (Samples.listing []))
                     (Samples.world_open "secret" "prod" "100")))
             "vpc-name")
  = EmptyString.
Proof.
  apply (create_success_closes_form (Samples.env None (Samples.listing []))
           (Samples.world_open "secret" "prod" "100")
           (snd (Auth.api (Samples.env None (Samples.listing [])) "/allocate"
                   (mkInit (Some "POST") json_headers
                      (Some (createAllocation_payload
                               (Samples.world_open "secret" "prod" "100"))))
                   (snd (setStatus "Creating allocation..." "loading"
                           (snd (showCreateLoading true
                                   (Samples.world_open "secret" "prod" "100")))))))
           (Samples.listing [])).
  - reflexivity.
  - reflexivity.
  - vm_compute. reflexivity.
  - reflexivity.
  - intros m. discriminate.
Defined.

(** *** The keyboard *)

Lemma completes_createAllocation (env : Env) : completes (createAllocation env).
Proof.
  intros w. rewrite createAllocation_cases.
  destruct (createAllocation_refusal w) as [[m f]|]; [eexists; reflexivity|].
  apply createAllocation_submit_completes.
Qed.

(** X16: the [keydown] listener.  Enter submits the form, and has its
    default action prevented, only when the form is shown; Escape closes
    a form that is shown and never opens one that is hidden; with any
    other key, and with Enter on a hidden form, nothing changes. *)
Theorem onKeydown_keys (env : Env) (key : string) (w : World) :
  let shown := contains "show" (classList (dom w "allocation-form")) in
  let r := onKeydown env key w in
  if strict_eq key "Enter" then
    if shown then
      snd r = snd (createAllocation env w)
      /\ fst r = Normal true
    else r = (Normal false, w)
  else if strict_eq key "Escape" then
    fst r = Normal false
    /\ contains "show" (classList (dom (snd r) "allocation-form")) = false
    /\ (if shown then snd r = snd (toggleAllocationForm w) else snd r = w)
  else r = (Normal false, w).
Proof.
  cbv zeta. unfold onKeydown, classList_contains. rewrite bind_gets.
  remember (contains "show" (classList (dom w "allocation-form"))) as shown eqn:Hs.
  destruct (strict_eq key "Enter") eqn:HE.
  - apply String.eqb_eq in HE. subst key. cbn [andb].
    change (strict_eq "Enter" "Escape") with false. cbv iota.
    destruct shown; [|reflexivity].
    unfold bind, floating, ret.
    destruct (completes_createAllocation env w) as [[] Hc].
    destruct (createAllocation env w) as [c w1]. cbn [fst] in Hc. subst c.
    split; reflexivity.
  - cbn [andb]. rewrite bind_ret.
    destruct (strict_eq key "Escape") eqn:HX; [|reflexivity].
    rewrite bind_bind, bind_gets. rewrite <- Hs.
    destruct shown.
    + rewrite bind_unit by apply completes_unit, toggleAllocationForm_completes.
      split; [reflexivity|]. split; [|reflexivity].
      cbn [snd ret]. rewrite toggleAllocationForm_world. cbv zeta.
      rewrite <- Hs.
      change (contains "show"
                (toggle_class "show" (classList (dom w "allocation-form"))) = false).
      rewrite contains_toggle_class, <- Hs. reflexivity.
    + split; [reflexivity|]. split; [symmetry; exact Hs|reflexivity].
Qed.

(** *** The stored key *)

Lemma keeps_key_refl (k : string) (w : World) : Auth.keeps_key k w w.
Proof. intros _. split; [reflexivity|apply grows_by_refl]. Qed.

Lemma keeps_key_trans (k : string) (w1 w2 w3 : World) :
  Auth.keeps_key k w1 w2 -> Auth.keeps_key k w2 w3 -> Auth.keeps_key k w1 w3.
Proof.
  intros H12 H23 Hs. destruct (H12 Hs) as [Hl Hg].
  assert (Hs2 : Auth.stored k w2) by (unfold Auth.stored; rewrite Hl; exact Hs).
  destruct (H23 Hs2) as [Hl' Hg'].
  split; [congruence|eapply grows_by_trans; eassumption].
Qed.

Lemma keeps_key_same (k : string) (f : World -> World) :
  (forall w, localStorage (f w) = localStorage w) ->
  (forall w, trace (f w) = trace w) ->
  relates (Auth.keeps_key k) (modify f).
Proof.
  intros Hl Ht w _. split; [apply Hl|]. apply grows_by_same, Ht.
Qed.

Lemma keeps_key_log (k : string) (e : Event) :
  Auth.asks_key e = false -> relates (Auth.keeps_key k) (modify (log e)).
Proof. intros He w _. split; [reflexivity|]. apply grows_by_log, He. Qed.

Lemma keeps_key_api (k : string) (env : Env) (input : string) (init : Init) :
  truthy_string k = true -> relates (Auth.keeps_key k) (Auth.api env input init).
Proof.
  intros Ht w Hs. destruct (api_stored env input init w k Hs Ht) as [Hl Hg].
  split; [exact Hl|]. eapply grows_by_weaken; [|exact Hg].
  intros [] H; try reflexivity. discriminate.
Qed.

Lemma keeps_key_prompt (k : string) (env : Env) (m : string) (d : option string) :
  String.eqb m "Enter API key" = false ->
  relates (Auth.keeps_key k) (window_prompt env m d).
Proof. intros Hm w _. split; [reflexivity|]. apply grows_by_log, Hm. Qed.

Lemma keeps_key_confirm (k : string) (env : Env) (m : string) :
  relates (Auth.keeps_key k) (window_confirm env m).
Proof. intros w _. split; [reflexivity|]. apply grows_by_log. reflexivity. Qed.

Section Kept.
Variables (env : Env) (k : string).
Hypothesis k_truthy : truthy_string k = true.

Ltac kept :=
  repeat first
    [ exact (keeps_key_refl k)
    | exact (keeps_key_trans k)
    | apply keeps_key_api; exact k_truthy
    | apply keeps_key_confirm
    | apply keeps_key_prompt; reflexivity
    | apply relates_ret | apply relates_throw | apply relates_unmodelled
    | apply relates_gets | apply relates_response_json
    | apply keeps_key_log; reflexivity
    | apply keeps_key_same; intros ?; reflexivity
    | apply relates_bind; [..|intros ?]
    | apply relates_try_catch; [..|intros ?]
    | apply relates_finally
    | apply relates_floating
    | match goal with
      | |- relates _ (if ?b then _ else _) => destruct b
      | |- relates _ (match ?o with Some _ => _ | None => _ end) => destruct o
      end ].

Lemma setStatus_kept (m t : string) : relates (Auth.keeps_key k) (setStatus m t).
Proof. unfold setStatus, set_textContent, set_className. kept. Qed.

Lemma loadAllocations_kept : relates (Auth.keeps_key k) (loadAllocations env).
Proof.
  unfold loadAllocations, showLoading, renderAllocations, renderSummary, setStatus,
    console_error, set_textContent, set_className, set_display, set_innerHTML.
  kept.
Qed.

Lemma toggleAllocationForm_kept : relates (Auth.keeps_key k) toggleAllocationForm.
Proof.
  unfold toggleAllocationForm, setAllocationMode, classList_contains, focus,
    set_value, set_classList, set_display.
  kept.
Qed.

Lemma createAllocation_kept : relates (Auth.keeps_key k) (createAllocation env).
Proof.
  intros w. rewrite createAllocation_cases.
  destruct (createAllocation_refusal w) as [[m f]|].
  - eapply keeps_key_trans; [apply setStatus_kept|].
    apply (keeps_key_same k (with_focus f)); intros w1; reflexivity.
  - revert w. change (relates (Auth.keeps_key k)
                        (fun w => createAllocation_submit env
                                    (createAllocation_payload w) w)).
    intros w. generalize (createAllocation_payload w). intros payload. revert w.
    change (relates (Auth.keeps_key k) (createAllocation_submit env payload)).
    unfold createAllocation_submit, createAllocation_answered,
      createAllocation_failed, showCreateLoading, console_error, set_display.
    repeat first
      [ apply setStatus_kept | apply loadAllocations_kept
      | apply toggleAllocationForm_kept | progress kept ].
Qed.

Lemma mutation_kept (url fallback label : string) (init : Init) (done : M unit) :
  relates (Auth.keeps_key k) done ->
  relates (Auth.keeps_key k)
    (try_catch
       (response <- Auth.api env url init ;;
        if negb (ok response) then
          errorData <- response_json response ;;
          throw (mkError (detail_or errorData fallback))
        else done)
       (fun error =>
          console_error label error ;;
          setStatus ("Error: " +:+ message_of error) "error")).
Proof.
  intros Hdone. unfold console_error.
  repeat first [ exact Hdone | apply setStatus_kept | progress kept ].
Qed.

Lemma handlers_kept :
  relates (Auth.keeps_key k) (loadAllocations env)
  /\ relates (Auth.keeps_key k) (createAllocation env)
  /\ (forall allocationId currentVpc,
        relates (Auth.keeps_key k) (editAllocationVpc env allocationId currentVpc))
  /\ (forall allocationId primaryCidr,
        relates (Auth.keeps_key k) (deleteAllocation env allocationId primaryCidr))
  /\ (forall vpcName, relates (Auth.keeps_key k) (deleteVpc env vpcName))
  /\ (forall key, relates (Auth.keeps_key k) (onKeydown env key)).
Proof.
  assert (Hdone : forall m t, relates (Auth.keeps_key k)
                                (setStatus m t ;; loadAllocations env)).
  { intros m t. apply relates_bind;
      [apply keeps_key_trans|apply setStatus_kept|intros _; apply loadAllocations_kept]. }
  split; [apply loadAllocations_kept|]. split; [apply createAllocation_kept|].
  split; [|split; [|split]].
  - intros allocationId currentVpc. unfold editAllocationVpc.
    apply relates_bind; [apply keeps_key_trans|apply keeps_key_prompt; reflexivity|].
    intros [s|]; [|apply relates_ret, keeps_key_refl].
    match goal with |- relates _ (if ?b then _ else _) => destruct b end;
      [apply relates_ret, keeps_key_refl|].
    apply relates_bind; [apply keeps_key_trans|apply setStatus_kept|intros _].
    apply mutation_kept, Hdone.
  - intros allocationId primaryCidr. unfold deleteAllocation.
    apply relates_bind; [apply keeps_key_trans|apply keeps_key_confirm|intros b].
    destruct (negb b); [apply relates_ret, keeps_key_refl|].
    apply relates_bind; [apply keeps_key_trans|apply setStatus_kept|intros _].
    apply mutation_kept, Hdone.
  - intros vpcName. unfold deleteVpc.
    apply relates_bind; [apply keeps_key_trans|apply relates_gets, keeps_key_refl|intros l].
    apply relates_bind; [apply keeps_key_trans|apply keeps_key_confirm|intros b].
    destruct (negb b); [apply relates_ret, keeps_key_refl|].
    apply relates_bind; [apply keeps_key_trans|apply setStatus_kept|intros _].
    apply mutation_kept, Hdone.
  - intros key. unfold onKeydown, classList_contains.
    repeat first
      [ apply createAllocation_kept | apply toggleAllocationForm_kept | progress kept ].
Qed.

End Kept.

(** X17: the dashboard never clears or replaces a stored key.  With a
    non-empty key in localStorage, no handler (loading, creating, moving,
    deleting, the keyboard) changes localStorage or asks for a key, whatever
    the server answers, a refusal of that key included. *)
Theorem stored_key_is_kept (env : Env) (k : string) :
  truthy_string k = true ->
  relates (Auth.keeps_key k) (loadAllocations env)
  /\ relates (Auth.keeps_key k) (createAllocation env)
  /\ (forall allocationId currentVpc,
        relates (Auth.keeps_key k) (editAllocationVpc env allocationId currentVpc))
  /\ (forall allocationId primaryCidr,
        relates (Auth.keeps_key k) (deleteAllocation env allocationId primaryCidr))
  /\ (forall vpcName, relates (Auth.keeps_key k) (deleteVpc env vpcName))
  /\ (forall key, relates (Auth.keeps_key k) (onKeydown env key)).
Proof. apply handlers_kept. Qed.

Lemma stored_key_is_kept_witness :
  relates (Auth.keeps_key "secret")
          (loadAllocations (Samples.env None (Samples.refused 401 (Some "Invalid API key")))).
Proof.
  destruct (stored_key_is_kept
              (Samples.env None (Samples.refused 401 (Some "Invalid API key")))
              "secret") as [H _]; [reflexivity|exact H].
Defined.

(** *** The summary *)

Lemma size_list_to_set_remove_dups (l : list string) :
  size (list_to_set l : gset string) = length (remove_dups l).
Proof.
  rewrite <- (size_list_to_set (C := gset string) (remove_dups l))
    by apply NoDup_remove_dups.
  f_equal. apply set_eq. intros x.
  rewrite !elem_of_list_to_set, elem_of_remove_dups. reflexivity.
Qed.

Lemma length_remove_dups (l : list string) :
  (length (remove_dups l) <= length l)%nat.
Proof.
  induction l as [|x l IH]; [reflexivity|].
  simpl. destruct (decide_rel elem_of x l); simpl; lia.
Qed.

Lemma length_remove_dups_pos (x : string) (l : list string) :
  (1 <= length (remove_dups (x :: l)))%nat.
Proof.
  assert (H : x ∈ remove_dups (x :: l)) by (apply elem_of_remove_dups; left).
  destruct (remove_dups (x :: l)); [apply elem_of_nil in H; contradiction|simpl; lia].
Qed.

(** X18: the summary.  With an empty cache [renderSummary] hides the
    summary and leaves its content as it was; otherwise it shows it as a
    grid, with the number of allocations and, for the VPCs, the number of
    distinct VPC names among them, which is at least one and at most the
    number of allocations. *)
Theorem renderSummary_counts (w : World) :
  let l := allocations w in
  let w' := snd (renderSummary w) in
  match l with
  | [] =>
      display (dom w' "summary-stats") = "none"
      /\ innerHTML (dom w' "summary-stats") = innerHTML (dom w "summary-stats")
  | _ :: _ =>
      display (dom w' "summary-stats") = "grid"
      /\ exists vpcCount primary cgnat,
           innerHTML (dom w' "summary-stats")
           = SummaryCards vpcCount (length l) primary cgnat
           /\ vpcCount = length (remove_dups (map vpc l))
           /\ (1 <= vpcCount <= length l)%nat
  end.
Proof.
  cbv zeta. unfold renderSummary. rewrite bind_gets.
  destruct (allocations w) as [|a l] eqn:E; [split; reflexivity|].
  split; [reflexivity|].
  do 3 eexists. split; [reflexivity|].
  rewrite size_list_to_set_remove_dups. split; [reflexivity|].
  split; [apply length_remove_dups_pos|].
  etransitivity; [apply length_remove_dups|]. rewrite length_map. reflexivity.
Qed.

(** *** The requests of the handlers that move and delete *)

Section Requests.
Variables (env : Env) (P : Event -> Prop).
Hypothesis quiet : forall e, is_fetch e = false -> P e.
Hypothesis lists : forall req, req_url req = "/allocations" -> P (EvFetch req).

Lemma mutation_emits (url fallback label : string) (init : Init) (m t : string) :
  (forall req, req_url req = url -> req_method req = init_method init ->
               req_body req = init_body init -> P (EvFetch req)) ->
  emits P
    (try_catch
       (response <- Auth.api env url init ;;
        if negb (ok response) then
          errorData <- response_json response ;;
          throw (mkError (detail_or errorData fallback))
        else setStatus m t ;; loadAllocations env)
       (fun error =>
          console_error label error ;;
          setStatus ("Error: " +:+ message_of error) "error")).
Proof.
  intros Hreq. apply emits_try_catch.
  - apply emits_bind; [apply api_emits; [exact quiet|exact Hreq]|intros r].
    destruct (negb (ok r)).
    + apply emits_bind; [apply emits_response_json|intros d]. apply emits_throw.
    + apply emits_bind; [apply setStatus_emits, quiet|intros _].
      apply loadAllocations_emits; [exact quiet|exact lists].
  - intros e. apply emits_bind; [apply console_error_emits, quiet|intros _].
    apply setStatus_emits, quiet.
Qed.

End Requests.

(** X19: the one request by which [editAllocationVpc] moves an
    allocation: a PUT to [/allocations/<id>] whose body is the object with
    the single member [new_vpc_name], the trimmed answer of the user, which
    is neither empty nor the current VPC name.  Whatever else it requests
    is the list of allocations. *)
Theorem editAllocationVpc_request (env : Env) (allocationId : Z) (currentVpc : string)
        (w : World) :
  grows_by
    (fun e =>
       match e with
       | EvFetch req =>
           req_url req = "/allocations"
           \/ (req_url req = "/allocations/" +:+ pretty allocationId
               /\ req_method req = Some "PUT"
               /\ exists answer,
                    prompt_answer env (trace w) "Move this allocation to which VPC?"
                                  (Some currentVpc) = Some answer
                    /\ trim answer <> EmptyString
                    /\ trim answer <> currentVpc
                    /\ req_body req = Some [("new_vpc_name", JString (trim answer))])
       | _ => True
       end)
    w (snd (editAllocationVpc env allocationId currentVpc w)).
Proof.
  set (P := fun e => match e with EvFetch _ => _ | _ => True end).
  assert (Hquiet : forall e, is_fetch e = false -> P e).
  { intros [] Hf; try exact I. discriminate. }
  assert (Hlists : forall req, req_url req = "/allocations" -> P (EvFetch req)).
  { intros req Hu. left. exact Hu. }
  unfold editAllocationVpc. rewrite bind_window_prompt.
  destruct (prompt_answer env (trace w) "Move this allocation to which VPC?"
                          (Some currentVpc)) as [answer|] eqn:Hans.
  2: { apply grows_by_log. exact I. }
  destruct (negb (truthy_string answer)) eqn:Ht; cbn [orb].
  { apply grows_by_log. exact I. }
  destruct (strict_eq (trim answer) EmptyString) eqn:He; cbn [orb].
  { apply grows_by_log. exact I. }
  destruct (strict_eq (trim answer) currentVpc) eqn:Hc.
  { apply grows_by_log. exact I. }
  lazymatch goal with
  | |- grows_by _ _ (snd (_ ?w1)) =>
      apply (grows_by_trans P w w1); [apply grows_by_log; exact I|]
  end.
  apply emits_bind; [apply setStatus_emits, Hquiet|intros _].
  apply mutation_emits; [exact Hquiet|exact Hlists|].
  intros req Hu Hm Hb. right. split; [exact Hu|]. split; [exact Hm|].
  exists answer. split; [reflexivity|].
  unfold strict_eq in He, Hc. apply String.eqb_neq in He. apply String.eqb_neq in Hc.
  split; [exact He|]. split; [exact Hc|exact Hb].
Qed.

(** X20: [deleteAllocation] and [deleteVpc] ask first.  They make a
    request only when the user has confirmed; the request that deletes is
    a DELETE without body, to [/allocations/<id>], or to [/vpcs/] followed
    by the encoded VPC name; whatever else they request is the list of
    allocations. *)
Theorem delete_requests (env : Env) (w : World) :
  (forall allocationId primaryCidr,
      grows_by
        (fun e =>
           match e with
           | EvFetch req =>
               confirm_answer env (trace w)
                 ("Are you sure you want to delete allocation " +:+ dq +:+ primaryCidr
                  +:+ dq +:+ "?" +:+ nl +:+ nl +:+ "This action cannot be undone.")
               = true
               /\ (req_url req = "/allocations"
                   \/ (req_url req = "/allocations/" +:+ pretty allocationId
                       /\ req_method req = Some "DELETE"
                       /\ req_body req = None))
           | _ => True
           end)
        w (snd (deleteAllocation env allocationId primaryCidr w)))
  /\ (forall vpcName,
         grows_by
           (fun e =>
              match e with
              | EvFetch req =>
                  confirm_answer env (trace w)
                    ("Are you sure you want to delete VPC " +:+ dq +:+ vpcName +:+ dq
                     +:+ "?" +:+ nl +:+ nl +:+ "This will delete "
                     +:+ pretty (length (List.filter
                                           (fun a => strict_eq (vpc a) vpcName)
                                           (allocations w)))
                     +:+ " allocation(s) for this VPC. This action cannot be undone.")
                  = true
                  /\ (req_url req = "/allocations"
                      \/ (req_url req = "/vpcs/" +:+ encodeURIComponent vpcName
                          /\ req_method req = Some "DELETE"
                          /\ req_body req = None))
              | _ => True
              end)
           w (snd (deleteVpc env vpcName w))).
Proof.
  split.
  - intros allocationId primaryCidr.
    set (P := fun e => match e with EvFetch _ => _ | _ => True end).
    assert (Hquiet : forall e, is_fetch e = false -> P e).
    { intros [] Hf; try exact I. discriminate. }
    unfold deleteAllocation. rewrite bind_window_confirm.
    destruct (confirm_answer env (trace w) _) eqn:Hyes; cbn [negb].
    2: { apply grows_by_log. exact I. }
    lazymatch goal with
    | |- grows_by _ _ (snd (_ ?w1)) =>
        apply (grows_by_trans P w w1); [apply grows_by_log; exact I|]
    end.
    apply emits_bind; [apply setStatus_emits, Hquiet|intros _].
    apply mutation_emits; [exact Hquiet| |].
    + intros req Hu. split; [reflexivity|]. left. exact Hu.
    + intros req Hu Hm Hb. split; [reflexivity|]. right. auto.
  - intros vpcName.
    set (P := fun e => match e with EvFetch _ => _ | _ => True end).
    assert (Hquiet : forall e, is_fetch e = false -> P e).
    { intros [] Hf; try exact I. discriminate. }
    unfold deleteVpc. rewrite bind_gets. cbv zeta. rewrite bind_window_confirm.
    destruct (confirm_answer env (trace w) _) eqn:Hyes; cbn [negb].
    2: { apply grows_by_log. exact I. }
    lazymatch goal with
    | |- grows_by _ _ (snd (_ ?w1)) =>
        apply (grows_by_trans P w w1); [apply grows_by_log; exact I|]
    end.
    apply emits_bind; [apply setStatus_emits, Hquiet|intros _].
    apply mutation_emits; [exact Hquiet| |].
    + intros req Hu. split; [reflexivity|]. left. exact Hu.
    + intros req Hu Hm Hb. split; [reflexivity|]. right. auto.
Qed.

(** X21: a deletion that the user declines changes nothing: the
    handler returns with the question and its answer added to the trace,
    the status line, the cache and the page as they were. *)
Theorem delete_declined (env : Env) (w : World) (allocationId : Z)
        (primaryCidr vpcName : string) :
  let askAllocation :=
    "Are you sure you want to delete allocation " +:+ dq +:+ primaryCidr
    +:+ dq +:+ "?" +:+ nl +:+ nl +:+ "This action cannot be undone." in
  let askVpc :=
    "Are you sure you want to delete VPC " +:+ dq +:+ vpcName +:+ dq
    +:+ "?" +:+ nl +:+ nl +:+ "This will delete "
    +:+ pretty (length (List.filter (fun a => strict_eq (vpc a) vpcName)
                                    (allocations w)))
    +:+ " allocation(s) for this VPC. This action cannot be undone." in
  (confirm_answer env (trace w) askAllocation = false ->
   deleteAllocation env allocationId primaryCidr w
   = (Normal tt, log (EvConfirm askAllocation false) w))
  /\ (confirm_answer env (trace w) askVpc = false ->
      deleteVpc env vpcName w = (Normal tt, log (EvConfirm askVpc false) w)).
Proof.
  intros askAllocation askVpc. split; intros Hno.
  - unfold deleteAllocation. rewrite bind_window_confirm. fold askAllocation.
    rewrite Hno. reflexivity.
  - unfold deleteVpc. rewrite bind_gets. cbv zeta. rewrite bind_window_confirm.
    fold askVpc. rewrite Hno. reflexivity.
Qed.

Lemma delete_declined_witness :
  deleteVpc (Samples.cautious (Samples.deleted 0)) "prod"
            (Samples.world_with_key "secret" "prod" "100")
  = (Normal tt,
     log (EvConfirm
            ("Are you sure you want to delete VPC " +:+ dq +:+ "prod" +:+ dq
             +:+ "?" +:+ nl +:+ nl +:+ "This will delete 0"
             +:+ " allocation(s) for this VPC. This action cannot be undone.")
            false)
         (Samples.world_with_key "secret" "prod" "100")).
Proof.
  pose proof (delete_declined (Samples.cautious (Samples.deleted 0))
                (Samples.world_with_key "secret" "prod" "100") 1 "10.0.0.0/25" "prod")
    as H.
  cbv zeta in H. destruct H as [_ H]. apply H. reflexivity.
Defined.

(** *** The encoding of a VPC name in a URL *)

Lemma all_url_safe_app (s t : string) :
  all_url_safe (s +:+ t) = all_url_safe s && all_url_safe t.
Proof.
  induction s as [|c s IH]; [rewrite append_nil_l; reflexivity|].
  rewrite append_cons. simpl. rewrite IH. apply andb_assoc.
Qed.

Lemma encodeURIComponent_cons (a : ascii) (s : string) :
  encodeURIComponent (String a s)
  = (if is_unreserved a then String a EmptyString
     else if code a <? 128 then percent (code a)
          else percent (192 + code a / 64) +:+ percent (128 + code a mod 64))
    +:+ encodeURIComponent s.
Proof. reflexivity. Qed.

(** X22: what [encodeURIComponent] writes has only unreserved
    characters and percent signs: no slash, question mark, hash or space
    of a VPC name reaches the URL that [deleteVpc] requests. *)
Theorem encodeURIComponent_safe (s : string) :
  all_url_safe (encodeURIComponent s) = true.
Proof.
  induction s as [|a s IH]; [reflexivity|].
  rewrite encodeURIComponent_cons, all_url_safe_app, IH, andb_true_r.
  destruct a as [[] [] [] [] [] [] [] []]; vm_compute; reflexivity.
Qed.

Lemma decode_first_encoded (a : ascii) (rest : string) :
  decode_first
    ((if is_unreserved a then String a EmptyString
      else if code a <? 128 then percent (code a)
           else percent (192 + code a / 64) +:+ percent (128 + code a mod 64))
     +:+ rest)
  = Some (a, rest).
Proof.
  destruct a as [[] [] [] [] [] [] [] []]; reflexivity.
Qed.

(** X23: [encodeURIComponent] is injective: two VPC names that differ
    never give the same URL to [deleteVpc]. *)
Theorem encodeURIComponent_injective (s t : string) :
  encodeURIComponent s = encodeURIComponent t -> s = t.
Proof.
  revert t. induction s as [|a s IH]; intros [|b t] H.
  - reflexivity.
  - rewrite encodeURIComponent_cons in H. apply (f_equal decode_first) in H.
    rewrite decode_first_encoded in H. discriminate.
  - rewrite encodeURIComponent_cons in H. apply (f_equal decode_first) in H.
    rewrite decode_first_encoded in H. discriminate.
  - rewrite !encodeURIComponent_cons in H. apply (f_equal decode_first) in H.
    rewrite !decode_first_encoded in H. injection H as -> H. f_equal. apply IH, H.
Qed.

Lemma encodeURIComponent_injective_witness :
  ("team a/b" : string) = "team a/b".
Proof.
  apply (encodeURIComponent_injective "team a/b" "team a/b").
  reflexivity.
Defined.

(** X24: loading the list writes only to the status line, the refresh
    button, the list and the summary: every other element of the page,
    the creation form and its fields among them, is as it was, and so is
    the allocation mode. *)
Theorem loadAllocations_leaves_form (env : Env) (w : World) :
  touches_only load_elements w (snd (loadAllocations env w)).
Proof. apply loadAllocations_touches. Qed.

(** *** When moving or deleting fails *)

Lemma mutation_failed (env : Env) (url fallback label : string) (init : Init)
      (done : M unit) (w : World) (e : Error) :
  mutation_error fallback (fst (Auth.api env url init w)) e ->
  snd (try_catch
         (response <- Auth.api env url init ;;
          if negb (ok response) then
            errorData <- response_json response ;;
            throw (mkError (detail_or errorData fallback))
          else done)
         (fun error =>
            console_error label error ;;
            setStatus ("Error: " +:+ message_of error) "error") w)
  = shows_error label e (snd (Auth.api env url init w)).
Proof.
  intros H. unfold try_catch, shows_error.
  destruct (Auth.api env url init w) as [c w1] eqn:E. simpl in H. cbn [snd].
  destruct H as [->|(r & -> & Hok & ->)].
  - rewrite (bind_throw _ _ _ _ _ E). reflexivity.
  - rewrite (bind_normal _ _ _ _ _ E). rewrite Hok. cbn [negb].
    unfold response_json. destruct (body r); reflexivity.
Qed.

(** X25: when the request of [editAllocationVpc], [deleteAllocation]
    or [deleteVpc] fails ([api] throws, or the answer is not a success),
    the handler logs the error and shows "Error: " with the [detail] of
    the answer, or the handler's own fallback text when there is none, or
    the parser's message when the body is not JSON; it does nothing more:
    the list is not reloaded and the cache stays as it was. *)
Theorem mutation_failure_shows_error (env : Env) (w : World) (e : Error) :
  (forall allocationId currentVpc answer,
      let started :=
        snd (setStatus "Moving allocation to new VPC..." "loading"
               (log (EvPrompt "Move this allocation to which VPC?" (Some currentVpc)
                              (Some answer)) w)) in
      let request :=
        Auth.api env ("/allocations/" +:+ pretty allocationId)
          (mkInit (Some "PUT") json_headers
                  (Some [("new_vpc_name", JString (trim answer))])) started in
      prompt_answer env (trace w) "Move this allocation to which VPC?" (Some currentVpc)
      = Some answer ->
      trim answer <> EmptyString ->
      trim answer <> currentVpc ->
      mutation_error "Failed to move allocation" (fst request) e ->
      snd (editAllocationVpc env allocationId currentVpc w)
      = shows_error "Error moving allocation:" e (snd request))
  /\ (forall allocationId primaryCidr,
         let question :=
           "Are you sure you want to delete allocation " +:+ dq +:+ primaryCidr
           +:+ dq +:+ "?" +:+ nl +:+ nl +:+ "This action cannot be undone." in
         let started :=
           snd (setStatus "Deleting allocation..." "loading"
                  (log (EvConfirm question true) w)) in
         let request :=
           Auth.api env ("/allocations/" +:+ pretty allocationId)
             (mkInit (Some "DELETE") None None) started in
         confirm_answer env (trace w) question = true ->
         mutation_error "Failed to delete allocation" (fst request) e ->
         snd (deleteAllocation env allocationId primaryCidr w)
         = shows_error "Error deleting allocation:" e (snd request))
  /\ (forall vpcName,
         let question :=
           "Are you sure you want to delete VPC " +:+ dq +:+ vpcName +:+ dq
           +:+ "?" +:+ nl +:+ nl +:+ "This will delete "
           +:+ pretty (length (List.filter (fun a => strict_eq (vpc a) vpcName)
                                           (allocations w)))
           +:+ " allocation(s) for this VPC. This action cannot be undone." in
         let started :=
           snd (setStatus "Deleting VPC..." "loading"
                  (log (EvConfirm question true) w)) in
         let request :=
           Auth.api env ("/vpcs/" +:+ encodeURIComponent vpcName)
             (mkInit (Some "DELETE") None None) started in
         confirm_answer env (trace w) question = true ->
         mutation_error "Failed to delete VPC" (fst request) e ->
         snd (deleteVpc env vpcName w)
         = shows_error "Error deleting VPC:" e (snd request)).
Proof.
  split; [|split].
  - intros allocationId currentVpc answer started request Hans He Hc Herr.
    unfold editAllocationVpc. rewrite bind_window_prompt, Hans.
    assert (Ht : truthy_string answer = true).
    { destruct answer; [|reflexivity]. exfalso. apply He. reflexivity. }
    apply String.eqb_neq in He. apply String.eqb_neq in Hc.
    unfold strict_eq. rewrite Ht, He, Hc. cbn [negb orb].
    rewrite bind_unit by reflexivity.
    apply (mutation_failed env _ _ _ _ _ started e Herr).
  - intros allocationId primaryCidr question started request Hyes Herr.
    unfold deleteAllocation. rewrite bind_window_confirm. fold question.
    rewrite Hyes. cbn [negb]. rewrite bind_unit by reflexivity.
    apply (mutation_failed env _ _ _ _ _ started e Herr).
  - intros vpcName question started request Hyes Herr.
    unfold deleteVpc. rewrite bind_gets. cbv zeta. rewrite bind_window_confirm.
    fold question. rewrite Hyes. cbn [negb]. rewrite bind_unit by reflexivity.
    apply (mutation_failed env _ _ _ _ _ started e Herr).
Qed.

Lemma mutation_failure_shows_error_witness :
  exists rest,
    trace (snd (deleteAllocation
                  (Samples.env None (Samples.refused 404 (Some "Allocation not found")))
                  7 "10.0.0.0/25"
                  (Samples.world_with_key "secret" "prod" "100")))
    = EvStatus "Error: Allocation not found" "error" :: rest.
Proof.
  pose proof (mutation_failure_shows_error
                (Samples.env None (Samples.refused 404 (Some "Allocation not found")))
                (Samples.world_with_key "secret" "prod" "100")
                (mkError "Allocation not found")) as (_ & H & _).
  rewrite (H 7 "10.0.0.0/25").
  - eexists. reflexivity.
  - reflexivity.
  - right. eexists. split; [vm_compute; reflexivity|]. split; reflexivity.
Defined.

(** *** The payload of a creation *)

(** X26: what [createAllocation] sends.  A form that passes its checks
    is always submitted, and a form that does not is refused with the
    message and the focus of the first check that fails.  The payload has
    exactly two members: [vpc], the trimmed name, and one sizing key chosen
    by the mode, [hosts] in 'hosts' mode and [prefix_length] otherwise,
    never both; its value is [parseInt] of that field (null when it reads
    no number).  Every request the handler makes is the POST to
    [/allocate] with this payload, made only when the form has passed and
    the name is not empty, or the list reload. *)
Theorem create_payload_one_key (env : Env) (w : World) :
  let vpcName := trim (value (dom w "vpc-name")) in
  let sizing :=
    if strict_eq (allocationMode w) "hosts"
    then ("hosts", json_of_value (VNum (parseInt (value (dom w "host-count")))))
    else ("prefix_length",
          json_of_value (VNum (parseInt (value (dom w "prefix-length"))))) in
  createAllocation_payload w = [("vpc", JString vpcName); sizing]
  /\ createAllocation env w
     = match createAllocation_refusal w with
       | Some (message, field) =>
           (Normal tt, snd (focus field (snd (setStatus message "error" w))))
       | None => createAllocation_submit env [("vpc", JString vpcName); sizing] w
       end
  /\ grows_by
       (fun e =>
          match e with
          | EvFetch req =>
              req_url req = "/allocations"
              \/ (req_url req = "/allocate"
                  /\ req_method req = Some "POST"
                  /\ req_body req = Some [("vpc", JString vpcName); sizing]
                  /\ truthy_string vpcName = true
                  /\ createAllocation_refusal w = None)
          | _ => True
          end)
       w (snd (createAllocation env w)).
Proof.
  intros vpcName sizing.
  assert (Hpayload : createAllocation_payload w = [("vpc", JString vpcName); sizing]).
  { unfold createAllocation_payload, sizing. fold vpcName.
    destruct (strict_eq (allocationMode w) "hosts"); reflexivity. }
  split; [exact Hpayload|]. rewrite <- Hpayload.
  split; [apply createAllocation_cases|].
  set (P := fun e => match e with EvFetch _ => _ | _ => True end).
  assert (Hquiet : forall e, is_fetch e = false -> P e).
  { intros [] Hf; try exact I. discriminate. }
  assert (Hlists : forall e, lists_only e -> P e).
  { intros [] Hl; try exact I. left. exact Hl. }
  rewrite createAllocation_cases.
  destruct (createAllocation_refusal w) as [[m f]|] eqn:Href.
  - cbn [snd]. apply (grows_by_trans P w (snd (setStatus m "error" w)));
      [apply setStatus_emits, Hquiet|apply focus_emits].
  - assert (Hname : truthy_string vpcName = true).
    { unfold createAllocation_refusal in Href. fold vpcName in Href.
      destruct (truthy_string vpcName); [reflexivity|discriminate Href]. }
    apply (grows_by_trans P w
             (snd (setStatus "Creating allocation..." "loading"
                     (snd (showCreateLoading true w))))).
    + apply (grows_by_trans P w (snd (showCreateLoading true w)));
        [apply showCreateLoading_emits|apply setStatus_emits, Hquiet].
    + apply createAllocation_submit_grows; [exact Hlists|].
      intros req Hu Hm Hb. right. auto.
Qed.

End DashboardMore.
